(** * AI-Song-Detector-Backend: a shallow embedding of the detection core

    The development follows the three source modules that carry the
    algorithmic content of the repository:

    - [audio_analyzer.py]  (class [AudioAnalyzer]): lower hull, curve
      profile, max-normalisation, fakeprint, auxiliary descriptors;
    - [classifier.py]      (class [AIDetector]): model loading and saving,
      feature extraction, the heuristic rule engine, metadata and
      [predict];
    - [app.py]             (Flask routes): the extension check, the single
      and the batch endpoint.

    Numbers.  The Python code computes on IEEE doubles.  Here every float
    is an exact rational ([Q]): clipping, comparisons against thresholds,
    piecewise-linear schedules and the division by [max + 1e-6] are
    reproduced exactly, rounding is not.  The only numpy primitive that
    leaves the rationals, the square root inside [np.std], is a section
    variable.  NaN only arises in the source from the mean of an empty
    array; it is modelled by [None] in [option Q] where the source guards
    against it with [np.nan_to_num].

    Errors.  Python exceptions are values of [exn], and code that can
    raise lives in the [outcome] monad.  Library calls whose result the
    code only passes on (librosa, scipy's spline evaluation, pickle, the
    linear model) are section variables; where the source depends on how
    such a call fails, the failure is part of the model. *)

From Stdlib Require Import QArith Qminmax Qabs Qround Lqa.
From stdpp Require Import gmap strings list sorting.

Open Scope Q_scope.

(** ** Exceptions and the error monad *)

Inductive exn : Type :=
  | IndexError
  | ValueError
  | UnpicklingError
  | FileNotFoundError
  | AttributeError (msg : string)
  | DecodeError (msg : string).

Inductive outcome (A : Type) : Type :=
  | Ok (a : A)
  | Raise (e : exn).
Arguments Ok {A} a.
Arguments Raise {A} e.

#[global] Instance outcome_ret : MRet outcome := fun _ a => Ok a.
#[global] Instance outcome_bind : MBind outcome := fun _ _ k c =>
  match c with
  | Ok a => k a
  | Raise e => Raise e
  end.

Definition raises {A} (c : outcome A) : Prop := ∃ e, c = Raise e.

(** ** Python and numpy primitives *)

Definition Qltb (a b : Q) : bool := negb (Qle_bool b a).

(** [l[i]] for a non-negative [i]. *)
Definition getitem {A} (l : list A) (i : nat) : outcome A :=
  match l !! i with
  | Some a => Ok a
  | None => Raise IndexError
  end.

(** [l[-1]]. *)
Definition getitem_last {A} (l : list A) : outcome A :=
  match last l with
  | Some a => Ok a
  | None => Raise IndexError
  end.

(** [l[i:j]]. *)
Definition slice {A} (l : list A) (i j : nat) : list A :=
  take (j - i) (drop i l).

(** [np.argmin]: position of the first occurrence of the minimum;
    [ValueError] on an empty array. *)
Fixpoint argmin_from (best : nat) (bv : Q) (i : nat) (l : list Q) : nat :=
  match l with
  | [] => best
  | v :: l' =>
      if Qltb v bv then argmin_from i v (S i) l'
      else argmin_from best bv (S i) l'
  end.

Definition np_argmin (a : list Q) : outcome nat :=
  match a with
  | [] => Raise ValueError
  | v :: l => Ok (argmin_from 0 v 1 l)
  end.

(** [np.max]: [ValueError] on an empty array. *)
Definition np_max (a : list Q) : outcome Q :=
  match a with
  | [] => Raise ValueError
  | v :: l => Ok (foldl Qmax v l)
  end.

(** [np.clip(a, lo, hi)] is [minimum(maximum(a, lo), hi)]; a bound that is
    [None] in the source is left out. *)
Definition clip_lo (lo : Q) (v : Q) : Q := Qmax v lo.
Definition clip_hi (hi : Q) (v : Q) : Q := Qmin v hi.
Definition np_clip (lo hi : Q) (v : Q) : Q := Qmin (Qmax v lo) hi.

Definition np_sum (a : list Q) : Q := foldl Qplus 0 a.

(** [np.mean]: NaN ([None]) on an empty array. *)
Definition np_mean (a : list Q) : option Q :=
  match a with
  | [] => None
  | _ => Some (np_sum a / inject_Z (Z.of_nat (length a)))
  end.

Definition eps10 : Q := 0.0000000001.

(** [np.nan_to_num(v, nan=0.0)] on a value that is finite or NaN. *)
Definition nan_to_num (v : option Q) : Q := default 0 v.

(** [np.where(mask)[0]]: the positions at which a boolean array is true. *)
Fixpoint where_from (i : nat) (mask : list bool) : list nat :=
  match mask with
  | [] => []
  | b :: m => if b then i :: where_from (S i) m else where_from (S i) m
  end.

Definition np_where (mask : list bool) : list nat := where_from 0 mask.

(** Python's builtin [min(a, b)] and [max(a, b)] on two arguments: the
    second is returned only when it is strictly smaller (larger). *)
Definition py_min (a b : Q) : Q := if Qltb b a then b else a.
Definition py_max (a b : Q) : Q := if Qltb a b then b else a.

(** An integer count used in float arithmetic. *)
Definition Qn (n : nat) : Q := inject_Z (Z.of_nat n).

(** [np.diff] on an array of positions. *)
Fixpoint np_diff (a : list nat) : list Q :=
  match a with
  | i :: ((j :: _) as rest) => (Qn j - Qn i) :: np_diff rest
  | _ => []
  end.

(** Mean and population variance of a non-empty array. *)
Definition mean_of (a : list Q) : Q := np_sum a / Qn (length a).
Definition var_of (a : list Q) : Q :=
  let m := mean_of a in mean_of ((λ v, Qabs (v - m) ^ 2) <$> a).

#[global] Instance Qle_decision (x y : Q) : Decision (x <= y).
Proof.
  destruct (Qlt_le_dec y x) as [H|H]; [right | left; exact H].
  intros H'. exact (Qlt_not_le _ _ H H').
Defined.

(** [np.percentile(a, q)] with the default linear interpolation between
    the two closest ranks of the sorted array. *)
Definition np_percentile (a : list Q) (q : Q) : outcome Q :=
  let s := merge_sort Qle a in
  let virt := (Qn (length a) - 1) * (q / 100) in
  let prev := Z.to_nat (Qfloor virt) in
  let next := Nat.min (prev + 1) (length a - 1) in
  let gamma := virt - inject_Z (Qfloor virt) in
  lo ← getitem s prev;
  hi ← getitem s next;
  Ok (lo + (hi - lo) * gamma).

(** [np.correlate(a, v, mode='full')]: entry [j] is the sum over [n] of
    [a[n + j - (len(v) - 1)] * v[n]] over the positions that exist. *)
Definition np_correlate_full (a v : list Q) : list Q :=
  let M := length v in
  (λ j : nat,
     np_sum ((λ n : nat,
                if decide (M - 1 ≤ n + j)%nat
                then match a !! (n + j - (M - 1))%nat, v !! n with
                     | Some x, Some y => x * y
                     | _, _ => 0
                     end
                else 0) <$> seq 0 M))
    <$> seq 0 (length a + M - 1).

(** [np.argmax]: position of the first occurrence of the maximum;
    [ValueError] on an empty array. *)
Fixpoint argmax_from (best : nat) (bv : Q) (i : nat) (l : list Q) : nat :=
  match l with
  | [] => best
  | v :: l' =>
      if Qltb bv v then argmax_from i v (S i) l'
      else argmax_from best bv (S i) l'
  end.

Definition np_argmax (a : list Q) : outcome nat :=
  match a with
  | [] => Raise ValueError
  | v :: l => Ok (argmax_from 0 v 1 l)
  end.

(** [np.diff] on an array of floats. *)
Fixpoint np_diff_float (a : list Q) : list Q :=
  match a with
  | x :: ((y :: _) as rest) => (y - x) :: np_diff_float rest
  | _ => []
  end.

(** A [try] block whose handler assigns [None]. *)
Definition attempt {A} (c : outcome A) : option A :=
  match c with
  | Ok a => Some a
  | Raise _ => None
  end.

(** [np.linspace(start, stop, num)]. *)
Definition np_linspace (start stop : Q) (num : nat) : list Q :=
  (λ i : nat, start + inject_Z (Z.of_nat i) * ((stop - start) / inject_Z (Z.of_nat (num - 1))))
    <$> seq 0 num.

(** ** audio_analyzer.py *)

Module AudioAnalyzer.

(** The attributes set by [__init__]. *)
Record t : Type := mk {
  sr : Q;
  n_fft : Z;
  fmin : Q;
  fmax : Q
}.

(** [AudioAnalyzer()] with the default arguments. *)
Definition default : t := {| sr := 16000; n_fft := 16384%Z; fmin := 5000; fmax := 16000 |}.

(** The body of the [for] loop of [lower_hull], for one window start [i]. *)
Definition hull_step (x : list Q) (area : nat) (st : list nat * list Q) (i : nat)
  : outcome (list nat * list Q) :=
  let '(idx, hull) := st in
  let patch := slice x i (i + area) in
  rel_idx ← np_argmin patch;
  let abs_idx := (rel_idx + i)%nat in
  if decide (abs_idx ∈ idx) then Ok (idx, hull)
  else v ← getitem patch rel_idx; Ok (idx ++ [abs_idx], hull ++ [v]).

Fixpoint hull_scan (x : list Q) (area : nat) (st : list nat * list Q) (starts : list nat)
  : outcome (list nat * list Q) :=
  match starts with
  | [] => Ok st
  | i :: rest => st' ← hull_step x area st i; hull_scan x area st' rest
  end.

(** [range(len(x) - area + 1)]: empty when the bound is not positive. *)
Definition window_starts (x : list Q) (area : nat) : list nat :=
  seq 0 (length x + 1 - area).

Definition lower_hull (x : list Q) (area : nat) : outcome (list nat * list Q) :=
  '(idx, hull) ← hull_scan x area ([], []) (window_starts x area);
  i0 ← getitem idx 0;
  '(idx, hull) ← (if decide (i0 ≠ 0%nat)
                  then x0 ← getitem x 0; Ok (0%nat :: idx, x0 :: hull)
                  else Ok (idx, hull));
  il ← getitem_last idx;
  if decide (il ≠ (length x - 1)%nat)
  then xl ← getitem_last x; Ok (idx ++ [(length x - 1)%nat], hull ++ [xl])
  else Ok (idx, hull).

(** [max_normalize]: clip to [0, max_db], divide by [1e-6 + max]. *)
Definition eps6 : Q := 0.000001.

Definition max_normalize (x : list Q) (max_db : Q) : outcome (list Q) :=
  let x := np_clip 0 max_db <$> x in
  m ← np_max x;
  Ok ((λ v, v / (eps6 + m)) <$> x).

(** [np.where(mask)[0]] for the band mask [(fmin < freqs) & (freqs < fmax)]:
    the positions of the frequencies strictly inside the band. *)
Definition band_idx (self : t) (freqs : list Q) : list nat :=
  np_where ((λ f, Qltb (fmin self) f && Qltb f (fmax self)) <$> freqs).

(** [a[idx]] with an integer index array. *)
Definition take_idx {A} (a : list A) (idx : list nat) : outcome (list A) :=
  mapM (getitem a) idx.

(** Two of the entries of [xs] are equal. *)
Fixpoint has_duplicates (xs : list Q) : bool :=
  match xs with
  | [] => false
  | x :: rest => existsb (Qeq_bool x) rest || has_duplicates rest
  end.

Section Pipeline.

(** External collaborators: the callable that scipy's
    [interp1d(xs, ys, kind="quadratic", fill_value="extrapolate")] builds
    from knots it accepts, evaluated at every query point, and librosa's
    STFT followed by the dB conversion of [compute_spectrogram], one row
    per frequency bin, each holding at least one time frame. *)
Variable interp1d : list Q → list Q → Q → Q.
Variable audio : Type.
Variable compute_spectrogram : audio → list (list Q).

(** The constructor [interpolate.interp1d(xs, ys, kind="quadratic", ...)]:
    a quadratic spline needs three knots, and the knots must be distinct;
    scipy raises ValueError otherwise. *)
Definition interp1d_quadratic (xs ys : list Q) : outcome (Q → Q) :=
  if decide (length xs < 3)%nat then Raise ValueError
  else if has_duplicates xs then Raise ValueError
  else Ok (interp1d xs ys).

Definition curve_profile (self : t) (freqs curve : list Q) (min_db : Q)
  : outcome (list Q * list Q) :=
  let cutoff_idx := band_idx self freqs in
  freqs_cut ← take_idx freqs cutoff_idx;
  curve_cut ← take_idx curve cutoff_idx;
  '(lower_idx, lower_vals) ← lower_hull curve_cut 10;
  knots ← take_idx freqs_cut lower_idx;
  hull_interp ← interp1d_quadratic knots lower_vals;
  let hull_interp := hull_interp <$> freqs_cut in
  let hull_interp := clip_lo min_db <$> hull_interp in
  let profile := clip_lo 0 <$> zip_with Qminus curve_cut hull_interp in
  Ok (freqs_cut, profile).

Definition compute_fakeprint (self : t) (a : audio) : outcome (list Q) :=
  let spec := compute_spectrogram a in
  let mean_spec := mean_of <$> spec in
  let freqs := np_linspace 0 (sr self / 2) (length mean_spec) in
  '(_, profile) ← curve_profile self freqs mean_spec (-45);
  max_normalize profile 5.

End Pipeline.

(** [librosa.fft_frequencies(sr, n_fft)], that is [np.fft.rfftfreq]: the
    centres [k * sr / n_fft] of the [1 + n_fft // 2] bins. *)
Definition fft_frequencies (sr : Q) (n_fft : Z) : list Q :=
  (λ k : nat, Qn k * sr / inject_Z n_fft) <$> seq 0 (1 + Z.to_nat (n_fft / 2)).

Section Descriptors.

(** librosa: [load(path, sr=..., mono=True, duration=180)], which returns
    the samples and their rate ([sr=None] keeps the rate of the file), the
    first row of [feature.spectral_centroid], [feature.spectral_rolloff],
    [feature.spectral_bandwidth] and [feature.zero_crossing_rate], and
    [np.abs] of the STFT with the given [n_fft], one row per bin. *)
Variable np_sqrt : Q → Q.
Variable interp1d : list Q → list Q → Q → Q.
Variable audio : Type.
Variable compute_spectrogram : audio → list (list Q).
Variable librosa_load : string → option Q → outcome (audio * Q).
Variable spectral_centroid : audio → Q → outcome (list Q).
Variable spectral_rolloff : audio → Q → outcome (list Q).
Variable spectral_bandwidth : audio → Q → outcome (list Q).
Variable zero_crossing_rate : audio → outcome (list Q).
Variable stft_magnitude : audio → Z → list (list Q).

(** [np.std]: NaN on an empty array. *)
Definition np_std (a : list Q) : option Q :=
  match a with
  | [] => None
  | _ => Some (np_sqrt (var_of a))
  end.

Definition load_audio (self : t) (file_path : string) : outcome audio :=
  '(a, _) ← librosa_load file_path (Some (sr self));
  Ok a.

Definition analyze_audio_file (self : t) (file_path : string) : outcome (list Q) :=
  a ← load_audio self file_path;
  compute_fakeprint interp1d audio compute_spectrogram self a.

(** The last descriptor of [extract_additional_features]: the mean
    magnitude of the STFT over the bins above 8000 Hz. *)
Definition high_freq_energy (self : t) (a : audio) : outcome Q :=
  let stft := stft_magnitude a (n_fft self) in
  let freqs := fft_frequencies (sr self) (n_fft self) in
  let high_freq_idx := np_where ((λ f, Qltb 8000 f) <$> freqs) in
  if decide (0 < length high_freq_idx)%nat then
    rows ← take_idx stft high_freq_idx;
    Ok (nan_to_num (np_mean (concat rows)))
  else Ok 0.0.

Definition extract_additional_features (self : t) (a : audio) : outcome (gmap string Q) :=
  let features : gmap string Q := ∅ in
  spectral_centroids ← spectral_centroid a (sr self);
  let features :=
    <["spectral_centroid_mean"%string := nan_to_num (np_mean spectral_centroids)]> features in
  let features :=
    <["spectral_centroid_std"%string := nan_to_num (np_std spectral_centroids)]> features in
  rolloff ← spectral_rolloff a (sr self);
  let features := <["spectral_rolloff_mean"%string := nan_to_num (np_mean rolloff)]> features in
  bandwidth ← spectral_bandwidth a (sr self);
  let features :=
    <["spectral_bandwidth_mean"%string := nan_to_num (np_mean bandwidth)]> features in
  zcr ← zero_crossing_rate a;
  let features := <["zcr_mean"%string := nan_to_num (np_mean zcr)]> features in
  hf ← high_freq_energy self a;
  Ok (<["high_freq_energy"%string := hf]> features).

End Descriptors.

End AudioAnalyzer.

(** ** classifier.py *)

Module AIDetector.

(** *** Feature descriptors, audit record and result *)

Record FeatureVector : Type := mkFeatures {
  peak_count_high : nat;
  peak_count_medium : nat;
  peak_count_low : nat;
  peak_density_high : Q;
  peak_density_medium : Q;
  peak_density_low : Q;
  peak_regularity_score : Q;
  peak_spacing_variance : Q;
  peak_spacing_cv : Q;
  fakeprint_mean : Q;
  fakeprint_max : Q;
  fakeprint_std : Q;
  fakeprint_p75 : Q;
  fakeprint_p90 : Q;
  fakeprint_kurtosis : Q;
  high_freq_energy : Q;
  high_freq_ratio : Q;
  periodicity_score : Q
}.

(** The ['details'] dictionary: the descriptors as computed, the
    adjustments and the clipped score. *)
Record ScoreDetail : Type := mkDetail {
  features : FeatureVector;
  kurtosis_bonus : Q;
  hf_adjustment : Q;
  combined_ia_indicator : bool;
  combined_bonus : Q;
  score : Q
}.

Record ClassificationResult : Type := mkResult {
  is_ai_generated : bool;
  confidence : Q;
  ai_probability : Q;
  human_probability : Q;
  details : ScoreDetail
}.

(** *** ANALISIS 2: the regularity schedule *)

Definition regularity_of_cv (cv : Q) : Q :=
  if Qltb cv 0.3 then 0.8 + (0.3 - cv) * 0.67
  else if Qltb cv 0.5 then 0.5 + (0.5 - cv) * 1.5
  else if Qltb cv 0.7 then 0.3 + (0.7 - cv) * 1.0
  else py_max 0.0 (0.3 - (cv - 0.7) * 0.5).

(** *** The scoring rules, in source order *)

Definition peak_count_points (fv : FeatureVector) : Q :=
  let peak_regularity_multiplier := 1.0 + peak_regularity_score fv in
  let n := peak_count_medium fv in
  if (50 <=? n)%nat && (n <=? 150)%nat then 20 * peak_regularity_multiplier
  else if (n <? 50)%nat then Qn n * 0.3 * peak_regularity_multiplier
  else
    let excess := Qn n - 150 in
    let penalty := py_min 20 (excess * 0.1) in
    (20 - penalty) * peak_regularity_multiplier.

Definition high_peak_points (fv : FeatureVector) : Q :=
  let n := peak_count_high fv in
  if (5 <=? n)%nat && (n <=? 30)%nat then 15
  else if (n <? 5)%nat then Qn n * 3.0
  else
    let excess := Qn n - 30 in
    let penalty := py_min 10 (excess * 0.2) in
    15 - penalty.

Definition mean_points (fv : FeatureVector) : Q :=
  let m := fakeprint_mean fv in
  if Qle_bool 0.06 m && Qle_bool m 0.10 then 15
  else if Qltb m 0.06 then m * 250
  else if Qltb 0.10 m && Qle_bool m 0.12 then 10
  else py_max 0 (8 - (m - 0.12) * 80).

Definition max_points (fv : FeatureVector) : Q :=
  let m := fakeprint_max fv in
  if Qltb 0.8 m then 8
  else if Qltb 0.6 m then 6
  else m * 10.

Definition p90_points (fv : FeatureVector) : Q :=
  let p := fakeprint_p90 fv in
  if Qle_bool 0.12 p && Qle_bool p 0.22 then 10
  else if Qltb p 0.12 then p * 80
  else if Qltb 0.22 p && Qle_bool p 0.28 then 5
  else py_max 0 (3 - (p - 0.28) * 15).

Definition periodicity_points (fv : FeatureVector) : Q :=
  let p := periodicity_score fv in
  if Qltb 0.5 p then 12
  else if Qltb 0.40 p then 8
  else if Qltb 0.30 p then 4
  else if Qltb 0.20 p then 2
  else p * 8.

Definition regularity_points (fv : FeatureVector) : Q :=
  peak_regularity_score fv * 20.

Definition kurtosis_bonus_of (fv : FeatureVector) : Q :=
  let k := fakeprint_kurtosis fv in
  if Qltb 15.0 k then 20
  else if Qltb 10.0 k then 15 + (k - 10) * 1.0
  else if Qltb 6.0 k then 8 + (k - 6) * 1.75
  else if Qltb 4.0 k then (k - 4) * 4
  else 0.

Definition hf_adjustment_of (fv : FeatureVector) (kurtosis_bonus : Q) : Q :=
  let hf := high_freq_energy fv in
  if Qeq_bool hf 0.0 || Qltb hf 0.0000001 then
    if Qltb 10 kurtosis_bonus || Qltb 0.5 (peak_regularity_score fv) then 10 else 3
  else if Qltb hf 0.00001 then 2
  else if Qltb hf 0.00005 then -3
  else 0.

Definition combined_indicator_of (fv : FeatureVector) : bool :=
  Qltb 5.0 (fakeprint_kurtosis fv) && Qltb (fakeprint_kurtosis fv) 10.0
  && Qltb (high_freq_energy fv) 0.00005
  && Qltb 0.3 (peak_regularity_score fv).

Definition abundant_and_regular (fv : FeatureVector) : bool :=
  (50 <? peak_count_medium fv)%nat && Qltb 0.6 (peak_regularity_score fv).

(** The accumulated [score] just before it is clipped. *)
Definition raw_score (fv : FeatureVector) : Q :=
  let score := 0.0 in
  let score := score + peak_count_points fv in
  let score := score + high_peak_points fv in
  let score := score + mean_points fv in
  let score := score + max_points fv in
  let score := score + p90_points fv in
  let score := score + periodicity_points fv in
  let score := score + regularity_points fv in
  let kurtosis_bonus := kurtosis_bonus_of fv in
  let score := score + kurtosis_bonus in
  let score := score + hf_adjustment_of fv kurtosis_bonus in
  let score := if combined_indicator_of fv then score + 15 else score in
  if abundant_and_regular fv then score + 5 else score.

(** SCORING ... RESULTADO FINAL: from the descriptors to the returned
    dictionary. *)
Definition heuristic_result (fv : FeatureVector) : ClassificationResult :=
  let kurtosis_bonus := kurtosis_bonus_of fv in
  let hf_adjustment := hf_adjustment_of fv kurtosis_bonus in
  let combined_ia_indicator := combined_indicator_of fv in
  let combined_bonus := if combined_ia_indicator then 15 else 0 in
  let score := py_max 0.0 (py_min (raw_score fv) 100.0) in
  let ai_probability := np_clip 0 100 score in
  let is_ai := Qltb 50 ai_probability in
  let confidence := Qabs (ai_probability - 50) / 50 in
  {| is_ai_generated := is_ai;
     confidence := confidence;
     ai_probability := ai_probability;
     human_probability := 100 - ai_probability;
     details := {| features := fv;
                   kurtosis_bonus := kurtosis_bonus;
                   hf_adjustment := hf_adjustment;
                   combined_ia_indicator := combined_ia_indicator;
                   combined_bonus := combined_bonus;
                   score := score |} |}.

(** *** ANALISIS 1 to 5: the descriptors of a fakeprint *)

Section Features.

(** The square root taken by [np.std]. *)
Variable np_sqrt : Q → Q.

Definition std_of (a : list Q) : Q := np_sqrt (var_of a).

(** [np.std]: NaN on an empty array. *)
Definition np_std (a : list Q) : option Q :=
  match a with
  | [] => None
  | _ => Some (std_of a)
  end.

(** [np.where(fakeprint > threshold)[0]]. *)
Definition peaks_above (threshold : Q) (fakeprint : list Q) : list nat :=
  np_where ((λ v, Qltb threshold v) <$> fakeprint).

Definition density (count : nat) (fakeprint : list Q) : Q :=
  if decide (0 < length fakeprint)%nat then Qn count / Qn (length fakeprint) else 0.

(** The regularity block: (peak_regularity_score, peak_spacing_variance,
    peak_spacing_cv).  Inside the guard the spacing array has at least
    three entries, so its mean and deviation are finite. *)
Definition peak_regularity (peaks_medium : list nat) : Q * Q * Q :=
  if decide (3 < length peaks_medium)%nat then
    let peak_spacings := np_diff peaks_medium in
    let peak_spacing_variance := std_of peak_spacings in
    let mean_spacing := mean_of peak_spacings in
    if Qltb 0 mean_spacing then
      let cv := peak_spacing_variance / mean_spacing in
      (regularity_of_cv cv, peak_spacing_variance, cv)
    else (0.5, peak_spacing_variance, 0.0)
  else (0.0, 0.0, 0.0).

(** The kurtosis-like statistic, before and after [np.nan_to_num]. *)
Definition kurtosis_raw (fakeprint : list Q) (fakeprint_mean fakeprint_std : Q) : option Q :=
  (λ m4, m4 / (fakeprint_std ^ 4 + eps10))
    <$> np_mean ((λ v, (v - fakeprint_mean) ^ 4) <$> fakeprint).

Definition kurtosis_of (fakeprint : list Q) (fakeprint_mean fakeprint_std : Q) : Q :=
  nan_to_num (kurtosis_raw fakeprint fakeprint_mean fakeprint_std).

(** The periodicity block. *)
Definition periodicity_of (fakeprint : list Q) (fakeprint_mean : Q) : outcome Q :=
  if decide (10 < length fakeprint)%nat then
    let centred := (λ v, v - fakeprint_mean) <$> fakeprint in
    let autocorr := np_correlate_full centred centred in
    let autocorr := drop (length autocorr / 2) autocorr in
    a0 ← getitem autocorr 0;
    let autocorr := (λ v, v / (a0 + eps10)) <$> autocorr in
    if decide (5 < length autocorr)%nat then
      let secondary_peaks := slice autocorr 2 (Nat.min 50 (length autocorr)) in
      if decide (0 < length secondary_peaks)%nat then np_max secondary_peaks else Ok 0.0
    else Ok 0.0
  else Ok 0.0.

(** [extra_features.get('high_freq_energy', 0.0)]. *)
Definition get_high_freq_energy (extra_features : gmap string Q) : Q :=
  default 0.0 (extra_features !! "high_freq_energy"%string).

Definition extract_features (fakeprint : list Q) (extra_features : gmap string Q)
  : outcome FeatureVector :=
  let peaks_high := peaks_above 0.5 fakeprint in
  let peaks_medium := peaks_above 0.3 fakeprint in
  let peaks_low := peaks_above 0.1 fakeprint in
  let '(regularity, spacing_variance, spacing_cv) := peak_regularity peaks_medium in
  let f_mean := nan_to_num (np_mean fakeprint) in
  f_max ← np_max fakeprint;
  let f_std := nan_to_num (np_std fakeprint) in
  p75 ← np_percentile fakeprint 75;
  p90 ← np_percentile fakeprint 90;
  let kurtosis := kurtosis_of fakeprint f_mean f_std in
  let hf_energy := get_high_freq_energy extra_features in
  let total_energy := np_sum ((λ v, v ^ 2) <$> fakeprint) in
  periodicity ← periodicity_of fakeprint f_mean;
  Ok {| peak_count_high := length peaks_high;
        peak_count_medium := length peaks_medium;
        peak_count_low := length peaks_low;
        peak_density_high := density (length peaks_high) fakeprint;
        peak_density_medium := density (length peaks_medium) fakeprint;
        peak_density_low := density (length peaks_low) fakeprint;
        peak_regularity_score := regularity;
        peak_spacing_variance := spacing_variance;
        peak_spacing_cv := spacing_cv;
        fakeprint_mean := f_mean;
        fakeprint_max := f_max;
        fakeprint_std := f_std;
        fakeprint_p75 := p75;
        fakeprint_p90 := p90;
        fakeprint_kurtosis := kurtosis;
        high_freq_energy := hf_energy;
        high_freq_ratio := hf_energy / (total_energy + eps10);
        periodicity_score := periodicity |}.

(** *** The detector object *)

Variable Model : Type.

Record t : Type := mk {
  analyzer : AudioAnalyzer.t;
  model : option Model;
  is_trained : bool
}.

(** [_compute_heuristic_prediction]: reads neither attribute of [self];
    the report it prints is not part of the value returned. *)
Definition _compute_heuristic_prediction (self : t)
    (fakeprint : list Q) (extra_features : gmap string Q)
  : outcome ClassificationResult :=
  fv ← extract_features fakeprint extra_features;
  Ok (heuristic_result fv).

(** The model store: the files that exist, by path, and [pickle.load]. *)
Variable bytes : Type.
Variable pickle_load : bytes → outcome Model.

(** [load_model] assigns the attributes one after the other, so the state
    it leaves behind is returned next to its outcome. *)
Definition load_model (self : t) (fs : gmap string bytes) (path : string)
  : t * outcome () :=
  match fs !! path with
  | None => (self, Raise FileNotFoundError)
  | Some content =>
      match pickle_load content with
      | Raise e => (self, Raise e)
      | Ok m =>
          ({| analyzer := analyzer self; model := Some m; is_trained := true |}, Ok ())
      end
  end.

(** [os.path.exists]. *)
Definition path_exists (fs : gmap string bytes) (path : string) : bool :=
  bool_decide (is_Some (fs !! path)).

(** [model_path] is truthy: neither [None] nor the empty string. *)
Definition truthy (model_path : option string) : bool :=
  match model_path with
  | Some p => negb (String.eqb p "")
  | None => false
  end.

(** [AIDetector(model_path)]: an exception escaping [__init__] leaves the
    caller without an object. *)
Definition __init__ (fs : gmap string bytes) (model_path : option string) : outcome t :=
  let self := {| analyzer := AudioAnalyzer.default; model := None; is_trained := false |} in
  match model_path with
  | Some p =>
      if truthy model_path && path_exists fs p then
        let '(self, r) := load_model self fs p in
        _ ← r;
        Ok {| analyzer := analyzer self; model := model self; is_trained := true |}
      else Ok self
  | None => Ok self
  end.

(** *** Metadata *)

Record Metadata : Type := mkMetadata {
  duration : option Q;
  quality : option string;
  bpm : option Q;
  key : option string;
  danceability : option Q;
  energy : option Q
}.

(** The dictionary returned by the outer handler. *)
Definition no_metadata : Metadata :=
  {| duration := None; quality := None; bpm := None; key := None;
     danceability := None; energy := None |}.

Definition keys : list string :=
  ["C"; "C#"; "D"; "D#"; "E"; "F"; "F#"; "G"; "G#"; "A"; "A#"; "B"]%string.

(** The quality label, from the size of the file in bytes and the duration
    in seconds. *)
Definition quality_of (file_size : Z) (duration : Q) : string :=
  let bitrate_kbps :=
    if Qltb 0 duration then (inject_Z file_size * 8) / (duration * 1000) else 0 in
  if Qle_bool 320 bitrate_kbps then "Lossless"
  else if Qle_bool 192 bitrate_kbps then "High"
  else if Qle_bool 128 bitrate_kbps then "Medium"
  else "Low".

(** librosa and the file system: [librosa.load], [get_duration],
    [os.path.getsize], [beat.beat_track] (the tempo as librosa returns it
    and the beat frames), the conversion [float(tempo)], which can raise,
    [feature.chroma_cqt] (one row per pitch class), [frames_to_time], and
    the first rows of [feature.spectral_centroid], [feature.rms] and
    [feature.spectral_rolloff]. *)
Variable audio : Type.
Variable librosa_load : string → option Q → outcome (audio * Q).
Variable get_duration : audio → Q → Q.
Variable getsize : string → outcome Z.
Variable tempo_array : Type.
Variable beat_track : audio → Q → outcome (tempo_array * list nat).
Variable float_of_tempo : tempo_array → outcome Q.
Variable chroma_cqt : audio → Q → outcome (list (list Q)).
Variable frames_to_time : list nat → Q → list Q.
Variable spectral_centroid : audio → Q → outcome (list Q).
Variable rms : audio → outcome (list Q).
Variable spectral_rolloff : audio → Q → outcome (list Q).

(** 3. TONALIDAD *)
Definition key_of (y : audio) (sr : Q) : outcome string :=
  chromagram ← chroma_cqt y sr;
  let chroma_mean := mean_of <$> chromagram in
  key_index ← np_argmax chroma_mean;
  getitem keys key_index.

(** 4. DANCEABILITY.  [beats] is bound once [beat_track] has returned in
    the BPM block, also when [float(tempo)] raises after it; reading it
    unbound raises inside this block, whose handler assigns [None]. *)
Definition danceability_of (y : audio) (sr : Q) (beats : option (list nat)) : option Q :=
  match beats with
  | None => None
  | Some beats =>
      let beat_regularity :=
        if decide (1 < length beats)%nat then
          let beat_intervals := np_diff_float (frames_to_time beats sr) in
          1.0 - py_min (std_of beat_intervals
                        / (mean_of beat_intervals + AudioAnalyzer.eps6)) 1.0
        else 0.0 in
      attempt (centroid_row ← spectral_centroid y sr;
               let centroid := mean_of centroid_row in
               let bass_emphasis := py_max 0 (1.0 - centroid / (sr / 2)) in
               let danceability := 0.6 * beat_regularity + 0.4 * bass_emphasis in
               Ok (np_clip 0.0 1.0 danceability))
  end.

(** 5. ENERGY *)
Definition energy_of (y : audio) (sr : Q) : option Q :=
  attempt (rms_row ← rms y;
           let rms_mean := mean_of rms_row in
           rolloff_row ← spectral_rolloff y sr;
           let spectral_variance := std_of rolloff_row in
           let rms_normalized := np_clip 0.0 1.0 (rms_mean / 0.3) in
           let spectral_normalized := np_clip 0.0 1.0 (spectral_variance / 5000) in
           let energy := 0.7 * rms_normalized + 0.3 * spectral_normalized in
           Ok (np_clip 0.0 1.0 energy)).

Definition _extract_audio_metadata (audio_path : string) : Metadata :=
  match ('(y, sr) ← librosa_load audio_path None;
         let duration := get_duration y sr in
         file_size ← getsize audio_path;
         Ok (y, sr, duration, file_size)) with
  | Raise _ => no_metadata
  | Ok (y, sr, duration, file_size) =>
      let quality := quality_of file_size duration in
      let tracked := attempt (beat_track y sr) in
      {| duration := Some duration;
         quality := Some quality;
         bpm := tracked ≫= (λ '(tempo, _), attempt (float_of_tempo tempo));
         key := attempt (key_of y sr);
         danceability := danceability_of y sr (snd <$> tracked);
         energy := energy_of y sr |}
  end.

(** *** predict *)

(** The remaining collaborators of the analyzer and the two methods of the
    linear model: the predicted label and the probabilities of the classes
    0 (human) and 1 (AI). *)
Variable interp1d : list Q → list Q → Q → Q.
Variable compute_spectrogram : audio → list (list Q).
Variable spectral_bandwidth : audio → Q → outcome (list Q).
Variable zero_crossing_rate : audio → outcome (list Q).
Variable stft_magnitude : audio → Z → list (list Q).
Variable model_predict : Model → list Q → Z.
Variable model_predict_proba : Model → list Q → Q * Q.

(** The dictionary returned by [predict]: the four result fields, the
    audit record in heuristic mode, and the metadata merged in by
    [result.update(metadata)]. *)
Record Prediction : Type := mkPrediction {
  verdict : bool;
  verdict_confidence : Q;
  verdict_ai_probability : Q;
  verdict_human_probability : Q;
  verdict_details : option ScoreDetail;
  metadata : Metadata
}.

Definition _predict_heuristic_with_audio (self : t) (a : audio)
  : outcome ClassificationResult :=
  fakeprint ← AudioAnalyzer.compute_fakeprint interp1d audio compute_spectrogram
                (analyzer self) a;
  extra_features ← AudioAnalyzer.extract_additional_features np_sqrt audio
                     spectral_centroid spectral_rolloff spectral_bandwidth
                     zero_crossing_rate stft_magnitude (analyzer self) a;
  _compute_heuristic_prediction self fakeprint extra_features.

(** [predict].  A detector marked as trained that holds no model fails on
    the attribute lookup [self.model.predict], after the features were
    extracted. *)
Definition predict (self : t) (audio_path : string) : outcome Prediction :=
  let meta := _extract_audio_metadata audio_path in
  if negb (is_trained self) then
    a ← AudioAnalyzer.load_audio audio librosa_load (analyzer self) audio_path;
    result ← _predict_heuristic_with_audio self a;
    Ok {| verdict := is_ai_generated result;
          verdict_confidence := confidence result;
          verdict_ai_probability := ai_probability result;
          verdict_human_probability := human_probability result;
          verdict_details := Some (details result);
          metadata := meta |}
  else
    features ← AudioAnalyzer.analyze_audio_file interp1d audio compute_spectrogram
                 librosa_load (analyzer self) audio_path;
    match model self with
    | None => Raise (AttributeError "'NoneType' object has no attribute 'predict'")
    | Some m =>
        let prediction := model_predict m features in
        let probability := model_predict_proba m features in
        Ok {| verdict := (prediction =? 1)%Z;
              verdict_confidence := py_max probability.1 probability.2;
              verdict_ai_probability := probability.2 * 100;
              verdict_human_probability := probability.1 * 100;
              verdict_details := None;
              metadata := meta |}
    end.

(** [pickle.dump]. *)
Variable pickle_dump : Model → bytes.

(** [save_model]: ValueError when there is no model; otherwise the file
    at [path] is (over)written with the pickled model.  Opening the file
    for writing is taken to succeed. *)
Definition save_model (self : t) (fs : gmap string bytes) (path : string)
  : gmap string bytes * outcome () :=
  match model self with
  | None => (fs, Raise ValueError)
  | Some m => (<[path := pickle_dump m]> fs, Ok ())
  end.

End Features.

End AIDetector.

(** ** app.py *)

Module App.

(** [filename.rsplit('.', 1)[1]] when the name contains a dot. *)
Fixpoint ext_after_last_dot (s : string) : option string :=
  match s with
  | EmptyString => None
  | String c s' =>
      match ext_after_last_dot s' with
      | Some e => Some e
      | None => if Ascii.eqb c (Ascii.ascii_of_nat 46) then Some s' else None
      end
  end.

(** [str.lower] on ASCII letters. *)
Definition lower_ascii (c : Ascii.ascii) : Ascii.ascii :=
  let n := Ascii.nat_of_ascii c in
  if (65 <=? n)%nat && (n <=? 90)%nat then Ascii.ascii_of_nat (n + 32) else c.

Fixpoint lower (s : string) : string :=
  match s with
  | EmptyString => EmptyString
  | String c s' => String (lower_ascii c) (lower s')
  end.

(** The default of the [ALLOWED_EXTENSIONS] setting. *)
Definition default_extensions : list string :=
  ["mp3"; "wav"; "ogg"; "m4a"; "flac"; "aac"]%string.

Definition allowed_file (ALLOWED_EXTENSIONS : list string) (filename : string) : bool :=
  match ext_after_last_dot filename with
  | Some e => bool_decide (lower e ∈ ALLOWED_EXTENSIONS)
  | None => false
  end.

(** [str(e)] for the exceptions of the model. *)
Definition str_exn (e : exn) : string :=
  match e with
  | IndexError => "list index out of range"
  | ValueError => "zero-size array to reduction operation"
  | UnpicklingError => "invalid load key"
  | FileNotFoundError => "No such file or directory"
  | AttributeError msg => msg
  | DecodeError msg => msg
  end%string.

Section Batch.

(** An uploaded file: its client-side name and its bytes. *)
Variable bytes : Type.

Record FileStorage : Type := mkFile {
  filename : string;
  content : bytes
}.

(** Settings and collaborators: the extension whitelist, werkzeug's
    [secure_filename], [os.path.join(UPLOAD_FOLDER, _)], and the analysis
    that [detector.predict] makes of the bytes of an audio file. *)
Variable ALLOWED_EXTENSIONS : list string.
Variable secure_filename : string → string.
Variable upload_path : string → string.
Variable prediction : Type.
Variable analyse : bytes → outcome prediction.

(** [detector.predict(temp_path)] reads the file saved at the path. *)
Definition predict (fs : gmap string bytes) (path : string) : outcome prediction :=
  match fs !! path with
  | Some content => analyse content
  | None => Raise FileNotFoundError
  end.

(** One element of ['results']. *)
Inductive entry : Type :=
  | Success (name : string) (result : prediction)
  | Error (name : string) (error : string).

Definition status (e : entry) : string :=
  match e with
  | Success _ _ => "success"
  | Error _ _ => "error"
  end.

Inductive response : Type :=
  | Json200 (total : nat) (results : list entry)
  | Json400 (error message : string).

(** The body of the [for] loop: the upload folder and the result list
    before and after one file. *)
Definition batch_step (st : gmap string bytes * list entry) (file : FileStorage)
  : gmap string bytes * list entry :=
  let '(fs, results) := st in
  if String.eqb (filename file) "" || negb (allowed_file ALLOWED_EXTENSIONS (filename file))
  then (fs, results)
  else
    let name := secure_filename (filename file) in
    let temp_path := upload_path name in
    let fs := <[temp_path := content file]> fs in
    let results :=
      match predict fs temp_path with
      | Ok result => results ++ [Success name result]
      | Raise e => results ++ [Error name (str_exn e)]
      end in
    (delete temp_path fs, results).

(** [batch_analyze]: the upload folder before and after, and the JSON
    answer.  [secure_filename], [file.save] and [os.remove] are taken not to
    raise, so the outer handler that answers 500 is never entered. *)
Definition batch_analyze (fs : gmap string bytes) (files : list FileStorage)
  : gmap string bytes * response :=
  match files with
  | [] => (fs, Json400 "No se encontraron archivos" "Debes enviar al menos un archivo")
  | _ =>
      let '(fs, results) := foldl batch_step (fs, []) files in
      (fs, Json200 (length results) results)
  end.

(** The files the loop does not skip, and the entry it records for one. *)
Definition eligible (file : FileStorage) : bool :=
  negb (String.eqb (filename file) "" || negb (allowed_file ALLOWED_EXTENSIONS (filename file))).

Definition entry_of (file : FileStorage) : entry :=
  let name := secure_filename (filename file) in
  match analyse (content file) with
  | Ok result => Success name result
  | Raise e => Error name (str_exn e)
  end.

(** The result list the loop builds from a batch. *)
Definition expected_results (files : list FileStorage) : list entry :=
  entry_of <$> List.filter eligible files.

(** The answer of [/api/analyze]: the result with its file name (200), the
    ['error'] field of a rejected request (400), or the message of the
    exception (500).  Strings are byte strings in UTF-8. *)
Inductive reply : Type :=
  | Reply200 (name : string) (result : prediction)
  | Reply400 (error : string)
  | Reply500 (message : string).

(** [analyze_audio], on the files sent in the field ['audio']:
    [request.files['audio']] is the first of them.  The [finally] clause
    removes the temporary file whether or not [predict] raised. *)
Definition analyze_audio (fs : gmap string bytes) (files : list FileStorage)
  : gmap string bytes * reply :=
  match files with
  | [] => (fs, Reply400 "No se encontró archivo de audio")
  | file :: _ =>
      if String.eqb (filename file) "" then (fs, Reply400 "No se seleccionó archivo")
      else if negb (allowed_file ALLOWED_EXTENSIONS (filename file))
      then (fs, Reply400 "Formato no soportado")
      else
        let name := secure_filename (filename file) in
        let temp_path := upload_path name in
        let fs := <[temp_path := content file]> fs in
        let outcome := predict fs temp_path in
        let fs := delete temp_path fs in
        match outcome with
        | Ok result => (fs, Reply200 name result)
        | Raise e => (fs, Reply500 (str_exn e))
        end
  end.

End Batch.

Arguments filename {bytes} _.
Arguments content {bytes} _.
Arguments mkFile {bytes} _ _.
Arguments Success {prediction} _ _.
Arguments Error {prediction} _ _.
Arguments status {prediction} _.
Arguments Json200 {prediction} _ _.
Arguments Json400 {prediction} _ _.
Arguments Reply200 {prediction} _ _.
Arguments Reply400 {prediction} _.
Arguments Reply500 {prediction} _.

End App.

(** ** Specification predicates *)

(** [M] is the largest element of [l]. *)
Definition is_max (l : list Q) (M : Q) : Prop :=
  (∃ v, v ∈ l ∧ v == M) ∧ ∀ v, v ∈ l → v <= M.

(** [r] is the position of the first occurrence of the minimum of [l]. *)
Definition first_min (l : list Q) (r : nat) : Prop :=
  ∃ rv, l !! r = Some rv
        ∧ (∀ j v, l !! j = Some v → rv <= v)
        ∧ (∀ j v, (j < r)%nat → l !! j = Some v → rv < v).

(** [r] is the position of the first occurrence of the maximum of [l]. *)
Definition first_max (l : list Q) (r : nat) : Prop :=
  ∃ rv, l !! r = Some rv
        ∧ (∀ j v, l !! j = Some v → v <= rv)
        ∧ (∀ j v, (j < r)%nat → l !! j = Some v → v < rv).

(** The entries of [l] are strictly increasing. *)
Definition increasing (l : list Q) : Prop :=
  ∀ i j x y, (i < j)%nat → l !! i = Some x → l !! j = Some y → x < y.

(** [q] is the absolute position of the first minimum of the window of
    width [area] that starts at [i]. *)
Definition win_min (x : list Q) (area i q : nat) : Prop :=
  (i ≤ q < i + area)%nat
  ∧ ∃ qv, x !! q = Some qv
          ∧ (∀ j v, (i ≤ j < i + area)%nat → x !! j = Some v → qv <= v)
          ∧ (∀ j v, (i ≤ j < q)%nat → x !! j = Some v → qv < v).

(** What holds of [(idx, hull)] once the windows [0 .. k-1] of
    [lower_hull] are done. *)
Definition hull_inv (x : list Q) (area k : nat) (st : list nat * list Q) : Prop :=
  Forall2 (λ j v, x !! j = Some v) st.1 st.2
  ∧ StronglySorted lt st.1
  ∧ match k with
    | O => st.1 = []
    | S k' => ∃ q0 q, win_min x area 0 q0 ∧ win_min x area k' q
                      ∧ head st.1 = Some q0 ∧ last st.1 = Some q
    end.

(** The descriptors [fv] with the regularity score replaced by [r]. *)
Definition set_regularity (fv : AIDetector.FeatureVector) (r : Q) : AIDetector.FeatureVector :=
  {| AIDetector.peak_count_high := AIDetector.peak_count_high fv;
     AIDetector.peak_count_medium := AIDetector.peak_count_medium fv;
     AIDetector.peak_count_low := AIDetector.peak_count_low fv;
     AIDetector.peak_density_high := AIDetector.peak_density_high fv;
     AIDetector.peak_density_medium := AIDetector.peak_density_medium fv;
     AIDetector.peak_density_low := AIDetector.peak_density_low fv;
     AIDetector.peak_regularity_score := r;
     AIDetector.peak_spacing_variance := AIDetector.peak_spacing_variance fv;
     AIDetector.peak_spacing_cv := AIDetector.peak_spacing_cv fv;
     AIDetector.fakeprint_mean := AIDetector.fakeprint_mean fv;
     AIDetector.fakeprint_max := AIDetector.fakeprint_max fv;
     AIDetector.fakeprint_std := AIDetector.fakeprint_std fv;
     AIDetector.fakeprint_p75 := AIDetector.fakeprint_p75 fv;
     AIDetector.fakeprint_p90 := AIDetector.fakeprint_p90 fv;
     AIDetector.fakeprint_kurtosis := AIDetector.fakeprint_kurtosis fv;
     AIDetector.high_freq_energy := AIDetector.high_freq_energy fv;
     AIDetector.high_freq_ratio := AIDetector.high_freq_ratio fv;
     AIDetector.periodicity_score := AIDetector.periodicity_score fv |}.

(** The product of the entries [n + j] and [n] of [c], and the square of
    the entry [n]; 0 where an entry does not exist. *)
Definition lag_product (c : list Q) (j n : nat) : Q :=
  match c !! (n + j)%nat, c !! n with
  | Some x, Some y => x * y
  | _, _ => 0
  end.

Definition square_at (c : list Q) (n : nat) : Q :=
  match c !! n with
  | Some x => x * x
  | None => 0
  end.

(** The full stop, and the strings that do not contain it. *)
Definition dot : Ascii.ascii := Ascii.ascii_of_nat 46.

Definition dotless (s : string) : Prop := dot ∉ String.list_ascii_of_string s.


(** ** Sample inputs *)

Definition example_curve : list Q := [5; 3; 4; 1; 2; 6; 7; 8; 9; 10; 0; 11].

(** Silent spectrograms (every entry at the -100 dB floor, two frames):
    5 bins put 2 of them inside the default band, 33 bins put 12 and
    27 bins put 10. *)
Definition short_silence : list (list Q) := replicate 5 [-100; -100].
Definition long_silence : list (list Q) := replicate 33 [-100; -100].
Definition ten_bin_silence : list (list Q) := replicate 27 [-100; -100].

Definition sample_fakeprint : list Q := [0.2; 1; 0.4; 0.05].

(** A stand-in unpickler that accepts one byte string only, and a model
    store whose only file does not hold it. *)
Definition toy_unpickle (b : string) : outcome nat :=
  if String.eqb b "weights" then Ok 1%nat else Raise UnpicklingError.

Definition corrupt_store : gmap string string :=
  {[ "models/detector.pkl"%string := "garbage"%string ]}.

(** A stand-in analysis that fails to decode one byte string, and two
    batches: three audio files the second of which is corrupt, and an audio
    file followed by a text file. *)
Definition toy_analyse (b : string) : outcome nat :=
  if String.eqb b "corrupt" then Raise (DecodeError "could not decode audio")
  else Ok (String.length b).

Definition batch_of_three : list (App.FileStorage string) :=
  [App.mkFile "a.mp3" "riff"; App.mkFile "b.wav" "corrupt"; App.mkFile "c.FLAC" "chorus"]%string.

Definition batch_with_text : list (App.FileStorage string) :=
  [App.mkFile "song.mp3" "riff"; App.mkFile "notes.txt" "words"]%string.

(** A 33-bin frequency grid up to the Nyquist frequency of the default
    analyzer and a rising curve over it. *)
Definition sample_freqs : list Q := np_linspace 0 8000 33.
Definition sample_curve : list Q := (λ i : nat, -60 + Qn i) <$> seq 0 33.

(** Descriptors of a moderately peaked fakeprint. *)
Definition sample_features : AIDetector.FeatureVector :=
  {| AIDetector.peak_count_high := 8;
     AIDetector.peak_count_medium := 60;
     AIDetector.peak_count_low := 90;
     AIDetector.peak_density_high := 0.01;
     AIDetector.peak_density_medium := 0.06;
     AIDetector.peak_density_low := 0.09;
     AIDetector.peak_regularity_score := 0.4;
     AIDetector.peak_spacing_variance := 3;
     AIDetector.peak_spacing_cv := 0.6;
     AIDetector.fakeprint_mean := 0.08;
     AIDetector.fakeprint_max := 0.9;
     AIDetector.fakeprint_std := 0.1;
     AIDetector.fakeprint_p75 := 0.1;
     AIDetector.fakeprint_p90 := 0.2;
     AIDetector.fakeprint_kurtosis := 7;
     AIDetector.high_freq_energy := 0.00002;
     AIDetector.high_freq_ratio := 0.001;
     AIDetector.periodicity_score := 0.35 |}.

(** A stand-in pickler for models that are booleans. *)
Definition toy_dump (m : bool) : string := if m then "T" else "F".
Definition toy_load (b : string) : outcome bool :=
  if String.eqb b "T" then Ok true
  else if String.eqb b "F" then Ok false
  else Raise UnpicklingError.

(** An analyzer with a 64-point FFT, whose spectrograms have 33 bins. *)
Definition coarse_analyzer : AudioAnalyzer.t :=
  {| AudioAnalyzer.sr := 16000; AudioAnalyzer.n_fft := 64;
     AudioAnalyzer.fmin := 5000; AudioAnalyzer.fmax := 16000 |}.

(** A stand-in for librosa in which an audio signal is its own
    spectrogram: one file that decodes to 33 silent bins, a constant model
    that votes AI with probability 3/4, and [predict] over them. *)
Definition toy_librosa_load (path : string) (sr : option Q)
  : outcome (list (list Q) * Q) :=
  if String.eqb path "silence.wav" then Ok (long_silence, default 44100 sr)
  else Raise (DecodeError "could not decode audio").

Definition toy_predict : AIDetector.t bool → string → outcome AIDetector.Prediction :=
  AIDetector.predict (λ q, q) bool (list (list Q)) toy_librosa_load
    (λ _ _, 2) (λ _, Ok 100000%Z) Q (λ _ _, Raise ValueError) (λ t, Ok t)
    (λ y _, Ok (take 12 y))
    (λ beats _, Qn <$> beats) (λ _ _, Ok [1000]) (λ _, Ok [0.1]) (λ _ _, Ok [2000])
    (λ _ _ _, -100) (λ y, y) (λ _ _, Ok [500]) (λ _, Ok [0.05]) (λ y _, y)
    (λ m _, if m then 1%Z else 0%Z) (λ m _, if m then (0.25, 0.75) else (0.75, 0.25)).

(** * Properties *)

(** ** Comparisons and the error monad *)

Lemma Qltb_lt (a b : Q) : Qltb a b = true ↔ a < b.
Proof.
  unfold Qltb. rewrite negb_true_iff, <- not_true_iff_false, Qle_bool_iff.
  split; [apply Qnot_le_lt | apply Qlt_not_le].
Qed.

Lemma Qltb_ge (a b : Q) : Qltb a b = false ↔ b <= a.
Proof.
  unfold Qltb. rewrite negb_false_iff, Qle_bool_iff. reflexivity.
Qed.

Lemma bind_Ok {A B} (c : outcome A) (k : A → outcome B) (a : A) :
  c = Ok a → c ≫= k = k a.
Proof. intros ->. reflexivity. Qed.

Lemma Ok_neq_Raise {A} (a : A) (e : exn) : Ok a = Raise e → False.
Proof. discriminate. Qed.

Lemma getitem_Ok {A} (l : list A) (i : nat) (a : A) :
  l !! i = Some a → getitem l i = Ok a.
Proof. unfold getitem. intros ->. reflexivity. Qed.

Lemma getitem_last_Ok {A} (l : list A) (a : A) :
  last l = Some a → getitem_last l = Ok a.
Proof. unfold getitem_last. intros ->. reflexivity. Qed.

(** ** The lower hull *)

Section LowerHull.

Local Open Scope nat_scope.

Lemma argmin_from_spec (l p : list Q) (best : nat) (bv : Q) :
  p !! best = Some bv →
  (∀ j v, p !! j = Some v → (bv <= v)%Q) →
  (∀ j v, j < best → p !! j = Some v → (bv < v)%Q) →
  first_min (p ++ l) (argmin_from best bv (length p) l).
Proof.
  revert p best bv. induction l as [|v l IH]; intros p best bv Hb Hle Hlt; simpl.
  - rewrite app_nil_r. exists bv. auto.
  - assert (Hlen : length (p ++ [v]) = S (length p))
      by (rewrite length_app; simpl; lia).
    replace (p ++ v :: l) with ((p ++ [v]) ++ l) by (rewrite <- app_assoc; reflexivity).
    rewrite <- Hlen.
    destruct (Qltb v bv) eqn:Hc.
    + apply Qltb_lt in Hc. apply IH.
      * apply list_lookup_middle. reflexivity.
      * intros j w Hj. apply lookup_app_Some in Hj as [Hj | [_ Hj]].
        -- apply Qlt_le_weak. eapply Qlt_le_trans; [exact Hc | eauto].
        -- apply list_lookup_singleton_Some in Hj as [_ <-]. apply Qle_refl.
      * intros j w Hjl Hj.
        rewrite lookup_app_l in Hj by lia.
        eapply Qlt_le_trans; [exact Hc | eauto].
    + apply Qltb_ge in Hc. apply IH.
      * apply lookup_app_l_Some. exact Hb.
      * intros j w Hj. apply lookup_app_Some in Hj as [Hj | [_ Hj]]; [eauto |].
        apply list_lookup_singleton_Some in Hj as [_ <-]. exact Hc.
      * intros j w Hjl Hj.
        assert (best < length p) by (eapply lookup_lt_Some; eauto).
        rewrite lookup_app_l in Hj by lia. eauto.
Qed.

Lemma np_argmin_spec (a : list Q) :
  a ≠ [] → ∃ r, np_argmin a = Ok r ∧ first_min a r.
Proof.
  destruct a as [|v l]; [congruence | intros _].
  exists (argmin_from 0 v 1 l). split; [reflexivity |].
  apply (argmin_from_spec l [v] 0 v).
  - reflexivity.
  - intros j w Hj. apply list_lookup_singleton_Some in Hj as [_ <-]. apply Qle_refl.
  - intros j w Hj. lia.
Qed.

Lemma slice_lookup (x : list Q) (i area j : nat) :
  slice x i (i + area) !! j = if decide (j < area) then x !! (i + j) else None.
Proof.
  unfold slice. replace (i + area - i) with area by lia.
  case_decide.
  - rewrite lookup_take_lt by lia. apply lookup_drop.
  - apply lookup_take_ge. lia.
Qed.

Lemma slice_length (x : list Q) (i area : nat) :
  i + area ≤ length x → length (slice x i (i + area)) = area.
Proof.
  intros H. unfold slice. rewrite length_take, length_drop. lia.
Qed.

Lemma window_argmin (x : list Q) (area i : nat) :
  1 ≤ area → i + area ≤ length x →
  ∃ r v, np_argmin (slice x i (i + area)) = Ok r
         ∧ slice x i (i + area) !! r = Some v
         ∧ x !! (r + i) = Some v
         ∧ win_min x area i (r + i).
Proof.
  intros Ha Hi.
  destruct (np_argmin_spec (slice x i (i + area))) as (r & Hr & rv & Hrv & Hle & Hlt).
  { intros E. apply (f_equal length) in E. rewrite slice_length in E by lia.
    simpl in E. lia. }
  exists r, rv. split; [exact Hr | split; [exact Hrv |]].
  pose proof Hrv as Hrv'. rewrite slice_lookup in Hrv'.
  case_decide as Hra; [| discriminate].
  replace (i + r) with (r + i) in Hrv' by lia.
  split; [exact Hrv' |]. split; [lia |].
  exists rv. split; [exact Hrv' | split].
  - intros j v Hj Hv. apply (Hle (j - i)). rewrite slice_lookup.
    rewrite decide_True by lia. replace (i + (j - i)) with j by lia. exact Hv.
  - intros j v Hj Hv. apply (Hlt (j - i)); [lia |]. rewrite slice_lookup.
    rewrite decide_True by lia. replace (i + (j - i)) with j by lia. exact Hv.
Qed.

(** The first minimum of a window never lies before the one of the
    preceding window. *)
Lemma win_min_mono (x : list Q) (area i q q' : nat) :
  win_min x area i q → win_min x area (S i) q' → q ≤ q'.
Proof.
  intros (Hq & qv & Hqv & Hle & Hlt) (Hq' & qv' & Hqv' & Hle' & Hlt').
  destruct (decide (q ≤ q')) as [|Hn]; [assumption | exfalso].
  assert (H1 : (qv < qv')%Q) by (apply (Hlt q'); [lia | exact Hqv']).
  assert (H2 : (qv' <= qv)%Q) by (apply (Hle' q); [lia | exact Hqv]).
  exact (Qlt_not_le _ _ H1 H2).
Qed.

Lemma sorted_le_last (l : list nat) (y z : nat) :
  StronglySorted lt l → y ∈ l → last l = Some z → y ≤ z.
Proof.
  intros Hs Hy Hz. destruct (decide (y = z)) as [->|Hne]; [lia |].
  apply last_Some in Hz as [l' ->].
  apply elem_of_app in Hy as [Hy | Hy].
  - apply Nat.lt_le_incl. eapply (StronglySorted_app_1_elem_of lt); eauto.
    apply list_elem_of_singleton. reflexivity.
  - apply list_elem_of_singleton in Hy. congruence.
Qed.

Lemma sorted_snoc (l : list nat) (q : nat) :
  StronglySorted lt l → (∀ y, y ∈ l → y < q) → StronglySorted lt (l ++ [q]).
Proof.
  intros Hs Hq. apply StronglySorted_app_2; [| exact Hs | repeat constructor].
  intros y z Hy Hz. apply list_elem_of_singleton in Hz as ->. auto.
Qed.

Lemma hull_step_inv (x : list Q) (area k : nat) (st : list nat * list Q) :
  1 ≤ area → k + area ≤ length x → hull_inv x area k st →
  ∃ st', AudioAnalyzer.hull_step x area st k = Ok st' ∧ hull_inv x area (S k) st'.
Proof.
  intros Ha Hk (Hval & Hs & Hk').
  destruct st as [idx hull]; simpl in *.
  destruct (window_argmin x area k Ha Hk) as (r & v & Hr & Hpv & Hxv & Hwin).
  unfold AudioAnalyzer.hull_step. rewrite (bind_Ok _ _ _ Hr).
  case_decide as Hin.
  - exists (idx, hull). split; [reflexivity |].
    split; [exact Hval | split; [exact Hs |]]; simpl.
    destruct k as [|k']; [subst idx; inversion Hin |].
    destruct Hk' as (q0 & q & Hq0 & Hq & Hhd & Hla).
    exists q0, (r + S k'). refine (conj Hq0 (conj Hwin (conj Hhd _))).
    pose proof (win_min_mono _ _ _ _ _ Hq Hwin).
    pose proof (sorted_le_last _ _ _ Hs Hin Hla).
    rewrite Hla. f_equal. lia.
  - rewrite (bind_Ok _ _ _ (getitem_Ok _ _ _ Hpv)).
    exists (idx ++ [r + k], hull ++ [v]). split; [reflexivity |].
    split; [| split]; simpl.
    + apply Forall2_app; [exact Hval | repeat constructor; exact Hxv].
    + apply sorted_snoc; [exact Hs |]. intros y Hy.
      destruct k as [|k']; [subst idx; inversion Hy |].
      destruct Hk' as (q0 & q & Hq0 & Hq & Hhd & Hla).
      pose proof (win_min_mono _ _ _ _ _ Hq Hwin).
      pose proof (sorted_le_last _ _ _ Hs Hy Hla).
      assert (y ≠ r + S k') by (intros ->; contradiction).
      lia.
    + destruct k as [|k'].
      * subst idx. exists (r + 0), (r + 0). auto.
      * destruct Hk' as (q0 & q & Hq0 & Hq & Hhd & Hla).
        exists q0, (r + S k'). refine (conj Hq0 (conj Hwin (conj _ _))).
        -- rewrite head_app, Hhd. reflexivity.
        -- apply last_snoc.
Qed.

Lemma hull_scan_inv (x : list Q) (area m k : nat) (st : list nat * list Q) :
  1 ≤ area → k + m + area ≤ length x + 1 → hull_inv x area k st →
  ∃ st', AudioAnalyzer.hull_scan x area st (seq k m) = Ok st'
         ∧ hull_inv x area (k + m) st'.
Proof.
  intros Ha. revert k st. induction m as [|m IH]; intros k st Hk Hinv; simpl.
  - exists st. rewrite Nat.add_0_r. auto.
  - destruct (hull_step_inv x area k st Ha ltac:(lia) Hinv) as (st1 & Hst1 & Hinv1).
    rewrite (bind_Ok _ _ _ Hst1).
    destruct (IH (S k) st1 ltac:(lia) Hinv1) as (st' & Hst' & Hinv').
    exists st'. split; [exact Hst' |].
    replace (k + S m) with (S k + m) by lia. exact Hinv'.
Qed.

(** The contract of [lower_hull] on a curve that holds at least one full
    window. *)
Lemma lower_hull_spec (x : list Q) (area : nat) :
  1 ≤ area → area ≤ length x →
  ∃ idx hull, AudioAnalyzer.lower_hull x area = Ok (idx, hull)
              ∧ StronglySorted lt idx
              ∧ head idx = Some 0
              ∧ last idx = Some (length x - 1)
              ∧ Forall2 (λ j v, x !! j = Some v) idx hull.
Proof.
  intros Ha Hn.
  destruct (hull_scan_inv x area (length x + 1 - area) 0 ([], [])) as
    ([idx hull] & Hscan & Hval & Hs & Hk); [lia | lia | |].
  { split; [constructor | split; [constructor | reflexivity]]. }
  simpl in Hval, Hs, Hk.
  destruct (length x + 1 - area) as [|k'] eqn:Hcount; [lia |]. simpl in Hk.
  destruct Hk as (q0 & q & Hq0 & Hq & Hhd & Hla).
  unfold AudioAnalyzer.lower_hull, AudioAnalyzer.window_starts.
  rewrite Hcount, (bind_Ok _ _ _ Hscan). simpl.
  rewrite head_lookup in Hhd. rewrite (bind_Ok _ _ _ (getitem_Ok _ _ _ Hhd)).
  destruct x as [|x0 xs] eqn:Hx; [simpl in Hn; lia |]. rewrite <- Hx in *.
  assert (Hx0 : x !! 0 = Some x0) by (rewrite Hx; reflexivity).
  destruct (last x) as [xl|] eqn:Hxl; [| rewrite Hx in Hxl; apply last_None in Hxl; discriminate].
  assert (Hxl' : x !! (length x - 1) = Some xl).
  { rewrite last_lookup in Hxl. replace (length x - 1) with (pred (length x)) by lia. exact Hxl. }
  assert (Hqb : q ≤ length x - 1) by (destruct Hq as [? _]; lia).
  (* the state after the first anchor *)
  assert (∃ idx1 hull1,
    (if decide (q0 ≠ 0) then x0' ← getitem x 0; Ok (0 :: idx, x0' :: hull)
     else Ok (idx, hull)) = Ok (idx1, hull1)
    ∧ StronglySorted lt idx1 ∧ head idx1 = Some 0 ∧ last idx1 = Some q
    ∧ Forall2 (λ j v, x !! j = Some v) idx1 hull1) as (idx1 & hull1 & -> & Hs1 & Hhd1 & Hla1 & Hval1).
  { case_decide as H0.
    - rewrite (bind_Ok _ _ _ (getitem_Ok _ _ _ Hx0)).
      exists (0 :: idx), (x0 :: hull). split; [reflexivity |].
      split; [| split; [reflexivity | split]].
      + constructor; [exact Hs |]. apply Forall_forall. intros y Hy.
        destruct idx as [|i0 idx']; [inversion Hy |]. simpl in Hhd. simplify_eq.
        apply elem_of_cons in Hy as [-> | Hy]; [lia |].
        apply StronglySorted_inv in Hs as [_ Hall].
        rewrite Forall_forall in Hall. specialize (Hall _ Hy). lia.
      + destruct idx; [discriminate |]. rewrite last_cons_cons. exact Hla.
      + constructor; assumption.
    - exists idx, hull. split; [reflexivity |].
      assert (q0 = 0) by lia. subst q0.
      rewrite head_lookup. auto. }
  simpl. rewrite (bind_Ok _ _ _ (getitem_last_Ok _ _ Hla1)).
  case_decide as Hl.
  - rewrite (bind_Ok _ _ _ (getitem_last_Ok _ _ Hxl)).
    exists (idx1 ++ [length x - 1]), (hull1 ++ [xl]). split; [reflexivity |].
    split; [| split; [| split]].
    + apply sorted_snoc; [exact Hs1 |]. intros y Hy.
      pose proof (sorted_le_last _ _ _ Hs1 Hy Hla1). lia.
    + rewrite head_app, Hhd1. reflexivity.
    + apply last_snoc.
    + apply Forall2_app; [exact Hval1 | repeat constructor; exact Hxl'].
  - exists idx1, hull1. split; [reflexivity |].
    assert (q = length x - 1) by lia. subst q. auto.
Qed.

End LowerHull.

Lemma lower_hull_short (x : list Q) (area : nat) :
  (length x < area)%nat → AudioAnalyzer.lower_hull x area = Raise IndexError.
Proof.
  intros H. unfold AudioAnalyzer.lower_hull, AudioAnalyzer.window_starts.
  replace (length x + 1 - area)%nat with 0%nat by lia. reflexivity.
Qed.

(** The members of the index list. *)

Lemma win_min_unique (x : list Q) (area i q q' : nat) :
  win_min x area i q → win_min x area i q' → q = q'.
Proof.
  intros (Hq & qv & Hqv & Hle & Hlt) (Hq' & qv' & Hqv' & Hle' & Hlt').
  destruct (Nat.lt_trichotomy q q') as [H | [H | H]]; [exfalso | exact H | exfalso].
  - assert (H1 : qv' < qv) by (apply (Hlt' q); [lia | exact Hqv]).
    assert (H2 : qv <= qv') by (apply (Hle q'); [lia | exact Hqv']).
    exact (Qlt_not_le _ _ H1 H2).
  - assert (H1 : qv < qv') by (apply (Hlt q'); [lia | exact Hqv']).
    assert (H2 : qv' <= qv) by (apply (Hle' q); [lia | exact Hqv]).
    exact (Qlt_not_le _ _ H1 H2).
Qed.

Lemma hull_step_members (x : list Q) (area k : nat) (st st' : list nat * list Q) :
  (1 ≤ area)%nat → (k + area ≤ length x)%nat →
  AudioAnalyzer.hull_step x area st k = Ok st' →
  ∀ j, j ∈ st'.1 ↔ j ∈ st.1 ∨ win_min x area k j.
Proof.
  intros Ha Hk Hstep. destruct st as [idx hull].
  destruct (window_argmin x area k Ha Hk) as (r & v & Hr & Hpv & Hxv & Hwin).
  unfold AudioAnalyzer.hull_step in Hstep. rewrite (bind_Ok _ _ _ Hr) in Hstep.
  case_decide as Hin.
  - injection Hstep as <-. simpl. intros j. split; [auto |].
    intros [H | H]; [exact H |]. rewrite (win_min_unique _ _ _ _ _ H Hwin). exact Hin.
  - rewrite (bind_Ok _ _ _ (getitem_Ok _ _ _ Hpv)) in Hstep. injection Hstep as <-.
    simpl. intros j. rewrite elem_of_app, list_elem_of_singleton. split.
    + intros [H | ->]; [left; exact H | right; exact Hwin].
    + intros [H | H]; [left; exact H | right; exact (win_min_unique _ _ _ _ _ H Hwin)].
Qed.

Lemma hull_scan_members (x : list Q) (area m k : nat) (st st' : list nat * list Q) :
  (1 ≤ area)%nat → (k + m + area ≤ length x + 1)%nat →
  AudioAnalyzer.hull_scan x area st (seq k m) = Ok st' →
  ∀ j, j ∈ st'.1 ↔ j ∈ st.1 ∨ ∃ i, (k ≤ i < k + m)%nat ∧ win_min x area i j.
Proof.
  intros Ha. revert k st. induction m as [|m IH]; intros k st Hk Hscan j; simpl in Hscan.
  - injection Hscan as <-. split; [auto |]. intros [H | (i & Hi & _)]; [exact H | lia].
  - destruct (AudioAnalyzer.hull_step x area st k) as [st1|] eqn:Hstep; [| discriminate].
    simpl in Hscan. change (AudioAnalyzer.hull_scan x area st1 (seq (S k) m) = Ok st') in Hscan.
    rewrite (IH (S k) st1 ltac:(lia) Hscan j).
    rewrite (hull_step_members x area k st st1 Ha ltac:(lia) Hstep j).
    split.
    + intros [[H | H] | (i & Hi & H)]; [left; exact H | right; exists k | right; exists i];
        (split; [lia | exact H]).
    + intros [H | (i & Hi & H)]; [left; left; exact H |].
      destruct (decide (i = k)) as [-> | Hne]; [left; right; exact H |].
      right. exists i. split; [lia | exact H].
Qed.

Lemma lower_hull_unfold (x : list Q) (area : nat) (idx : list nat) (hull : list Q)
    (q0 q : nat) :
  AudioAnalyzer.hull_scan x area ([], []) (AudioAnalyzer.window_starts x area) = Ok (idx, hull) →
  head idx = Some q0 → last idx = Some q → x ≠ [] →
  ∃ hull', AudioAnalyzer.lower_hull x area
           = Ok ((if decide (q0 ≠ 0%nat) then [0%nat] else []) ++ idx
                 ++ (if decide (q ≠ (length x - 1)%nat) then [(length x - 1)%nat] else []),
                 hull').
Proof.
  intros Hscan Hhd Hla Hx.
  unfold AudioAnalyzer.lower_hull. rewrite (bind_Ok _ _ _ Hscan). simpl.
  rewrite head_lookup in Hhd. rewrite (bind_Ok _ _ _ (getitem_Ok _ _ _ Hhd)).
  destruct x as [|x0 xs] eqn:Ex; [congruence |]. rewrite <- Ex in *.
  assert (Hx0 : getitem x 0 = Ok x0) by (rewrite Ex; reflexivity).
  destruct (last x) as [xl|] eqn:Hxl; [| rewrite Ex in Hxl; apply last_None in Hxl; discriminate].
  pose proof (getitem_last_Ok _ _ Hxl) as Hgl.
  assert (Hla0 : last (0%nat :: idx) = Some q).
  { destruct idx; [discriminate |]. rewrite last_cons_cons. exact Hla. }
  destruct (decide (q0 ≠ 0%nat)); simpl.
  - rewrite (bind_Ok _ _ _ Hx0). simpl.
    rewrite (bind_Ok _ _ _ (getitem_last_Ok _ _ Hla0)).
    destruct (decide (q ≠ (length x - 1)%nat)).
    + rewrite (bind_Ok _ _ _ Hgl). eexists. reflexivity.
    + eexists. rewrite app_nil_r. reflexivity.
  - rewrite (bind_Ok _ _ _ (getitem_last_Ok _ _ Hla)).
    destruct (decide (q ≠ (length x - 1)%nat)).
    + rewrite (bind_Ok _ _ _ Hgl). eexists. reflexivity.
    + eexists. rewrite app_nil_r. reflexivity.
Qed.

Lemma lower_hull_members (x : list Q) (area : nat) :
  (1 ≤ area)%nat → (area ≤ length x)%nat →
  ∃ idx hull, AudioAnalyzer.lower_hull x area = Ok (idx, hull)
              ∧ ∀ j, j ∈ idx ↔ (j = 0%nat ∨ j = (length x - 1)%nat
                                 ∨ ∃ i, (i + area ≤ length x)%nat ∧ win_min x area i j).
Proof.
  intros Ha Hn.
  destruct (hull_scan_inv x area (length x + 1 - area) 0 ([], [])) as
    ([idx hull] & Hscan & _ & _ & Hk); [lia | lia | |].
  { split; [constructor | split; [constructor | reflexivity]]. }
  pose proof (hull_scan_members x area (length x + 1 - area) 0 _ _ Ha ltac:(lia) Hscan) as Hmem.
  simpl in Hmem, Hk.
  destruct (length x + 1 - area)%nat as [|k'] eqn:Hcount; [lia |]. simpl in Hk.
  destruct Hk as (q0 & q & Hq0 & Hq & Hhd & Hla).
  destruct (lower_hull_unfold x area idx hull q0 q) as [hull' Hl];
    [unfold AudioAnalyzer.window_starts; rewrite Hcount; exact Hscan
    | exact Hhd | exact Hla | intros ->; simpl in Hn; lia |].
  eexists _, hull'. split; [exact Hl |].
  intros j. rewrite !elem_of_app, Hmem.
  assert (H0 : q0 = 0%nat → 0%nat ∈ idx) by (intros <-; apply head_Some_elem_of, Hhd).
  assert (Hl' : q = (length x - 1)%nat → (length x - 1)%nat ∈ idx)
    by (intros <-; apply last_Some_elem_of, Hla).
  rewrite Hmem in H0, Hl'.
  split.
  - intros [H | [[H | (i & Hi & H)] | H]].
    + destruct (decide (q0 ≠ 0%nat)); [| inversion H].
      apply list_elem_of_singleton in H. auto.
    + inversion H.
    + right. right. exists i. split; [lia | exact H].
    + destruct (decide (q ≠ (length x - 1)%nat)); [| inversion H].
      apply list_elem_of_singleton in H. auto.
  - intros [-> | [-> | (i & Hi & H)]].
    + destruct (decide (q0 ≠ 0%nat)) as [|E]; [left; apply list_elem_of_singleton; reflexivity |].
      right. left. apply H0. lia.
    + destruct (decide (q ≠ (length x - 1)%nat)) as [|E];
        [right; right; apply list_elem_of_singleton; reflexivity |].
      right. left. apply Hl'. lia.
    + right. left. right. exists i. split; [lia | exact H].
Qed.

(** C4.  On a curve of at least AREA = 10 points [lower_hull] returns, and
    the indices it returns are strictly increasing, start at 0 and end at
    the last index of the curve (so both anchors are members). *)
Theorem lower_hull_indices (x : list Q) :
  (10 ≤ length x)%nat →
  ∃ idx hull, AudioAnalyzer.lower_hull x 10 = Ok (idx, hull)
              ∧ StronglySorted lt idx
              ∧ 0%nat ∈ idx ∧ (length x - 1)%nat ∈ idx
              ∧ head idx = Some 0%nat ∧ last idx = Some (length x - 1)%nat.
Proof.
  intros Hn.
  destruct (lower_hull_spec x 10 ltac:(lia) Hn) as (idx & hull & Hr & Hs & Hhd & Hla & _).
  exists idx, hull. repeat split; try assumption.
  - apply head_Some_elem_of. exact Hhd.
  - apply last_Some_elem_of. exact Hla.
Qed.

Lemma lower_hull_indices_witness :
  (10 ≤ length example_curve)%nat
  ∧ ∃ idx hull, AudioAnalyzer.lower_hull example_curve 10 = Ok (idx, hull)
                ∧ StronglySorted lt idx
                ∧ 0%nat ∈ idx ∧ (length example_curve - 1)%nat ∈ idx
                ∧ head idx = Some 0%nat ∧ last idx = Some (length example_curve - 1)%nat.
Proof.
  split; [simpl; lia | apply (lower_hull_indices example_curve); simpl; lia].
Defined.

(** C10.  On a curve of at least AREA = 10 points every pair returned by
    [lower_hull] is a sample of the curve: the k-th value is the curve at
    the k-th index, the two forced anchors included. *)
Theorem lower_hull_values (x : list Q) :
  (10 ≤ length x)%nat →
  ∃ idx hull, AudioAnalyzer.lower_hull x 10 = Ok (idx, hull)
              ∧ length hull = length idx
              ∧ ∀ k j v, idx !! k = Some j → hull !! k = Some v → x !! j = Some v.
Proof.
  intros Hn.
  destruct (lower_hull_spec x 10 ltac:(lia) Hn) as (idx & hull & Hr & _ & _ & _ & Hval).
  exists idx, hull. split; [exact Hr | split].
  - symmetry. eapply Forall2_length. exact Hval.
  - intros k j v Hj Hv. exact (Forall2_lookup_lr _ _ _ _ _ _ Hval Hj Hv).
Qed.

Lemma lower_hull_values_witness :
  (10 ≤ length example_curve)%nat
  ∧ ∃ idx hull, AudioAnalyzer.lower_hull example_curve 10 = Ok (idx, hull)
                ∧ length hull = length idx
                ∧ ∀ k j v, idx !! k = Some j → hull !! k = Some v
                           → example_curve !! j = Some v.
Proof.
  split; [simpl; lia | apply (lower_hull_values example_curve); simpl; lia].
Defined.

Example lower_hull_example :
  AudioAnalyzer.lower_hull example_curve 10 = Ok ([0; 3; 10; 11]%nat, [5; 1; 0; 11]).
Proof. vm_compute. reflexivity. Qed.

(** ** Max-normalisation *)

Ltac q_minmax :=
  repeat match goal with
  | |- context [Qmax ?a ?b] =>
      let H := fresh "Hmax" in let m := fresh "m" in
      destruct (Q.max_spec a b) as [[? H]|[? H]]; set (m := Qmax a b) in *; clearbody m
  | |- context [Qmin ?a ?b] =>
      let H := fresh "Hmin" in let m := fresh "m" in
      destruct (Q.min_spec a b) as [[? H]|[? H]]; set (m := Qmin a b) in *; clearbody m
  | H0 : context [Qmax ?a ?b] |- _ =>
      let H := fresh "Hmax" in let m := fresh "m" in
      destruct (Q.max_spec a b) as [[? H]|[? H]]; set (m := Qmax a b) in *; clearbody m
  | H0 : context [Qmin ?a ?b] |- _ =>
      let H := fresh "Hmin" in let m := fresh "m" in
      destruct (Q.min_spec a b) as [[? H]|[? H]]; set (m := Qmin a b) in *; clearbody m
  end.

Lemma np_clip_bounds (lo hi v : Q) :
  lo <= hi → lo <= np_clip lo hi v ∧ np_clip lo hi v <= hi.
Proof. intros H. unfold np_clip. q_minmax; lra. Qed.

Lemma np_clip_nonpos (hi v : Q) : 0 <= hi → v <= 0 → np_clip 0 hi v == 0.
Proof. intros Hh Hv. unfold np_clip. q_minmax; lra. Qed.

Lemma np_clip_pos (hi v : Q) : 0 < hi → 0 < v → 0 < np_clip 0 hi v.
Proof. intros Hh Hv. unfold np_clip. q_minmax; lra. Qed.

Lemma foldl_Qmax_spec (l : list Q) (v : Q) :
  v <= foldl Qmax v l
  ∧ Forall (λ w, w <= foldl Qmax v l) l
  ∧ (foldl Qmax v l == v ∨ Exists (λ w, w == foldl Qmax v l) l).
Proof.
  revert v. induction l as [|w l IH]; intros v; simpl.
  - split; [apply Qle_refl | split; [constructor | left; reflexivity]].
  - destruct (IH (Qmax v w)) as (H1 & H2 & H3).
    set (M := foldl Qmax (Qmax v w) l) in *. clearbody M.
    assert (Hv : v <= Qmax v w) by apply Q.le_max_l.
    assert (Hw : w <= Qmax v w) by apply Q.le_max_r.
    split; [lra | split; [constructor; [lra | exact H2] |]].
    destruct H3 as [H3 | H3]; [| right; right; exact H3].
    destruct (Q.max_spec v w) as [[_ E] | [_ E]]; rewrite E in H3.
    + right. left. symmetry. exact H3.
    + left. exact H3.
Qed.

Lemma np_max_is_max (a : list Q) (M : Q) : np_max a = Ok M → is_max a M.
Proof.
  destruct a as [|v l]; [discriminate | intros [= <-]].
  destruct (foldl_Qmax_spec l v) as (H1 & H2 & H3). split.
  - destruct H3 as [H3 | H3].
    + exists v. split; [left | symmetry; exact H3].
    + apply Exists_exists in H3 as (w & Hw & E). exists w. split; [right; exact Hw | exact E].
  - intros w Hw. apply elem_of_cons in Hw as [-> | Hw]; [exact H1 |].
    rewrite Forall_forall in H2. auto.
Qed.

Lemma np_max_nonempty (a : list Q) : a ≠ [] → ∃ M, np_max a = Ok M.
Proof. destruct a; [congruence | eauto]. Qed.

Lemma Qdiv_le_mono (a b d : Q) : 0 < d → a <= b → a / d <= b / d.
Proof.
  intros Hd Hab. unfold Qdiv. apply Qmult_le_compat_r; [exact Hab |].
  apply Qlt_le_weak, Qinv_lt_0_compat, Hd.
Qed.

Lemma Qdiv_eps_lt_1 (m : Q) : 0 <= m → m / (AudioAnalyzer.eps6 + m) < 1.
Proof.
  intros Hm. apply Qlt_shift_div_r; unfold AudioAnalyzer.eps6; lra.
Qed.

(** The contract of [max_normalize] on a non-empty vector. *)
Lemma max_normalize_spec (x : list Q) (max_db : Q) :
  0 < max_db → x ≠ [] →
  ∃ fp m, AudioAnalyzer.max_normalize x max_db = Ok fp
          ∧ length fp = length x
          ∧ np_max (np_clip 0 max_db <$> x) = Ok m
          ∧ 0 <= m ∧ m <= max_db
          ∧ Forall (λ v, 0 <= v ∧ v < 1) fp
          ∧ is_max fp (m / (AudioAnalyzer.eps6 + m))
          ∧ (Forall (λ r, r <= 0) x → Forall (λ v, v == 0) fp)
          ∧ (Exists (λ r, 0 < r) x → 0 < m / (AudioAnalyzer.eps6 + m)).
Proof.
  intros Hdb Hx.
  set (c := np_clip 0 max_db <$> x).
  destruct (np_max_nonempty c) as [m Hm].
  { subst c. destruct x; [congruence | discriminate]. }
  pose proof (np_max_is_max _ _ Hm) as [(w & Hw & Hwm) Hle].
  assert (Hc : ∀ v, v ∈ c → 0 <= v ∧ v <= max_db).
  { intros v Hv. apply list_elem_of_fmap in Hv as (r & -> & _).
    apply np_clip_bounds. lra. }
  assert (Hm0 : 0 <= m ∧ m <= max_db) by (rewrite <- Hwm; auto).
  assert (Hd : 0 < AudioAnalyzer.eps6 + m) by (unfold AudioAnalyzer.eps6; lra).
  exists ((λ v, v / (AudioAnalyzer.eps6 + m)) <$> c), m.
  split; [unfold AudioAnalyzer.max_normalize; fold c; rewrite (bind_Ok _ _ _ Hm); reflexivity |].
  split; [subst c; rewrite !length_fmap; reflexivity |].
  split; [exact Hm |]. split; [tauto |]. split; [tauto |].
  split; [| split; [| split]].
  - apply Forall_fmap, Forall_forall. intros v Hv. simpl.
    destruct (Hc v Hv) as [Hv0 _]. specialize (Hle v Hv). split.
    + apply Qle_shift_div_l; [exact Hd | lra].
    + eapply Qle_lt_trans; [apply Qdiv_le_mono; [exact Hd | exact Hle] |].
      apply Qdiv_eps_lt_1. tauto.
  - split.
    + exists (w / (AudioAnalyzer.eps6 + m)). split.
      * apply list_elem_of_fmap. exists w. auto.
      * rewrite Hwm. reflexivity.
    + intros v Hv. apply list_elem_of_fmap in Hv as (u & -> & Hu).
      apply Qdiv_le_mono; [exact Hd | auto].
  - intros Hall. apply Forall_fmap, Forall_fmap, Forall_forall. intros r Hr. simpl.
    rewrite Forall_forall in Hall.
    rewrite (np_clip_nonpos max_db r) by (try apply Hall; try lra; assumption).
    unfold Qdiv. ring.
  - intros Hex. apply Exists_exists in Hex as (r & Hr & Hpos).
    assert (0 < m).
    { eapply Qlt_le_trans; [apply (np_clip_pos max_db r); assumption |].
      apply Hle. apply list_elem_of_fmap. exists r. auto. }
    apply Qlt_shift_div_l; [exact Hd | lra].
Qed.

(** C1 (as amended).  For a non-empty residual vector the fakeprint exists,
    every element lies in [0,1) and so in [0,1]; its largest element is
    m / (m + 1e-6), with m the largest residual after clipping to [0,5],
    which is strictly below 1; and when no residual is positive every
    element is 0. *)
Theorem fakeprint_range (x : list Q) :
  x ≠ [] →
  ∃ fp m, AudioAnalyzer.max_normalize x 5 = Ok fp
          ∧ np_max (np_clip 0 5 <$> x) = Ok m
          ∧ Forall (λ v, 0 <= v ∧ v <= 1) fp
          ∧ is_max fp (m / (AudioAnalyzer.eps6 + m))
          ∧ m / (AudioAnalyzer.eps6 + m) < 1
          ∧ (Forall (λ r, r <= 0) x → Forall (λ v, v == 0) fp).
Proof.
  intros Hx.
  destruct (max_normalize_spec x 5 ltac:(lra) Hx)
    as (fp & m & Hfp & _ & Hm & Hm0 & _ & Hr & Hmax & Hz & _).
  exists fp, m. repeat split; try assumption.
  - eapply Forall_impl; [exact Hr |]. simpl. intros v [? ?]. split; lra.
  - destruct Hmax as [? _]. assumption.
  - destruct Hmax as [_ ?]. assumption.
  - apply Qdiv_eps_lt_1. exact Hm0.
Qed.

Lemma fakeprint_range_witness :
  [1] ≠ [] ∧
  ∃ fp m, AudioAnalyzer.max_normalize [1] 5 = Ok fp
          ∧ np_max (np_clip 0 5 <$> [1]) = Ok m
          ∧ Forall (λ v, 0 <= v ∧ v <= 1) fp
          ∧ is_max fp (m / (AudioAnalyzer.eps6 + m))
          ∧ m / (AudioAnalyzer.eps6 + m) < 1
          ∧ (Forall (λ r, r <= 0) [1] → Forall (λ v, v == 0) fp).
Proof.
  split; [discriminate | apply (fakeprint_range [1]); discriminate].
Defined.

(** C1 as stated fails: the single residual 1 is not zero, yet the largest
    element of its fakeprint is 1000000/1000001, not 1. *)
Lemma fakeprint_max_not_one :
  ∃ fp M, AudioAnalyzer.max_normalize [1] 5 = Ok fp
          ∧ np_max fp = Ok M
          ∧ ¬ M == 1
          ∧ ¬ Forall (λ r, r == 0) [1].
Proof.
  eexists _, _. split; [vm_compute; reflexivity |].
  split; [vm_compute; reflexivity |]. split.
  - intros H. vm_compute in H. discriminate.
  - intros H. apply Forall_inv in H. vm_compute in H. discriminate.
Qed.

(** ** The fakeprint pipeline on degenerate input *)

Lemma where_from_bound (mask : list bool) (k : nat) :
  Forall (λ i, (k ≤ i < k + length mask)%nat) (where_from k mask).
Proof.
  revert k. induction mask as [|b m IH]; intros k; simpl; [constructor |].
  assert (Forall (λ i, (k ≤ i < k + S (length m))%nat) (where_from (S k) m)).
  { eapply Forall_impl; [apply IH |]. simpl. intros i Hi. lia. }
  destruct b; [constructor; [lia | assumption] | assumption].
Qed.

Lemma where_from_sorted (mask : list bool) (k : nat) :
  StronglySorted lt (where_from k mask).
Proof.
  revert k. induction mask as [|b m IH]; intros k; simpl; [constructor |].
  destruct b; [| apply IH]. constructor; [apply IH |].
  eapply Forall_impl; [apply where_from_bound |]. simpl. intros i Hi. lia.
Qed.

Lemma band_idx_bound (self : AudioAnalyzer.t) (freqs : list Q) :
  Forall (λ i, (i < length freqs)%nat) (AudioAnalyzer.band_idx self freqs).
Proof.
  unfold AudioAnalyzer.band_idx, np_where.
  eapply Forall_impl; [apply where_from_bound |]. simpl.
  intros i Hi. rewrite length_fmap in Hi. lia.
Qed.

Lemma take_idx_Ok {A} (a : list A) (idx : list nat) :
  Forall (λ i, (i < length a)%nat) idx →
  ∃ r, AudioAnalyzer.take_idx a idx = Ok r ∧ Forall2 (λ i v, a !! i = Some v) idx r.
Proof.
  unfold AudioAnalyzer.take_idx.
  induction idx as [|i idx IH]; intros H; simpl.
  - exists []. split; [reflexivity | constructor].
  - apply Forall_cons in H as [Hi H]. destruct (IH H) as (r & Hr & Hall).
    apply lookup_lt_is_Some_2 in Hi as [v Hv].
    exists (v :: r). split; [| constructor; assumption].
    rewrite (bind_Ok _ _ _ (getitem_Ok _ _ _ Hv)), (bind_Ok _ _ _ Hr). reflexivity.
Qed.

Lemma residual_below_floor (min_db : Q) (cs hs : list Q) :
  Forall (λ c, c <= min_db) cs →
  Forall (λ v, v == 0) (clip_lo 0 <$> zip_with Qminus cs (clip_lo min_db <$> hs)).
Proof.
  intros Hc. revert hs. induction Hc as [|c cs Hc _ IH]; intros hs; [constructor |].
  destruct hs as [|h hs]; simpl; [constructor |]. constructor; [| apply IH].
  unfold clip_lo. q_minmax; lra.
Qed.

(** Strictly increasing lists, and the number of knots of the hull. *)

Lemma sorted_lookup_lt (l : list nat) (i j a b : nat) :
  StronglySorted lt l → (i < j)%nat → l !! i = Some a → l !! j = Some b → (a < b)%nat.
Proof.
  intros Hs. revert i j. induction Hs as [|x l Hs IH Hx]; intros i j Hij Hi Hj.
  - discriminate.
  - destruct i as [|i], j as [|j]; try lia; simpl in *.
    + injection Hi as <-. rewrite Forall_forall in Hx. apply Hx.
      eapply list_elem_of_lookup_2. exact Hj.
    + eapply IH; [| exact Hi | exact Hj]. lia.
Qed.

Lemma sorted_NoDup (l : list nat) : StronglySorted lt l → NoDup l.
Proof.
  intros Hs. apply NoDup_alt. intros i j x Hi Hj.
  destruct (Nat.lt_trichotomy i j) as [H | [H | H]]; [exfalso | exact H | exfalso].
  - pose proof (sorted_lookup_lt l i j x x Hs H Hi Hj). lia.
  - pose proof (sorted_lookup_lt l j i x x Hs H Hj Hi). lia.
Qed.

Lemma take_increasing (a r : list Q) (idx : list nat) :
  increasing a → StronglySorted lt idx → Forall2 (λ i v, a !! i = Some v) idx r →
  increasing r.
Proof.
  intros Ha Hs H i j x y Hij Hx Hy.
  destruct (Forall2_lookup_r _ _ _ _ _ H Hx) as (p & Hp & Hpx).
  destruct (Forall2_lookup_r _ _ _ _ _ H Hy) as (q & Hq & Hqy).
  eapply Ha; [| exact Hpx | exact Hqy].
  eapply sorted_lookup_lt; [exact Hs | exact Hij | exact Hp | exact Hq].
Qed.

Lemma increasing_no_duplicates (l : list Q) :
  increasing l → AudioAnalyzer.has_duplicates l = false.
Proof.
  induction l as [|x l IH]; intros H; simpl; [reflexivity |].
  apply orb_false_iff. split.
  - apply not_true_iff_false. intros E.
    apply existsb_exists in E as (y & Hy & Hxy).
    apply Qeq_bool_iff in Hxy. apply list_elem_of_In, list_elem_of_lookup in Hy as [k Hk].
    pose proof (H 0%nat (S k) x y ltac:(lia) eq_refl Hk) as Hlt.
    rewrite Hxy in Hlt. exact (Qlt_irrefl _ Hlt).
  - apply IH. intros i j a b Hij Ha Hb. exact (H (S i) (S j) a b ltac:(lia) Ha Hb).
Qed.

Lemma hull_knots_inner (x : list Q) (idx : list nat) (hull : list Q) (j : nat) :
  AudioAnalyzer.lower_hull x 10 = Ok (idx, hull) → (10 ≤ length x)%nat →
  j ∈ idx → (0 < j < length x - 1)%nat → (3 ≤ length idx)%nat.
Proof.
  intros Hh Hn Hj Hr.
  destruct (lower_hull_members x 10 ltac:(lia) Hn) as (idx' & hull' & Hh' & Hmem).
  rewrite Hh in Hh'. injection Hh' as <- <-.
  assert (Hsub : [0%nat; j; (length x - 1)%nat] ⊆+ idx).
  { apply NoDup_submseteq.
    - repeat constructor; rewrite ?elem_of_cons, ?elem_of_nil; lia.
    - intros k Hk. rewrite !elem_of_cons, elem_of_nil in Hk.
      destruct Hk as [-> | [-> | [-> | []]]]; [apply Hmem; auto | exact Hj | apply Hmem; auto]. }
  apply submseteq_length in Hsub. simpl in Hsub. lia.
Qed.

Lemma hull_knots_ends (x : list Q) (idx : list nat) (hull : list Q) :
  AudioAnalyzer.lower_hull x 10 = Ok (idx, hull) → (10 ≤ length x)%nat →
  (∀ j, j ∈ idx → j = 0%nat ∨ j = (length x - 1)%nat) → (length idx < 3)%nat.
Proof.
  intros Hh Hn Hends.
  destruct (lower_hull_spec x 10 ltac:(lia) Hn) as (idx' & hull' & Hh' & Hs & _).
  rewrite Hh in Hh'. injection Hh' as <- <-.
  assert (Hsub : idx ⊆+ [0%nat; (length x - 1)%nat]).
  { apply NoDup_submseteq; [apply sorted_NoDup, Hs |].
    intros k Hk. rewrite !elem_of_cons. destruct (Hends k Hk); auto. }
  apply submseteq_length in Hsub. simpl in Hsub. lia.
Qed.

Lemma win_min_const (x : list Q) (c : Q) (i : nat) :
  Forall (λ v, v == c) x → (i + 10 ≤ length x)%nat → win_min x 10 i i.
Proof.
  intros Hc Hi. rewrite Forall_lookup in Hc. split; [lia |].
  destruct (lookup_lt_is_Some_2 x i ltac:(lia)) as [qv Hqv].
  exists qv. split; [exact Hqv |]. split.
  - intros j v _ Hv. rewrite (Hc _ _ Hqv), (Hc _ _ Hv). apply Qle_refl.
  - intros j v Hj. lia.
Qed.

(** A flat curve of 10 points has a hull of two knots, a flat curve of 11
    points or more a hull of at least three. *)
Lemma hull_knots_flat (x : list Q) (c : Q) (idx : list nat) (hull : list Q) :
  Forall (λ v, v == c) x →
  AudioAnalyzer.lower_hull x 10 = Ok (idx, hull) →
  ((11 ≤ length x)%nat → (3 ≤ length idx)%nat)
  ∧ (length x = 10%nat → (length idx < 3)%nat).
Proof.
  intros Hc Hh. split; intros Hn.
  - destruct (lower_hull_members x 10 ltac:(lia) ltac:(lia)) as (idx' & hull' & Hh' & Hmem).
    rewrite Hh in Hh'. injection Hh' as <- <-.
    apply (hull_knots_inner x idx hull 1 Hh); [lia | | lia].
    apply Hmem. right. right. exists 1%nat. split; [lia |].
    apply (win_min_const x c); [exact Hc | lia].
  - destruct (lower_hull_members x 10 ltac:(lia) ltac:(lia)) as (idx' & hull' & Hh' & Hmem).
    rewrite Hh in Hh'. injection Hh' as <- <-.
    apply (hull_knots_ends x idx hull Hh); [lia |].
    intros j Hj. apply Hmem in Hj as [-> | [-> | (i & Hi & Hw)]]; [auto | auto |].
    left. assert (i = 0%nat) by lia. subst i.
    symmetry. apply (win_min_unique x 10 0 0 j); [| exact Hw].
    apply (win_min_const x c); [exact Hc | lia].
Qed.

(** From 12 points on the hull always has at least three knots: the
    second window cannot reach the last point. *)
Lemma hull_knots_long (x : list Q) (idx : list nat) (hull : list Q) :
  AudioAnalyzer.lower_hull x 10 = Ok (idx, hull) → (12 ≤ length x)%nat →
  (3 ≤ length idx)%nat.
Proof.
  intros Hh Hn.
  destruct (lower_hull_members x 10 ltac:(lia) ltac:(lia)) as (idx' & hull' & Hh' & Hmem).
  rewrite Hh in Hh'. injection Hh' as <- <-.
  destruct (window_argmin x 10 1 ltac:(lia) ltac:(lia)) as (r & v & _ & _ & _ & Hw).
  apply (hull_knots_inner x idx hull (r + 1) Hh); [lia | |].
  - apply Hmem. right. right. exists 1%nat. split; [lia | exact Hw].
  - destruct Hw as [Hr _]. lia.
Qed.

Section PipelineFacts.

Variable interp1d : list Q → list Q → Q → Q.
Variable audio : Type.
Variable compute_spectrogram : audio → list (list Q).

(** With at least AREA points inside the band and increasing frequencies,
    [curve_profile] fails only in the interpolation, when the hull has
    fewer than three knots. *)
Lemma curve_profile_outcome (self : AudioAnalyzer.t) (freqs curve : list Q) (min_db : Q) :
  length curve = length freqs → increasing freqs →
  (10 ≤ length (AudioAnalyzer.band_idx self freqs))%nat →
  ∃ fc cc idx hull knots,
    Forall2 (λ i v, freqs !! i = Some v) (AudioAnalyzer.band_idx self freqs) fc
    ∧ Forall2 (λ i v, curve !! i = Some v) (AudioAnalyzer.band_idx self freqs) cc
    ∧ AudioAnalyzer.lower_hull cc 10 = Ok (idx, hull)
    ∧ AudioAnalyzer.curve_profile interp1d self freqs curve min_db
      = if decide (length idx < 3)%nat then Raise ValueError
        else Ok (fc, clip_lo 0 <$> zip_with Qminus cc
                       (clip_lo min_db <$> (interp1d knots hull <$> fc))).
Proof.
  intros Hlen Hinc Hband.
  pose proof (band_idx_bound self freqs) as Hb.
  destruct (take_idx_Ok freqs _ Hb) as (fc & Hfc & Hfc2).
  destruct (take_idx_Ok curve (AudioAnalyzer.band_idx self freqs)) as (cc & Hcc & Hcc2).
  { rewrite Hlen. exact Hb. }
  pose proof (Forall2_length _ _ _ Hfc2) as Lf.
  pose proof (Forall2_length _ _ _ Hcc2) as Lc.
  destruct (lower_hull_spec cc 10 ltac:(lia) ltac:(lia))
    as (idx & hull & Hh & Hs & _ & _ & Hval).
  destruct (take_idx_Ok fc idx) as (knots & Hk & Hk2).
  { apply Forall_forall. intros j Hj.
    apply list_elem_of_lookup in Hj as [k Hk].
    destruct (Forall2_lookup_l _ _ _ _ _ Hval Hk) as (v & _ & Hv).
    apply lookup_lt_Some in Hv. lia. }
  assert (Hdup : AudioAnalyzer.has_duplicates knots = false).
  { apply increasing_no_duplicates.
    apply (take_increasing fc knots idx); [| exact Hs | exact Hk2].
    apply (take_increasing freqs fc (AudioAnalyzer.band_idx self freqs));
      [exact Hinc | apply where_from_sorted | exact Hfc2]. }
  exists fc, cc, idx, hull, knots. split; [exact Hfc2 | split; [exact Hcc2 | split; [exact Hh |]]].
  unfold AudioAnalyzer.curve_profile.
  rewrite (bind_Ok _ _ _ Hfc), (bind_Ok _ _ _ Hcc), (bind_Ok _ _ _ Hh). simpl.
  rewrite (bind_Ok _ _ _ Hk). unfold AudioAnalyzer.interp1d_quadratic.
  rewrite <- (Forall2_length _ _ _ Hk2), Hdup. case_decide; reflexivity.
Qed.

(** Fewer than AREA points inside the band: [lower_hull] indexes its empty
    index list. *)
Lemma curve_profile_short (self : AudioAnalyzer.t) (freqs curve : list Q) (min_db : Q) :
  length curve = length freqs →
  (length (AudioAnalyzer.band_idx self freqs) < 10)%nat →
  AudioAnalyzer.curve_profile interp1d self freqs curve min_db = Raise IndexError.
Proof.
  intros Hlen Hband.
  pose proof (band_idx_bound self freqs) as Hb.
  destruct (take_idx_Ok freqs _ Hb) as (fc & Hfc & Hfc2).
  destruct (take_idx_Ok curve (AudioAnalyzer.band_idx self freqs)) as (cc & Hcc & Hcc2).
  { rewrite Hlen. exact Hb. }
  pose proof (Forall2_length _ _ _ Hcc2) as Lc.
  unfold AudioAnalyzer.curve_profile.
  rewrite (bind_Ok _ _ _ Hfc), (bind_Ok _ _ _ Hcc).
  rewrite (lower_hull_short cc 10) by lia. reflexivity.
Qed.

End PipelineFacts.

Lemma Qn_S (n : nat) : Qn (S n) == Qn n + 1.
Proof. unfold Qn. rewrite Nat2Z.inj_succ, <- Z.add_1_r, inject_Z_plus. reflexivity. Qed.

Lemma Qn_nonneg (n : nat) : 0 <= Qn n.
Proof. unfold Qn. change 0 with (inject_Z 0). rewrite <- Zle_Qle. lia. Qed.

Lemma Qn_pos (n : nat) : (0 < n)%nat → 0 < Qn n.
Proof. intros H. unfold Qn. change 0 with (inject_Z 0). rewrite <- Zlt_Qlt. lia. Qed.

Lemma foldl_Qplus_const (c : Q) (l : list Q) (acc : Q) :
  Forall (λ v, v == c) l → foldl Qplus acc l == acc + c * Qn (length l).
Proof.
  intros H. revert acc. induction H as [|v l Hv _ IH]; intros acc; simpl.
  - change (Qn 0) with 0. ring.
  - rewrite IH, Qn_S, Hv. ring.
Qed.

Lemma mean_of_const (c : Q) (l : list Q) :
  l ≠ [] → Forall (λ v, v == c) l → mean_of l == c.
Proof.
  intros Hne H. unfold mean_of, np_sum. rewrite (foldl_Qplus_const c l 0 H).
  assert (0 < Qn (length l)) by (apply Qn_pos; destruct l; [congruence | simpl; lia]).
  field. lra.
Qed.

Lemma linspace_increasing (stop : Q) (num : nat) :
  0 < stop → increasing (np_linspace 0 stop num).
Proof.
  intros Hs i j x y Hij Hx Hy. unfold np_linspace in Hx, Hy.
  rewrite list_lookup_fmap in Hx, Hy.
  destruct (seq 0 num !! i) as [i'|] eqn:Ei; [| discriminate].
  destruct (seq 0 num !! j) as [j'|] eqn:Ej; [| discriminate].
  apply lookup_seq in Ei as [-> Hi]. apply lookup_seq in Ej as [-> Hj].
  simpl in Hx, Hy. injection Hx as <-. injection Hy as <-.
  assert (Hn : 0 < inject_Z (Z.of_nat (num - 1))).
  { change 0 with (inject_Z 0). rewrite <- Zlt_Qlt. lia. }
  assert (Hd : 0 < (stop - 0) / inject_Z (Z.of_nat (num - 1))).
  { apply Qlt_shift_div_l; [exact Hn | lra]. }
  assert (Hij' : inject_Z (Z.of_nat i) < inject_Z (Z.of_nat j)).
  { rewrite <- Zlt_Qlt. lia. }
  set (d := (stop - 0) / inject_Z (Z.of_nat (num - 1))) in *. clearbody d.
  assert (Hp : 0 < (inject_Z (Z.of_nat j) - inject_Z (Z.of_nat i)) * d)
    by (apply Qmult_lt_0_compat; lra).
  lra.
Qed.

(** C3 (as amended).  Silence is a spectrogram whose entries all hold one
    level at or below the -45 dB floor of the profile (the -100 dB clip
    floor, for one).  With at least 11 bins inside the band it gives a
    fakeprint of that many zeros.  With exactly AREA = 10 bins the hull of
    the flat curve has only its two end points and the quadratic
    interpolation raises ValueError.  A band of fewer than 10 bins makes
    [lower_hull] raise IndexError, whatever the signal. *)
Theorem degenerate_signal
    (interp1d : list Q → list Q → Q → Q) (audio : Type)
    (compute_spectrogram : audio → list (list Q))
    (self : AudioAnalyzer.t) (a : audio) :
  let band := AudioAnalyzer.band_idx self
                (np_linspace 0 (AudioAnalyzer.sr self / 2) (length (compute_spectrogram a))) in
  (0 < AudioAnalyzer.sr self →
   ∀ level, level <= -45 →
     Forall (λ row, row ≠ [] ∧ Forall (λ v, v == level) row) (compute_spectrogram a) →
     ((11 ≤ length band)%nat →
      ∃ fp, AudioAnalyzer.compute_fakeprint interp1d audio compute_spectrogram self a = Ok fp
            ∧ length fp = length band
            ∧ Forall (λ v, v == 0) fp)
     ∧ (length band = 10%nat →
        AudioAnalyzer.compute_fakeprint interp1d audio compute_spectrogram self a
        = Raise ValueError))
  ∧ ((length band < 10)%nat →
     AudioAnalyzer.compute_fakeprint interp1d audio compute_spectrogram self a
     = Raise IndexError).
Proof.
  intros band.
  set (freqs := np_linspace 0 (AudioAnalyzer.sr self / 2)
                  (length (mean_of <$> compute_spectrogram a))).
  assert (Hlen : length (mean_of <$> compute_spectrogram a) = length freqs).
  { unfold freqs, np_linspace. rewrite !length_fmap, length_seq. reflexivity. }
  assert (Eb : AudioAnalyzer.band_idx self freqs = band).
  { unfold band, freqs. rewrite length_fmap. reflexivity. }
  split.
  - intros Hsr level Hlevel Hsil.
    assert (Hinc : increasing freqs).
    { apply linspace_increasing. apply Qlt_shift_div_l; lra. }
    assert (Hflat : Forall (λ c, c == level) (mean_of <$> compute_spectrogram a)).
    { apply Forall_fmap. eapply Forall_impl; [exact Hsil |]. simpl.
      intros row [Hne Hrow]. apply mean_of_const; assumption. }
    assert (G : (10 ≤ length band)%nat →
                ∃ fc cc idx hull knots,
                  length fc = length band ∧ length cc = length band
                  ∧ Forall (λ c, c == level) cc
                  ∧ AudioAnalyzer.lower_hull cc 10 = Ok (idx, hull)
                  ∧ AudioAnalyzer.curve_profile interp1d self freqs
                      (mean_of <$> compute_spectrogram a) (-45)
                    = if decide (length idx < 3)%nat then Raise ValueError
                      else Ok (fc, clip_lo 0 <$> zip_with Qminus cc
                                     (clip_lo (-45) <$> (interp1d knots hull <$> fc)))).
    { intros Hb.
      destruct (curve_profile_outcome interp1d self freqs _ (-45) Hlen Hinc)
        as (fc & cc & idx & hull & knots & Hfc & Hcc & Hh & Hcp).
      { rewrite Eb. exact Hb. }
      exists fc, cc, idx, hull, knots.
      split; [rewrite <- Eb; symmetry; exact (Forall2_length _ _ _ Hfc) |].
      split; [rewrite <- Eb; symmetry; exact (Forall2_length _ _ _ Hcc) |].
      split; [| split; [exact Hh | exact Hcp]].
      apply Forall_forall. intros c Hc. apply list_elem_of_lookup in Hc as [k Hk].
      destruct (Forall2_lookup_r _ _ _ _ _ Hcc Hk) as (i & _ & Hi).
      rewrite Forall_lookup in Hflat. exact (Hflat _ _ Hi). }
    split; intros Hb.
    + destruct (G ltac:(lia)) as (fc & cc & idx & hull & knots & Lf & Lc & Hcc & Hh & Hcp).
      destruct (hull_knots_flat cc level idx hull Hcc Hh) as [H3 _].
      specialize (H3 ltac:(lia)). rewrite decide_False in Hcp by lia.
      set (profile := clip_lo 0 <$> zip_with Qminus cc
                        (clip_lo (-45) <$> (interp1d knots hull <$> fc))) in Hcp.
      assert (Hz : Forall (λ r, r == 0) profile).
      { apply residual_below_floor. eapply Forall_impl; [exact Hcc |]. simpl.
        intros c Hc. rewrite Hc. exact Hlevel. }
      assert (Lp : length profile = length band).
      { unfold profile. rewrite length_fmap, length_zip_with, !length_fmap. lia. }
      destruct (max_normalize_spec profile 5 ltac:(lra))
        as (fp & m & Hfp & Lfp & _ & _ & _ & _ & _ & Hzero & _).
      { intros E. rewrite E in Lp. simpl in Lp. lia. }
      exists fp. split; [| split].
      * unfold AudioAnalyzer.compute_fakeprint. rewrite (bind_Ok _ _ _ Hcp). exact Hfp.
      * lia.
      * apply Hzero. eapply Forall_impl; [exact Hz |]. simpl. intros v ->. lra.
    + destruct (G ltac:(lia)) as (fc & cc & idx & hull & knots & Lf & Lc & Hcc & Hh & Hcp).
      destruct (hull_knots_flat cc level idx hull Hcc Hh) as [_ H2].
      specialize (H2 ltac:(lia)). rewrite decide_True in Hcp by lia.
      unfold AudioAnalyzer.compute_fakeprint. fold freqs. rewrite Hcp. reflexivity.
  - intros Hband. unfold AudioAnalyzer.compute_fakeprint.
    rewrite curve_profile_short; [reflexivity | exact Hlen |].
    rewrite <- Eb in Hband. exact Hband.
Qed.

(** C3 as stated fails: a silent spectrogram with two bins inside the band
    makes the pipeline raise instead of returning a zero fakeprint, so does
    [lower_hull] on nine silent points, and so does a silent spectrogram
    with exactly ten bins inside the band. *)
Lemma short_curve_raises :
  AudioAnalyzer.compute_fakeprint (λ _ _ _, 0) () (λ _, short_silence) AudioAnalyzer.default ()
  = Raise IndexError
  ∧ AudioAnalyzer.lower_hull (replicate 9 (-100)) 10 = Raise IndexError
  ∧ (¬ ∃ fp, AudioAnalyzer.compute_fakeprint (λ _ _ _, 0) () (λ _, short_silence)
               AudioAnalyzer.default () = Ok fp)
  ∧ AudioAnalyzer.compute_fakeprint (λ _ _ _, 0) () (λ _, ten_bin_silence)
      AudioAnalyzer.default ()
    = Raise ValueError.
Proof.
  assert (H : AudioAnalyzer.compute_fakeprint (λ _ _ _, 0) () (λ _, short_silence)
                AudioAnalyzer.default () = Raise IndexError) by (vm_compute; reflexivity).
  split; [exact H | split; [vm_compute; reflexivity | split; [| vm_compute; reflexivity]]].
  intros [fp Hfp]. rewrite H in Hfp. discriminate.
Qed.

Example silence_example :
  ∃ fp, AudioAnalyzer.compute_fakeprint (λ _ _ _, 0) () (λ _, long_silence)
          AudioAnalyzer.default () = Ok fp
        ∧ length fp = 12%nat ∧ Forall (λ v, v == 0) fp.
Proof.
  eexists. split; [vm_compute; reflexivity |]. split; [reflexivity |].
  repeat constructor.
Qed.

Lemma degenerate_signal_witness :
  (∃ fp, AudioAnalyzer.compute_fakeprint (λ _ _ _, 0) () (λ _, long_silence)
           AudioAnalyzer.default () = Ok fp
         ∧ length fp = 12%nat ∧ Forall (λ v, v == 0) fp)
  ∧ AudioAnalyzer.compute_fakeprint (λ _ _ _, 0) () (λ _, ten_bin_silence)
      AudioAnalyzer.default () = Raise ValueError
  ∧ AudioAnalyzer.compute_fakeprint (λ _ _ _, 0) () (λ _, short_silence)
      AudioAnalyzer.default () = Raise IndexError.
Proof.
  assert (Hsr : 0 < AudioAnalyzer.sr AudioAnalyzer.default) by (vm_compute; reflexivity).
  assert (Hlevel : -100 <= -45) by (vm_compute; discriminate).
  assert (Hrows : ∀ n, Forall (λ row, row ≠ [] ∧ Forall (λ v, v == -100) row)
                         (replicate n [-100; -100])).
  { intros n. apply Forall_forall. intros row Hrow.
    apply elem_of_replicate in Hrow as [-> _].
    split; [discriminate | repeat constructor]. }
  split; [| split].
  - apply (proj1 (degenerate_signal (λ _ _ _, 0) () (λ _, long_silence)
                    AudioAnalyzer.default ()) Hsr (-100) Hlevel (Hrows 33%nat)).
    vm_compute. lia.
  - apply (proj1 (degenerate_signal (λ _ _ _, 0) () (λ _, ten_bin_silence)
                    AudioAnalyzer.default ()) Hsr (-100) Hlevel (Hrows 27%nat)).
    vm_compute. reflexivity.
  - apply (proj2 (degenerate_signal (λ _ _ _, 0) () (λ _, short_silence)
                    AudioAnalyzer.default ())).
    vm_compute. lia.
Defined.

(** ** The regularity schedule *)

Ltac q_cmp :=
  repeat match goal with
  | |- context [Qltb ?a ?b] =>
      let H := fresh "Hc" in
      destruct (Qltb a b) eqn:H; [apply Qltb_lt in H | apply Qltb_ge in H]
  | H0 : context [Qltb ?a ?b] |- _ =>
      let H := fresh "Hc" in
      destruct (Qltb a b) eqn:H; [apply Qltb_lt in H | apply Qltb_ge in H]
  end.

Lemma regularity_of_cv_rows (cv : Q) :
  (cv < 0.3 → AIDetector.regularity_of_cv cv == 0.8 + (0.3 - cv) * 0.67)
  ∧ (0.3 <= cv → cv < 0.5 → AIDetector.regularity_of_cv cv == 0.5 + (0.5 - cv) * 1.5)
  ∧ (0.5 <= cv → cv < 0.7 → AIDetector.regularity_of_cv cv == 0.3 + (0.7 - cv) * 1.0)
  ∧ (0.7 <= cv → AIDetector.regularity_of_cv cv == Qmax 0 (0.3 - (cv - 0.7) * 0.5)).
Proof.
  unfold AIDetector.regularity_of_cv, py_max.
  repeat split; intros; q_cmp; q_minmax; lra.
Qed.

Lemma regularity_of_cv_antitone (cv1 cv2 : Q) :
  cv1 <= cv2 → AIDetector.regularity_of_cv cv2 <= AIDetector.regularity_of_cv cv1.
Proof.
  intros H. unfold AIDetector.regularity_of_cv, py_max. q_cmp; lra.
Qed.

(** C6.  The regularity score follows the four-row schedule in cv, is
    non-increasing in cv, takes the values 0.8, 0.5 and 0.3 at the
    boundaries 0.3, 0.5 and 0.7 (where adjacent rows agree), and is 0,
    with zero spacing statistics, when there are at most 3 medium peaks;
    with more than 3 it is the schedule applied to cv = std / mean of the
    spacings. *)
Theorem regularity_schedule :
  (∀ cv1 cv2, cv1 <= cv2 →
     AIDetector.regularity_of_cv cv2 <= AIDetector.regularity_of_cv cv1)
  ∧ (∀ cv, (cv < 0.3 → AIDetector.regularity_of_cv cv == 0.8 + (0.3 - cv) * 0.67)
         ∧ (0.3 <= cv → cv < 0.5 → AIDetector.regularity_of_cv cv == 0.5 + (0.5 - cv) * 1.5)
         ∧ (0.5 <= cv → cv < 0.7 → AIDetector.regularity_of_cv cv == 0.3 + (0.7 - cv) * 1.0)
         ∧ (0.7 <= cv → AIDetector.regularity_of_cv cv == Qmax 0 (0.3 - (cv - 0.7) * 0.5)))
  ∧ (AIDetector.regularity_of_cv 0.29 == 0.8067 ∧ AIDetector.regularity_of_cv 0.3 == 0.8
     ∧ AIDetector.regularity_of_cv 0.49 == 0.515 ∧ AIDetector.regularity_of_cv 0.5 == 0.5
     ∧ AIDetector.regularity_of_cv 0.69 == 0.31 ∧ AIDetector.regularity_of_cv 0.7 == 0.3)
  ∧ (∀ np_sqrt peaks_medium, (length peaks_medium ≤ 3)%nat →
       AIDetector.peak_regularity np_sqrt peaks_medium = (0.0, 0.0, 0.0))
  ∧ (∀ np_sqrt peaks_medium, (3 < length peaks_medium)%nat →
       0 < mean_of (np_diff peaks_medium) →
       (AIDetector.peak_regularity np_sqrt peaks_medium).1.1
       = AIDetector.regularity_of_cv
           (AIDetector.std_of np_sqrt (np_diff peaks_medium) / mean_of (np_diff peaks_medium))).
Proof.
  split; [exact regularity_of_cv_antitone |].
  split; [exact regularity_of_cv_rows |].
  split; [repeat split; vm_compute; reflexivity |].
  split.
  - intros np_sqrt peaks H. unfold AIDetector.peak_regularity.
    rewrite decide_False by lia. reflexivity.
  - intros np_sqrt peaks H Hm. unfold AIDetector.peak_regularity.
    rewrite decide_True by lia. apply Qltb_lt in Hm. rewrite Hm. reflexivity.
Qed.

(** ** The heuristic result *)

Lemma clipped_score_range (raw : Q) :
  0 <= py_max 0.0 (py_min raw 100.0) ∧ py_max 0.0 (py_min raw 100.0) <= 100.
Proof. unfold py_max, py_min. q_cmp; lra. Qed.

Lemma np_clip_id (lo hi v : Q) : lo <= v → v <= hi → np_clip lo hi v == v.
Proof. intros H1 H2. unfold np_clip. q_minmax; lra. Qed.

(** C5.  For every feature vector the returned score lies in [0,100];
    is_ai_generated is true exactly when the score exceeds 50; confidence
    is |score - 50| / 50 and lies in [0,1]; ai_probability is the score and
    human_probability is 100 minus the score. *)
Theorem heuristic_result_contract (fv : AIDetector.FeatureVector) :
  let r := AIDetector.heuristic_result fv in
  let s := AIDetector.score (AIDetector.details r) in
  (0 <= s ∧ s <= 100)
  ∧ (AIDetector.is_ai_generated r = true ↔ 50 < s)
  ∧ AIDetector.confidence r == Qabs (s - 50) / 50
  ∧ (0 <= AIDetector.confidence r ∧ AIDetector.confidence r <= 1)
  ∧ AIDetector.ai_probability r == s
  ∧ AIDetector.human_probability r == 100 - s.
Proof.
  unfold AIDetector.heuristic_result.
  cbn [AIDetector.score AIDetector.details AIDetector.is_ai_generated AIDetector.confidence
       AIDetector.ai_probability AIDetector.human_probability].
  pose proof (clipped_score_range (AIDetector.raw_score fv)) as [H0 H100].
  set (s := py_max 0.0 (py_min (AIDetector.raw_score fv) 100.0)) in *. clearbody s.
  pose proof (np_clip_id 0 100 s H0 H100) as Hid.
  set (p := np_clip 0 100 s) in *. clearbody p.
  split; [tauto |]. split; [rewrite Qltb_lt, Hid; reflexivity |].
  split; [rewrite Hid; reflexivity |].
  split; [| split; [exact Hid | rewrite Hid; reflexivity]].
  assert (Habs : 0 <= Qabs (p - 50) ∧ Qabs (p - 50) <= 50).
  { split; [apply Qabs_nonneg |]. apply Qabs_Qle_condition. lra. }
  split.
  - apply Qle_shift_div_l; lra.
  - apply Qle_shift_div_r; lra.
Qed.

(** ** The descriptors *)

Lemma extract_features_inv (np_sqrt : Q → Q) (x : list Q) (extra : gmap string Q)
    (fv : AIDetector.FeatureVector) :
  AIDetector.extract_features np_sqrt x extra = Ok fv →
  x ≠ []
  ∧ AIDetector.fakeprint_mean fv = mean_of x
  ∧ AIDetector.fakeprint_std fv = AIDetector.std_of np_sqrt x
  ∧ AIDetector.fakeprint_kurtosis fv
    = AIDetector.kurtosis_of x (AIDetector.fakeprint_mean fv) (AIDetector.fakeprint_std fv)
  ∧ AIDetector.peak_count_medium fv = length (AIDetector.peaks_above 0.3 x)
  ∧ AIDetector.peak_regularity_score fv
    = (AIDetector.peak_regularity np_sqrt (AIDetector.peaks_above 0.3 x)).1.1
  ∧ AIDetector.high_freq_energy fv = AIDetector.get_high_freq_energy extra.
Proof.
  unfold AIDetector.extract_features.
  destruct (AIDetector.peak_regularity np_sqrt (AIDetector.peaks_above 0.3 x))
    as [[reg var] cv].
  destruct x as [|x0 xs]; [discriminate |].
  destruct (np_max (x0 :: xs)) as [mx|]; [| discriminate].
  destruct (np_percentile (x0 :: xs) 75) as [p75|]; [| discriminate].
  destruct (np_percentile (x0 :: xs) 90) as [p90|]; [| discriminate].
  destruct (AIDetector.periodicity_of (x0 :: xs) _) as [per|]; [| discriminate].
  intros [= <-]. repeat split; discriminate.
Qed.

Lemma Qpower4_nonneg (s : Q) : 0 <= s ^ 4.
Proof.
  assert (E : s ^ 4 == (s * s) * (s * s)) by (simpl; ring).
  rewrite E. apply Qmult_le_0_compat; nra.
Qed.

(** C8.  For a fakeprint [x] that the extractor accepts, the kurtosis-like
    statistic is mean((x - mean)^4) / (std^4 + 1e-10), with mean and std
    those of [x] and a positive denominator; nothing is subtracted (it
    differs from the same quotient minus 3); and where the quotient is NaN
    (the mean of an empty array) the statistic is 0. *)
Theorem kurtosis_statistic (np_sqrt : Q → Q) (x : list Q) (extra : gmap string Q)
    (fv : AIDetector.FeatureVector) :
  AIDetector.extract_features np_sqrt x extra = Ok fv →
  let m := AIDetector.fakeprint_mean fv in
  let s := AIDetector.fakeprint_std fv in
  let quotient := mean_of ((λ v, (v - m) ^ 4) <$> x) / (s ^ 4 + eps10) in
  m = mean_of x
  ∧ s = np_sqrt (var_of x)
  ∧ AIDetector.fakeprint_kurtosis fv = quotient
  ∧ 0 < s ^ 4 + eps10
  ∧ ¬ AIDetector.fakeprint_kurtosis fv == quotient - 3
  ∧ (∀ y m' s', AIDetector.kurtosis_raw y m' s' = None → AIDetector.kurtosis_of y m' s' = 0)
  ∧ (∀ m' s', AIDetector.kurtosis_raw [] m' s' = None).
Proof.
  intros H m s quotient.
  destruct (extract_features_inv _ _ _ _ H) as (Hx & Hm & Hs & Hk & _).
  assert (Hq : AIDetector.fakeprint_kurtosis fv = quotient).
  { rewrite Hk. destruct x; [congruence | reflexivity]. }
  split; [exact Hm |]. split; [exact Hs |]. split; [exact Hq |].
  split; [pose proof (Qpower4_nonneg s); unfold eps10; lra |].
  split; [rewrite Hq; lra |].
  split; [| reflexivity].
  intros y m' s' Hn. unfold AIDetector.kurtosis_of. rewrite Hn. reflexivity.
Qed.

Lemma kurtosis_statistic_witness :
  ∃ fv, AIDetector.extract_features (λ q, q) sample_fakeprint ∅ = Ok fv
        ∧ AIDetector.fakeprint_mean fv = mean_of sample_fakeprint
        ∧ AIDetector.fakeprint_kurtosis fv
          = mean_of ((λ v, (v - AIDetector.fakeprint_mean fv) ^ 4) <$> sample_fakeprint)
            / (AIDetector.fakeprint_std fv ^ 4 + eps10).
Proof.
  destruct (AIDetector.extract_features (λ q, q) sample_fakeprint ∅) as [fv|e] eqn:E;
    [| vm_compute in E; discriminate].
  exists fv. split; [reflexivity |].
  pose proof (kurtosis_statistic (λ q, q) sample_fakeprint ∅ fv E) as H.
  simpl in H. tauto.
Defined.

(** ** The model store *)

Section ModelStore.

Context {Model bytes : Type} (pickle_load : bytes → outcome Model).

(** C2 (as amended).  With no path, or with a path at which no file
    exists, the constructor returns a detector in heuristic mode.  A file
    that exists but does not unpickle makes [load_model] raise the
    unpickling error, with the attributes of the detector unchanged, and
    the constructor lets that error escape; [load_model] on a missing file
    raises FileNotFoundError.  A file that unpickles gives a trained
    detector. *)
Theorem model_load_failure (fs : gmap string bytes) :
  let untrained := AIDetector.mk Model AudioAnalyzer.default None false in
  AIDetector.__init__ Model bytes pickle_load fs None = Ok untrained
  ∧ (∀ path, fs !! path = None →
       AIDetector.__init__ Model bytes pickle_load fs (Some path) = Ok untrained)
  ∧ (∀ path self, fs !! path = None →
       AIDetector.load_model Model bytes pickle_load self fs path
       = (self, Raise FileNotFoundError))
  ∧ (∀ path content e self, fs !! path = Some content → pickle_load content = Raise e →
       AIDetector.load_model Model bytes pickle_load self fs path = (self, Raise e))
  ∧ (∀ path content e, path ≠ ""%string →
       fs !! path = Some content → pickle_load content = Raise e →
       AIDetector.__init__ Model bytes pickle_load fs (Some path) = Raise e)
  ∧ (∀ path content m, path ≠ ""%string →
       fs !! path = Some content → pickle_load content = Ok m →
       AIDetector.__init__ Model bytes pickle_load fs (Some path)
       = Ok (AIDetector.mk Model AudioAnalyzer.default (Some m) true)).
Proof.
  assert (Hex : ∀ path content, fs !! path = Some content →
                AIDetector.path_exists bytes fs path = true).
  { intros path content H. unfold AIDetector.path_exists.
    apply bool_decide_eq_true. rewrite H. eauto. }
  assert (Htr : ∀ path, path ≠ ""%string → AIDetector.truthy (Some path) = true).
  { intros path H. simpl. apply negb_true_iff, String.eqb_neq, H. }
  intros untrained. split; [reflexivity |]. split; [| split; [| split; [| split]]].
  - intros path H. unfold AIDetector.__init__, AIDetector.path_exists.
    rewrite H, bool_decide_eq_false_2, andb_false_r; [reflexivity |].
    intros [? ?]. discriminate.
  - intros path self H. unfold AIDetector.load_model. rewrite H. reflexivity.
  - intros path content e self H He. unfold AIDetector.load_model.
    rewrite H, He. reflexivity.
  - intros path content e Hp H He. unfold AIDetector.__init__.
    rewrite (Htr _ Hp), (Hex _ _ H). unfold AIDetector.load_model.
    rewrite H, He. reflexivity.
  - intros path content m Hp H Hm. unfold AIDetector.__init__.
    rewrite (Htr _ Hp), (Hex _ _ H). unfold AIDetector.load_model.
    rewrite H, Hm. reflexivity.
Qed.

End ModelStore.

(** C2 as stated fails: a model file that exists but does not unpickle
    makes the constructor raise, so no detector, in heuristic mode or
    otherwise, comes out of it. *)
Lemma corrupt_model_crashes :
  AIDetector.__init__ nat string toy_unpickle corrupt_store (Some "models/detector.pkl"%string)
  = Raise UnpicklingError
  ∧ ¬ ∃ d, AIDetector.__init__ nat string toy_unpickle corrupt_store
             (Some "models/detector.pkl"%string) = Ok d.
Proof.
  assert (H : AIDetector.__init__ nat string toy_unpickle corrupt_store
                (Some "models/detector.pkl"%string) = Raise UnpicklingError)
    by (vm_compute; reflexivity).
  split; [exact H |]. intros [d Hd]. rewrite H in Hd. discriminate.
Qed.

Lemma model_load_failure_witness :
  AIDetector.__init__ nat string toy_unpickle corrupt_store (Some "models/none.pkl"%string)
  = Ok (AIDetector.mk nat AudioAnalyzer.default None false)
  ∧ AIDetector.load_model nat string toy_unpickle
      (AIDetector.mk nat AudioAnalyzer.default None false) corrupt_store
      "models/detector.pkl"%string
    = (AIDetector.mk nat AudioAnalyzer.default None false, Raise UnpicklingError).
Proof.
  pose proof (model_load_failure toy_unpickle corrupt_store) as (_ & H1 & _ & H2 & _).
  split.
  - apply H1. vm_compute. reflexivity.
  - apply (H2 _ "garbage"%string); vm_compute; reflexivity.
Defined.

(** ** The batch endpoint *)

Section BatchFacts.

Context {bytes prediction : Type}.
Variable ALLOWED_EXTENSIONS : list string.
Variable secure_filename : string → string.
Variable upload_path : string → string.
Variable analyse : bytes → outcome prediction.

Local Abbreviation batch_step :=
  (App.batch_step bytes ALLOWED_EXTENSIONS secure_filename upload_path prediction analyse).
Local Abbreviation batch_analyze :=
  (App.batch_analyze bytes ALLOWED_EXTENSIONS secure_filename upload_path prediction analyse).
Local Abbreviation eligible := (App.eligible bytes ALLOWED_EXTENSIONS).
Local Abbreviation entry_of := (App.entry_of bytes secure_filename prediction analyse).
Local Abbreviation expected_results :=
  (App.expected_results bytes ALLOWED_EXTENSIONS secure_filename prediction analyse).

Lemma batch_step_spec (fs : gmap string bytes) (results : list (App.entry prediction))
    (file : App.FileStorage bytes) :
  ∃ fs', batch_step (fs, results) file
         = (fs', results ++ (if eligible file then [entry_of file] else [])).
Proof.
  unfold App.batch_step, App.eligible, App.entry_of, App.predict.
  destruct (_ || _); simpl.
  - exists fs. rewrite app_nil_r. reflexivity.
  - rewrite lookup_insert_eq. eexists.
    destruct (analyse (App.content file)); reflexivity.
Qed.

Lemma batch_loop_spec (files : list (App.FileStorage bytes)) (fs : gmap string bytes)
    (results : list (App.entry prediction)) :
  ∃ fs', foldl batch_step (fs, results) files = (fs', results ++ expected_results files).
Proof.
  revert fs results. induction files as [|file files IH]; intros fs results.
  - exists fs. unfold App.expected_results. simpl. rewrite app_nil_r. reflexivity.
  - change (foldl batch_step (fs, results) (file :: files))
      with (foldl batch_step (batch_step (fs, results) file) files).
    destruct (batch_step_spec fs results file) as [fs1 ->].
    destruct (IH fs1 (results ++ (if eligible file then [entry_of file] else [])))
      as [fs' ->].
    exists fs'. f_equal. rewrite <- app_assoc. f_equal.
    unfold App.expected_results. simpl. destruct (eligible file); reflexivity.
Qed.

Lemma entry_status (file : App.FileStorage bytes) :
  match analyse (App.content file) with
  | Ok _ => App.status (entry_of file) = "success"%string
  | Raise e => entry_of file = App.Error (secure_filename (App.filename file)) (App.str_exn e)
  end.
Proof. unfold App.entry_of. destruct (analyse _); reflexivity. Qed.

(** C7 (as amended).  A non-empty batch is answered with the list of
    results and its length as total.  The list holds, in the order of the
    batch, one entry for each file whose name is non-empty and has an
    allowed extension; files that fail that test are skipped without an
    entry.  An entry is a success result when the analysis of the file
    returns and an error entry carrying the message when it raises, and a
    failure does not stop the loop: three eligible files of which the
    second fails give success, error, success.  An empty batch is answered
    400, without a result list, and leaves the upload folder as it was. *)
Theorem batch_contract (fs : gmap string bytes) (files : list (App.FileStorage bytes)) :
  batch_analyze fs []
  = (fs, App.Json400 "No se encontraron archivos" "Debes enviar al menos un archivo")
  ∧ (files ≠ [] →
  let results := expected_results files in
  (∃ fs', batch_analyze fs files = (fs', App.Json200 (length results) results))
  ∧ results = entry_of <$> List.filter eligible files
  ∧ length results = length (List.filter eligible files)
  ∧ Forall (λ e, App.status e = "success"%string ∨ App.status e = "error"%string) results
  ∧ (∀ file, file ∈ files → eligible file = true →
       ∀ e, analyse (App.content file) = Raise e →
            App.Error (secure_filename (App.filename file)) (App.str_exn e) ∈ results)
  ∧ (∀ f1 f2 f3 r1 e2 r3, files = [f1; f2; f3] →
       eligible f1 = true → eligible f2 = true → eligible f3 = true →
       analyse (App.content f1) = Ok r1 →
       analyse (App.content f2) = Raise e2 →
       analyse (App.content f3) = Ok r3 →
       results = [App.Success (secure_filename (App.filename f1)) r1;
                  App.Error (secure_filename (App.filename f2)) (App.str_exn e2);
                  App.Success (secure_filename (App.filename f3)) r3]
       ∧ App.status <$> results = ["success"; "error"; "success"]%string
       ∧ length results = 3%nat)).
Proof.
  split; [reflexivity |].
  intros Hne results. split; [| split; [reflexivity | split; [| split; [| split]]]].
  - unfold App.batch_analyze. destruct files as [|f files']; [congruence |].
    destruct (batch_loop_spec (f :: files') fs []) as [fs' ->].
    exists fs'. reflexivity.
  - unfold results, App.expected_results. apply length_fmap.
  - unfold results, App.expected_results. apply Forall_fmap, Forall_forall.
    intros file _. simpl. unfold App.entry_of.
    destruct (analyse _); [left | right]; reflexivity.
  - intros file Hin Hel e He. unfold results, App.expected_results.
    apply list_elem_of_fmap. exists file. split.
    + unfold App.entry_of. rewrite He. reflexivity.
    + apply list_elem_of_In, filter_In. split; [apply list_elem_of_In, Hin | exact Hel].
  - intros f1 f2 f3 r1 e2 r3 -> H1 H2 H3 A1 A2 A3.
    unfold results, App.expected_results. simpl.
    rewrite H1, H2, H3. simpl. unfold App.entry_of. rewrite A1, A2, A3.
    repeat split.
Qed.

End BatchFacts.

Lemma batch_contract_witness :
  batch_of_three ≠ []
  ∧ (∃ fs', App.batch_analyze string App.default_extensions (λ name, name)
              (String.append "./uploads/") nat toy_analyse ∅ batch_of_three
            = (fs', App.Json200 3 [App.Success "a.mp3" 4%nat;
                                   App.Error "b.wav" "could not decode audio";
                                   App.Success "c.FLAC" 6%nat]%string))
  ∧ App.batch_analyze string App.default_extensions (λ name, name)
      (String.append "./uploads/") nat toy_analyse ∅ []
    = (∅, App.Json400 "No se encontraron archivos" "Debes enviar al menos un archivo").
Proof.
  destruct (batch_contract App.default_extensions (λ name, name)
              (String.append "./uploads/") toy_analyse ∅ batch_of_three)
    as [H400 Hbatch].
  split; [discriminate | split; [| exact H400]].
  destruct (Hbatch ltac:(discriminate)) as ([fs' H] & _).
  exists fs'. rewrite H. reflexivity.
Defined.

(** C7 as stated fails: of an audio file and a text file sent together only
    the first gets an entry, so the result list is shorter than the batch;
    and the empty batch gets no result list and no total at all, but the
    400 answer. *)
Lemma skipped_file_has_no_entry :
  (∃ fs' results,
     App.batch_analyze string App.default_extensions (λ name, name)
       (String.append "./uploads/") nat toy_analyse ∅ batch_with_text
     = (fs', App.Json200 1 results)
     ∧ results = [App.Success "song.mp3"%string 4%nat]
     ∧ length results ≠ length batch_with_text)
  ∧ ¬ ∃ fs' total results,
        App.batch_analyze string App.default_extensions (λ name, name)
          (String.append "./uploads/") nat toy_analyse ∅ []
        = (fs', App.Json200 total results).
Proof.
  split.
  - eexists _, _. split; [vm_compute; reflexivity |].
    split; [reflexivity | simpl; lia].
  - intros (fs' & total & results & H). discriminate.
Qed.

(** Scenario A: a flat-zero fakeprint with no auxiliary energy scores 3 and
    is classified as human. *)
Example flat_zero_fakeprint :
  ∃ r, AIDetector._compute_heuristic_prediction (λ q, q) ()
         (AIDetector.mk () AudioAnalyzer.default None false) (replicate 12 0) ∅ = Ok r
       ∧ AIDetector.is_ai_generated r = false
       ∧ AIDetector.ai_probability r == 3
       ∧ AIDetector.peak_count_medium (AIDetector.features (AIDetector.details r)) = 0%nat
       ∧ AIDetector.fakeprint_kurtosis (AIDetector.features (AIDetector.details r)) == 0.
Proof.
  eexists. split; [vm_compute; reflexivity |].
  repeat split; vm_compute; reflexivity.
Qed.

(** * Further properties of the code *)

(** ** The lower hull: failure modes and the set of indices *)

(** The indices returned by [lower_hull] are exactly 0, the last index and
    the first-minimum positions of the windows of the curve. *)
Theorem hull_index_set (x : list Q) (area : nat) :
  (1 ≤ area)%nat → (area ≤ length x)%nat →
  ∃ idx hull, AudioAnalyzer.lower_hull x area = Ok (idx, hull)
              ∧ ∀ j, j ∈ idx ↔ (j = 0%nat ∨ j = (length x - 1)%nat
                                 ∨ ∃ i, (i + area ≤ length x)%nat ∧ win_min x area i j).
Proof.
  intros Ha Hn.
  destruct (lower_hull_members x area Ha Hn) as (idx & hull & Hr & Hmem).
  exists idx, hull. split; [exact Hr | exact Hmem].
Qed.

Lemma hull_index_set_witness :
  ∃ idx hull, AudioAnalyzer.lower_hull example_curve 10 = Ok (idx, hull)
              ∧ ∀ j, j ∈ idx ↔ (j = 0%nat ∨ j = (length example_curve - 1)%nat
                                 ∨ ∃ i, (i + 10 ≤ length example_curve)%nat
                                        ∧ win_min example_curve 10 i j).
Proof. apply (hull_index_set example_curve 10); simpl; lia. Defined.

(** How [lower_hull] fails: a zero window width raises ValueError (argmin
    of an empty window) for every curve; with a positive width it raises
    IndexError exactly on curves shorter than the window, and returns on
    all others. *)
Theorem lower_hull_failure_modes (x : list Q) (area : nat) :
  (area = 0%nat → AudioAnalyzer.lower_hull x area = Raise ValueError)
  ∧ ((1 ≤ area)%nat →
     ((length x < area)%nat ↔ AudioAnalyzer.lower_hull x area = Raise IndexError)
     ∧ ((area ≤ length x)%nat ↔ ∃ r, AudioAnalyzer.lower_hull x area = Ok r)).
Proof.
  split.
  - intros ->. unfold AudioAnalyzer.lower_hull, AudioAnalyzer.window_starts.
    replace (length x + 1 - 0)%nat with (S (length x)) by lia. reflexivity.
  - intros Ha.
    destruct (le_lt_dec area (length x)) as [Hn | Hn].
    + destruct (lower_hull_spec x area Ha Hn) as (idx & hull & Hr & _).
      split; split; try lia; rewrite Hr; try discriminate; eauto.
    + rewrite (lower_hull_short x area Hn).
      split; split; try lia; try reflexivity. intros [r Hr]. discriminate.
Qed.

(** The first position at which the curve takes its smallest value is
    always one of the hull indices. *)
Theorem hull_contains_global_min (x : list Q) (area g : nat) :
  (1 ≤ area)%nat → (area ≤ length x)%nat → first_min x g →
  ∃ idx hull, AudioAnalyzer.lower_hull x area = Ok (idx, hull) ∧ g ∈ idx.
Proof.
  intros Ha Hn (gv & Hg & Hle & Hlt).
  destruct (lower_hull_members x area Ha Hn) as (idx & hull & Hr & Hmem).
  exists idx, hull. split; [exact Hr |]. apply Hmem. right. right.
  pose proof (lookup_lt_Some _ _ _ Hg) as Hgl.
  exists (Nat.min g (length x - area)). split; [lia |].
  split; [lia |]. exists gv. split; [exact Hg | split].
  - intros j v _ Hv. eauto.
  - intros j v Hj Hv. apply (Hlt j); [lia | exact Hv].
Qed.

Lemma hull_contains_global_min_witness :
  ∃ idx hull, AudioAnalyzer.lower_hull example_curve 10 = Ok (idx, hull) ∧ 10%nat ∈ idx.
Proof.
  apply (hull_contains_global_min example_curve 10 10); [simpl; lia | simpl; lia |].
  exists 0. split; [reflexivity |]. split.
  - intros j v Hj. apply list_elem_of_lookup_2 in Hj.
    unfold example_curve in Hj. set_unfold. 
    repeat (destruct Hj as [-> | Hj]; [vm_compute; discriminate |]). contradiction.
  - intros j v Hj Hv.
    do 10 (destruct j as [|j]; [injection Hv as <-; reflexivity |]). lia.
Defined.

(** ** Max-normalisation: failure, length and order *)

(** [max_normalize] fails exactly on the empty vector, with the ValueError
    of [np.max]; on any other vector it returns one of the same length. *)
Theorem max_normalize_failure (x : list Q) (max_db : Q) :
  (x = [] ↔ AudioAnalyzer.max_normalize x max_db = Raise ValueError)
  ∧ (x ≠ [] ↔ ∃ fp, AudioAnalyzer.max_normalize x max_db = Ok fp ∧ length fp = length x).
Proof.
  unfold AudioAnalyzer.max_normalize. destruct x as [|v l]; simpl.
  - split; split; try reflexivity; try congruence. intros (fp & H & _). discriminate.
  - split; split; try discriminate.
    intros _. eexists. split; [reflexivity |]. simpl. rewrite !length_fmap. reflexivity.
Qed.

(** [max_normalize] keeps the order of the residuals: a larger residual
    never gets a smaller fakeprint value, and residuals at or above
    [max_db] all get the largest value. *)
Theorem max_normalize_order (x fp : list Q) (max_db : Q) :
  0 <= max_db →
  AudioAnalyzer.max_normalize x max_db = Ok fp →
  ∀ i j ri rj fi fj,
    x !! i = Some ri → x !! j = Some rj → fp !! i = Some fi → fp !! j = Some fj →
    (ri <= rj → fi <= fj) ∧ (max_db <= ri → fj <= fi).
Proof.
  intros Hdb Hfp i j ri rj fi fj Hri Hrj Hfi Hfj.
  unfold AudioAnalyzer.max_normalize in Hfp.
  destruct (np_max (np_clip 0 max_db <$> x)) as [m|] eqn:Hm; [| discriminate].
  injection Hfp as <-.
  rewrite !list_lookup_fmap, Hri in Hfi. rewrite !list_lookup_fmap, Hrj in Hfj.
  injection Hfi as <-. injection Hfj as <-.
  pose proof (np_max_is_max _ _ Hm) as [(w & Hw & Hwm) Hle].
  assert (Hm0 : 0 <= m).
  { rewrite <- Hwm. apply list_elem_of_fmap in Hw as (r & -> & _).
    apply np_clip_bounds. exact Hdb. }
  assert (Hd : 0 < AudioAnalyzer.eps6 + m) by (unfold AudioAnalyzer.eps6; lra).
  split; intros H; apply Qdiv_le_mono; try exact Hd; unfold np_clip; q_minmax; lra.
Qed.

Lemma max_normalize_order_witness :
  ∃ fp, AudioAnalyzer.max_normalize [0.5; 7; 2] 5 = Ok fp
        ∧ ∀ fi fj, fp !! 0%nat = Some fi → fp !! 2%nat = Some fj → fi <= fj.
Proof.
  destruct (AudioAnalyzer.max_normalize [0.5; 7; 2] 5) as [fp|] eqn:E;
    [| vm_compute in E; discriminate].
  exists fp. split; [reflexivity |]. intros fi fj Hi Hj.
  apply (max_normalize_order [0.5; 7; 2] fp 5 ltac:(lra) E 0%nat 2%nat 0.5 2 fi fj);
    try reflexivity; try assumption. lra.
Defined.

(** ** The curve profile and the fakeprint on any spectrogram *)

Lemma where_from_true (mask : list bool) (k i : nat) :
  i ∈ where_from k mask → (k ≤ i)%nat ∧ mask !! (i - k)%nat = Some true.
Proof.
  revert k. induction mask as [|b m IH]; intros k H; simpl in H; [inversion H |].
  assert (Hrest : i ∈ where_from (S k) m → (k ≤ i)%nat ∧ (b :: m) !! (i - k)%nat = Some true).
  { intros H'. destruct (IH _ H') as [Hk Hm]. split; [lia |].
    replace (i - k)%nat with (S (i - S k)) by lia. exact Hm. }
  destruct b; [| auto].
  apply elem_of_cons in H as [-> | H]; [| auto].
  split; [lia |]. rewrite Nat.sub_diag. reflexivity.
Qed.

Lemma band_idx_in_band (self : AudioAnalyzer.t) (freqs : list Q) (i : nat) :
  i ∈ AudioAnalyzer.band_idx self freqs →
  ∃ f, freqs !! i = Some f ∧ AudioAnalyzer.fmin self < f ∧ f < AudioAnalyzer.fmax self.
Proof.
  intros H. apply where_from_true in H as [_ H].
  rewrite Nat.sub_0_r, list_lookup_fmap in H.
  destruct (freqs !! i) as [f|]; [| discriminate]. simpl in H.
  injection H as H. apply andb_true_iff in H as [H1 H2].
  exists f. rewrite <- !Qltb_lt. auto.
Qed.

Lemma residual_bounds (min_db : Q) (cs hs : list Q) (k : nat) (c p : Q) :
  cs !! k = Some c →
  (clip_lo 0 <$> zip_with Qminus cs (clip_lo min_db <$> hs)) !! k = Some p →
  0 <= p ∧ p <= Qmax 0 (c - min_db).
Proof.
  rewrite list_lookup_fmap, lookup_zip_with, list_lookup_fmap. intros ->. simpl.
  destruct (hs !! k) as [h|]; [| discriminate]. simpl. intros [= <-].
  unfold clip_lo. q_minmax; lra.
Qed.

Lemma take_idx_inv {A} (a : list A) (idx : list nat) (r : list A) :
  AudioAnalyzer.take_idx a idx = Ok r → Forall2 (λ i v, a !! i = Some v) idx r.
Proof.
  unfold AudioAnalyzer.take_idx. revert r.
  induction idx as [|i idx IH]; intros r.
  - intros [= <-]. constructor.
  - change (mapM (getitem a) (i :: idx))
      with (y ← getitem a i; k ← mapM (getitem a) idx; mret (y :: k)).
    destruct (getitem a i) as [v|e] eqn:Hv; [| discriminate].
    destruct (mapM (getitem a) idx) as [r'|e]; [| discriminate].
    intros [= <-]. constructor; [| apply IH; reflexivity].
    unfold getitem in Hv. destruct (a !! i); [congruence | discriminate].
Qed.

Section ProfileFacts.

Variable interp1d : list Q → list Q → Q → Q.
Variable audio : Type.
Variable compute_spectrogram : audio → list (list Q).

(** What a returned profile satisfies. *)
Lemma curve_profile_inv (self : AudioAnalyzer.t) (freqs curve fc profile : list Q)
    (min_db : Q) :
  AudioAnalyzer.curve_profile interp1d self freqs curve min_db = Ok (fc, profile) →
  (10 ≤ length (AudioAnalyzer.band_idx self freqs))%nat
  ∧ length fc = length (AudioAnalyzer.band_idx self freqs)
  ∧ length profile = length (AudioAnalyzer.band_idx self freqs)
  ∧ Forall (λ f, AudioAnalyzer.fmin self < f ∧ f < AudioAnalyzer.fmax self) fc
  ∧ ∀ k i c p, AudioAnalyzer.band_idx self freqs !! k = Some i → curve !! i = Some c →
               profile !! k = Some p → 0 <= p ∧ p <= Qmax 0 (c - min_db).
Proof.
  unfold AudioAnalyzer.curve_profile.
  destruct (AudioAnalyzer.take_idx freqs _) as [fc'|e] eqn:Hfc; simpl; [| discriminate].
  destruct (AudioAnalyzer.take_idx curve _) as [cc|e] eqn:Hcc; simpl; [| discriminate].
  apply take_idx_inv in Hfc, Hcc.
  pose proof (Forall2_length _ _ _ Hfc) as Lf.
  pose proof (Forall2_length _ _ _ Hcc) as Lc.
  destruct (le_lt_dec 10 (length cc)) as [Hn | Hn].
  2: { rewrite (lower_hull_short cc 10 Hn). discriminate. }
  destruct (AudioAnalyzer.lower_hull cc 10) as [[idx hull]|e]; simpl; [| discriminate].
  destruct (AudioAnalyzer.take_idx fc' idx) as [knots|e]; simpl; [| discriminate].
  destruct (AudioAnalyzer.interp1d_quadratic interp1d knots hull) as [g|e]; simpl;
    [| discriminate].
  intros [= <- <-]. split; [lia |]. split; [lia |]. split; [| split].
  - rewrite length_fmap, length_zip_with, !length_fmap. lia.
  - apply Forall_forall. intros f Hf. apply list_elem_of_lookup in Hf as [k Hk'].
    destruct (Forall2_lookup_r _ _ _ _ _ Hfc Hk') as (i & Hi & Hfi).
    destruct (band_idx_in_band self freqs i) as (f' & Hf' & Hin);
      [apply list_elem_of_lookup; eauto |].
    rewrite Hfi in Hf'. injection Hf' as <-. exact Hin.
  - intros k i c p Hi Hc Hp.
    destruct (Forall2_lookup_l _ _ _ _ _ Hcc Hi) as (c' & Hc' & Hic).
    rewrite Hc in Hic. injection Hic as <-.
    exact (residual_bounds min_db cc _ k c p Hc' Hp).
Qed.

(** With 12 points or more inside the band the profile is always
    returned; with 10 or 11 the interpolation may refuse the hull. *)
Lemma curve_profile_returns (self : AudioAnalyzer.t) (freqs curve : list Q) (min_db : Q) :
  length curve = length freqs → increasing freqs →
  (10 ≤ length (AudioAnalyzer.band_idx self freqs))%nat →
  ((∃ fc profile, AudioAnalyzer.curve_profile interp1d self freqs curve min_db
                  = Ok (fc, profile))
   ∨ (AudioAnalyzer.curve_profile interp1d self freqs curve min_db = Raise ValueError
      ∧ (length (AudioAnalyzer.band_idx self freqs) < 12)%nat)).
Proof.
  intros Hlen Hinc Hband.
  destruct (curve_profile_outcome interp1d self freqs curve min_db Hlen Hinc Hband)
    as (fc & cc & idx & hull & knots & _ & Hcc & Hh & ->).
  pose proof (Forall2_length _ _ _ Hcc) as Lc.
  case_decide as Hk; [right | left; eauto].
  split; [reflexivity |].
  destruct (le_lt_dec 12 (length cc)) as [H12 | H12]; [| lia].
  pose proof (hull_knots_long cc idx hull Hh H12). lia.
Qed.

(** [curve_profile]: a returned profile has one frequency and one residual
    per bin of the band, every frequency strictly between fmin and fmax,
    and every residual between 0 and the amount by which the curve exceeds
    [min_db] at that bin.  Fewer than 10 bins inside the band raise
    IndexError.  Over increasing frequencies 12 bins or more always give a
    profile, and 10 or 11 bins give a profile or, when the hull has only
    two knots, the ValueError of the interpolation. *)
Theorem curve_profile_contract (self : AudioAnalyzer.t) (freqs curve : list Q) (min_db : Q) :
  let band := AudioAnalyzer.band_idx self freqs in
  let result := AudioAnalyzer.curve_profile interp1d self freqs curve min_db in
  (∀ fc profile, result = Ok (fc, profile) →
     length fc = length band ∧ length profile = length band
     ∧ Forall (λ f, AudioAnalyzer.fmin self < f ∧ f < AudioAnalyzer.fmax self) fc
     ∧ ∀ k i c p, band !! k = Some i → curve !! i = Some c → profile !! k = Some p →
                  0 <= p ∧ p <= Qmax 0 (c - min_db))
  ∧ (length curve = length freqs →
     ((length band < 10)%nat → result = Raise IndexError)
     ∧ (increasing freqs → (10 ≤ length band)%nat →
        (∃ fc profile, result = Ok (fc, profile)) ∨ result = Raise ValueError)
     ∧ (increasing freqs → (12 ≤ length band)%nat →
        ∃ fc profile, result = Ok (fc, profile))).
Proof.
  intros band result. split.
  - intros fc profile H.
    destruct (curve_profile_inv self freqs curve fc profile min_db H)
      as (_ & Lf & Lp & Hf & Hp).
    split; [exact Lf | split; [exact Lp | split; [exact Hf | exact Hp]]].
  - intros Hlen. split; [| split].
    + intros Hb. apply curve_profile_short; assumption.
    + intros Hinc Hb.
      destruct (curve_profile_returns self freqs curve min_db Hlen Hinc Hb)
        as [H | [H _]]; [left; exact H | right; exact H].
    + intros Hinc Hb.
      destruct (curve_profile_returns self freqs curve min_db Hlen Hinc ltac:(unfold band in Hb; lia))
        as [H | [_ H]]; [exact H | unfold band in Hb; lia].
Qed.

Lemma compute_fakeprint_inv (self : AudioAnalyzer.t) (a : audio) (fp : list Q) :
  AudioAnalyzer.compute_fakeprint interp1d audio compute_spectrogram self a = Ok fp →
  let band := AudioAnalyzer.band_idx self
                (np_linspace 0 (AudioAnalyzer.sr self / 2) (length (compute_spectrogram a))) in
  (10 ≤ length band)%nat ∧ length fp = length band ∧ Forall (λ v, 0 <= v ∧ v < 1) fp.
Proof.
  intros H band. unfold AudioAnalyzer.compute_fakeprint in H.
  destruct (AudioAnalyzer.curve_profile interp1d self _ _ (-45)) as [[fc profile]|e] eqn:Hp;
    simpl in H; [| discriminate].
  apply curve_profile_inv in Hp as (Hb & _ & Lp & _).
  rewrite length_fmap in Hb, Lp. fold band in Hb, Lp.
  destruct (max_normalize_spec profile 5 ltac:(lra))
    as (fp' & m & Hfp & Lfp & _ & _ & _ & Hr & _).
  { intros E. rewrite E in Lp. simpl in Lp. lia. }
  rewrite Hfp in H. injection H as <-.
  split; [exact Hb | split; [lia | exact Hr]].
Qed.

Lemma compute_fakeprint_returns (self : AudioAnalyzer.t) (a : audio) :
  let band := AudioAnalyzer.band_idx self
                (np_linspace 0 (AudioAnalyzer.sr self / 2) (length (compute_spectrogram a))) in
  ((length band < 10)%nat →
   AudioAnalyzer.compute_fakeprint interp1d audio compute_spectrogram self a = Raise IndexError)
  ∧ (0 < AudioAnalyzer.sr self → (10 ≤ length band)%nat →
     (∃ fp, AudioAnalyzer.compute_fakeprint interp1d audio compute_spectrogram self a = Ok fp)
     ∨ (AudioAnalyzer.compute_fakeprint interp1d audio compute_spectrogram self a
        = Raise ValueError ∧ (length band < 12)%nat)).
Proof.
  intros band.
  set (freqs := np_linspace 0 (AudioAnalyzer.sr self / 2)
                  (length (mean_of <$> compute_spectrogram a))).
  assert (Hlen : length (mean_of <$> compute_spectrogram a) = length freqs).
  { unfold freqs, np_linspace. rewrite !length_fmap, length_seq. reflexivity. }
  assert (Eb : AudioAnalyzer.band_idx self freqs = band).
  { unfold band, freqs. rewrite length_fmap. reflexivity. }
  split.
  - intros Hb. unfold AudioAnalyzer.compute_fakeprint.
    rewrite curve_profile_short; [reflexivity | exact Hlen |].
    rewrite <- Eb in Hb. exact Hb.
  - intros Hsr Hb.
    assert (Hinc : increasing freqs).
    { apply linspace_increasing. apply Qlt_shift_div_l; lra. }
    destruct (curve_profile_returns self freqs (mean_of <$> compute_spectrogram a) (-45)
                Hlen Hinc) as [(fc & profile & Hp) | [Hp Hlt]].
    { rewrite Eb. exact Hb. }
    + left. pose proof Hp as Hp'.
      apply curve_profile_inv in Hp' as (_ & _ & Lp & _). rewrite Eb in Lp.
      destruct (max_normalize_spec profile 5 ltac:(lra)) as (fp & m & Hfp & _).
      { intros E. rewrite E in Lp. simpl in Lp. lia. }
      exists fp. unfold AudioAnalyzer.compute_fakeprint. fold freqs.
      rewrite (bind_Ok _ _ _ Hp). exact Hfp.
    + right. split; [| rewrite <- Eb; exact Hlt].
      unfold AudioAnalyzer.compute_fakeprint. fold freqs. rewrite Hp. reflexivity.
Qed.

(** [compute_fakeprint]: a returned fakeprint has one element per bin of
    the band, each in [0,1), and the band has at least 10 bins.  Fewer than
    10 bins inside the band raise IndexError.  With a positive sample rate,
    12 bins or more always give a fakeprint, whatever the spectrogram
    holds, and 10 or 11 bins give a fakeprint or the ValueError of the
    interpolation. *)
Theorem compute_fakeprint_contract (self : AudioAnalyzer.t) (a : audio) :
  let band := AudioAnalyzer.band_idx self
                (np_linspace 0 (AudioAnalyzer.sr self / 2) (length (compute_spectrogram a))) in
  let result := AudioAnalyzer.compute_fakeprint interp1d audio compute_spectrogram self a in
  (∀ fp, result = Ok fp →
     (10 ≤ length band)%nat ∧ length fp = length band ∧ Forall (λ v, 0 <= v ∧ v < 1) fp)
  ∧ ((length band < 10)%nat → result = Raise IndexError)
  ∧ (0 < AudioAnalyzer.sr self → (10 ≤ length band)%nat →
     (∃ fp, result = Ok fp) ∨ result = Raise ValueError)
  ∧ (0 < AudioAnalyzer.sr self → (12 ≤ length band)%nat → ∃ fp, result = Ok fp).
Proof.
  intros band result.
  destruct (compute_fakeprint_returns self a) as [Hshort Hret].
  fold band in Hshort, Hret. fold result in Hshort, Hret.
  split; [| split; [exact Hshort | split]].
  - intros fp H. exact (compute_fakeprint_inv self a fp H).
  - intros Hsr Hb. destruct (Hret Hsr Hb) as [H | [H _]]; [left | right]; exact H.
  - intros Hsr Hb. destruct (Hret Hsr ltac:(lia)) as [H | [_ H]]; [exact H | lia].
Qed.

End ProfileFacts.

Lemma curve_profile_contract_witness :
  ∃ fc profile,
    AudioAnalyzer.curve_profile (λ _ _ _, 0) AudioAnalyzer.default sample_freqs sample_curve (-45)
    = Ok (fc, profile)
    ∧ length profile = length (AudioAnalyzer.band_idx AudioAnalyzer.default sample_freqs)
    ∧ Forall (λ f, 5000 < f ∧ f < 16000) fc.
Proof.
  destruct (curve_profile_contract (λ _ _ _, 0) AudioAnalyzer.default sample_freqs
              sample_curve (-45)) as [Hinv Hret].
  destruct (Hret eq_refl) as (_ & _ & H12).
  destruct H12 as (fc & profile & H).
  - apply linspace_increasing. vm_compute. reflexivity.
  - vm_compute. lia.
  - destruct (Hinv fc profile H) as (_ & Lp & Hf & _).
    exists fc, profile. split; [exact H | split; [exact Lp | exact Hf]].
Defined.

(** ** The band of the default analyzer *)

Lemma linspace_le_stop (stop : Q) (num : nat) (f : Q) :
  0 <= stop → f ∈ np_linspace 0 stop num → f <= stop.
Proof.
  intros Hs Hf. unfold np_linspace in Hf.
  apply list_elem_of_fmap in Hf as (i & -> & Hi).
  apply elem_of_seq in Hi as [_ Hi]. simpl in Hi.
  destruct (decide (num - 1 = 0)%nat) as [E | E].
  - assert (i = 0%nat) by lia. subst i.
    set (d := (stop - 0) / _). change (0 + 0 * d <= stop). lra.
  - assert (Hp : 0 < Qn (num - 1)) by (apply Qn_pos; lia).
    assert (Hi' : Qn i <= Qn (num - 1)).
    { unfold Qn. rewrite <- Zle_Qle. lia. }
    fold (Qn i). fold (Qn (num - 1)).
    assert (Hq : Qn i * ((stop - 0) / Qn (num - 1)) == stop * (Qn i / Qn (num - 1)))
      by (field; lra).
    rewrite Qplus_0_l, Hq.
    assert (Qn i / Qn (num - 1) <= 1) by (apply Qle_shift_div_r; lra).
    assert (0 <= Qn i / Qn (num - 1)) by (apply Qle_shift_div_l; [lra | pose proof (Qn_nonneg i); lra]).
    nra.
Qed.

(** With the default settings the upper edge of the band, fmax = 16000 Hz,
    lies above the Nyquist frequency sr/2 = 8000 Hz, so it never excludes
    a bin: the band is every bin above 5000 Hz. *)
Theorem default_band_is_above_fmin (num : nat) :
  let freqs := np_linspace 0 (AudioAnalyzer.sr AudioAnalyzer.default / 2) num in
  AudioAnalyzer.band_idx AudioAnalyzer.default freqs
  = np_where ((λ f, Qltb 5000 f) <$> freqs)
  ∧ Forall (λ f, f <= 8000) freqs.
Proof.
  intros freqs.
  assert (Hall : Forall (λ f, f <= 8000) freqs).
  { apply Forall_forall. intros f Hf.
    assert (E : 8000 == AudioAnalyzer.sr AudioAnalyzer.default / 2) by reflexivity.
    rewrite E. apply (linspace_le_stop _ num); [vm_compute; discriminate | exact Hf]. }
  split; [| exact Hall].
  unfold AudioAnalyzer.band_idx. f_equal.
  apply Forall_fmap_ext. eapply Forall_impl; [exact Hall |]. simpl.
  intros f Hf. assert (H : Qltb f 16000 = true) by (apply Qltb_lt; lra).
  rewrite H. apply andb_true_r.
Qed.

(** ** Peak sets *)

Lemma where_from_length_le (mask : list bool) (k : nat) :
  (length (where_from k mask) ≤ length mask)%nat.
Proof.
  revert k. induction mask as [|b m IH]; intros k; simpl; [lia |].
  specialize (IH (S k)). destruct b; simpl; lia.
Qed.

Lemma where_from_length_mono (m1 m2 : list bool) (k : nat) :
  Forall2 (λ a b, a = true → b = true) m1 m2 →
  (length (where_from k m1) ≤ length (where_from k m2))%nat.
Proof.
  intros H. revert k. induction H as [|a b m1 m2 Hab _ IH]; intros k; simpl; [lia |].
  specialize (IH (S k)). destruct a, b; simpl; try lia;
    specialize (Hab eq_refl); discriminate.
Qed.

Lemma peaks_above_length_mono (t1 t2 : Q) (fakeprint : list Q) :
  t1 <= t2 →
  (length (AIDetector.peaks_above t2 fakeprint)
   ≤ length (AIDetector.peaks_above t1 fakeprint))%nat.
Proof.
  intros Ht. unfold AIDetector.peaks_above, np_where. apply where_from_length_mono.
  apply Forall2_fmap, Forall_Forall2_diag, Forall_forall. intros v _.
  rewrite !Qltb_lt. lra.
Qed.

Lemma np_diff_ge_1 (a : list nat) :
  StronglySorted lt a → Forall (λ d, 1 <= d) (np_diff a).
Proof.
  induction 1 as [|i a Hs IH Hall]; [constructor |].
  destruct a as [|j rest]; [constructor |]. simpl. constructor; [| exact IH].
  apply Forall_inv in Hall. unfold Qn.
  unfold Qminus. rewrite <- inject_Z_opp, <- inject_Z_plus.
  change 1 with (inject_Z 1). rewrite <- Zle_Qle. lia.
Qed.

Lemma np_diff_length (a : list nat) : length (np_diff a) = (length a - 1)%nat.
Proof.
  induction a as [|i a IH]; [reflexivity |].
  destruct a as [|j rest]; [reflexivity |].
  change (np_diff (i :: j :: rest)) with ((Qn j - Qn i) :: np_diff (j :: rest)).
  simpl length in *. lia.
Qed.

Lemma foldl_Qplus_ge (l : list Q) (acc : Q) :
  Forall (λ d, 1 <= d) l → acc + Qn (length l) <= foldl Qplus acc l.
Proof.
  intros H. revert acc. induction H as [|d l Hd _ IH]; intros acc; simpl.
  - change (Qn 0) with 0. lra.
  - specialize (IH (acc + d)). rewrite Qn_S. lra.
Qed.

Lemma mean_of_ge_1 (l : list Q) : l ≠ [] → Forall (λ d, 1 <= d) l → 1 <= mean_of l.
Proof.
  intros Hne H. unfold mean_of, np_sum.
  assert (Hp : 0 < Qn (length l)) by (apply Qn_pos; destruct l; [congruence | simpl; lia]).
  pose proof (foldl_Qplus_ge l 0 H).
  apply Qle_shift_div_l; [exact Hp | lra].
Qed.

(** With more than 3 medium peaks the mean spacing of the peaks is at
    least 1, so the fallback score 0.5 of the regularity block (taken when
    the mean spacing is not positive) is never used: the score is always
    the schedule applied to cv = std / mean of the spacings. *)
Theorem regularity_fallback_unreachable (np_sqrt : Q → Q) (fakeprint : list Q) :
  let peaks_medium := AIDetector.peaks_above 0.3 fakeprint in
  let spacings := np_diff peaks_medium in
  (3 < length peaks_medium)%nat →
  1 <= mean_of spacings
  ∧ AIDetector.peak_regularity np_sqrt peaks_medium
    = (AIDetector.regularity_of_cv (AIDetector.std_of np_sqrt spacings / mean_of spacings),
       AIDetector.std_of np_sqrt spacings,
       AIDetector.std_of np_sqrt spacings / mean_of spacings).
Proof.
  intros peaks spacings Hlen.
  assert (Hm : 1 <= mean_of spacings).
  { apply mean_of_ge_1.
    - intros E. apply (f_equal length) in E. unfold spacings in E.
      rewrite np_diff_length in E. simpl in E. lia.
    - apply np_diff_ge_1. apply where_from_sorted. }
  split; [exact Hm |].
  unfold AIDetector.peak_regularity. rewrite decide_True by exact Hlen.
  fold peaks. fold spacings.
  assert (H : Qltb 0 (mean_of spacings) = true) by (apply Qltb_lt; lra).
  rewrite H. reflexivity.
Qed.

Lemma regularity_fallback_unreachable_witness :
  1 <= mean_of (np_diff (AIDetector.peaks_above 0.3 [1; 0; 0.5; 0.4; 0; 0; 0.9])).
Proof.
  apply (regularity_fallback_unreachable (λ q, q) [1; 0; 0.5; 0.4; 0; 0; 0.9]).
  vm_compute. lia.
Defined.

(** ** The heuristic never fails on a non-empty fakeprint *)

Lemma merge_sort_length (a : list Q) : length (merge_sort Qle a) = length a.
Proof. apply Permutation_length, merge_sort_Permutation. Qed.

Lemma merge_sort_elem_of (a : list Q) (v : Q) : v ∈ merge_sort Qle a → v ∈ a.
Proof. intros H. rewrite <- (merge_sort_Permutation Qle a). exact H. Qed.

Lemma np_percentile_spec (a : list Q) (q : Q) :
  a ≠ [] → 0 <= q → q <= 100 →
  ∃ v lo hi, np_percentile a q = Ok v ∧ lo ∈ a ∧ hi ∈ a
             ∧ Qmin lo hi <= v ∧ v <= Qmax lo hi.
Proof.
  intros Hne Hq0 Hq1. unfold np_percentile.
  assert (Hn : (0 < length a)%nat) by (destruct a; [congruence | simpl; lia]).
  set (virt := (Qn (length a) - 1) * (q / 100)).
  assert (Hq : 0 <= q / 100 ∧ q / 100 <= 1).
  { split; [apply Qle_shift_div_l; lra | apply Qle_shift_div_r; lra]. }
  assert (Hn1 : Qn (length a) - 1 == inject_Z (Z.of_nat (length a) - 1)).
  { unfold Qn, Qminus, Z.sub. rewrite inject_Z_plus. reflexivity. }
  assert (Hn0 : 0 <= Qn (length a) - 1).
  { rewrite Hn1. change 0 with (inject_Z 0). rewrite <- Zle_Qle. lia. }
  assert (Hv : 0 <= virt ∧ virt <= inject_Z (Z.of_nat (length a) - 1)).
  { rewrite <- Hn1. unfold virt. split; nra. }
  assert (Hf0 : (0 ≤ Qfloor virt)%Z).
  { rewrite <- (Qfloor_Z 0). apply Qfloor_resp_le. tauto. }
  assert (Hf1 : (Qfloor virt ≤ Z.of_nat (length a) - 1)%Z).
  { rewrite <- (Qfloor_Z (Z.of_nat (length a) - 1)). apply Qfloor_resp_le. tauto. }
  assert (Hg : 0 <= virt - inject_Z (Qfloor virt) ∧ virt - inject_Z (Qfloor virt) <= 1).
  { pose proof (Qfloor_le virt). pose proof (Qlt_floor virt) as Hlt.
    rewrite inject_Z_plus in Hlt. change (inject_Z 1) with 1 in Hlt. split; lra. }
  destruct (lookup_lt_is_Some_2 (merge_sort Qle a) (Z.to_nat (Qfloor virt))) as [lo Hlo];
    [rewrite merge_sort_length; lia |].
  destruct (lookup_lt_is_Some_2 (merge_sort Qle a)
              (Nat.min (Z.to_nat (Qfloor virt) + 1) (length a - 1))) as [hi Hhi];
    [rewrite merge_sort_length; lia |].
  exists (lo + (hi - lo) * (virt - inject_Z (Qfloor virt))), lo, hi.
  split; [rewrite (bind_Ok _ _ _ (getitem_Ok _ _ _ Hlo)),
            (bind_Ok _ _ _ (getitem_Ok _ _ _ Hhi)); reflexivity |].
  split; [apply merge_sort_elem_of, (list_elem_of_lookup_2 _ _ _ Hlo) |].
  split; [apply merge_sort_elem_of, (list_elem_of_lookup_2 _ _ _ Hhi) |].
  set (g := virt - inject_Z (Qfloor virt)) in *. clearbody g. clear -Hg.
  split; q_minmax; nra.
Qed.

Lemma np_correlate_full_length (a v : list Q) :
  length (np_correlate_full a v) = (length a + length v - 1)%nat.
Proof. unfold np_correlate_full. rewrite length_fmap, length_seq. reflexivity. Qed.

Lemma periodicity_of_Ok (fakeprint : list Q) (m : Q) :
  ∃ p, AIDetector.periodicity_of fakeprint m = Ok p.
Proof.
  unfold AIDetector.periodicity_of. case_decide as Hlen; [| eauto].
  set (c := (λ v, v - m) <$> fakeprint).
  assert (Lc : length c = length fakeprint) by apply length_fmap.
  set (ac := drop (length (np_correlate_full c c) / 2) (np_correlate_full c c)).
  assert (La : length ac = length fakeprint).
  { unfold ac. rewrite length_drop, np_correlate_full_length, Lc.
    assert ((length fakeprint + length fakeprint - 1) / 2 = length fakeprint - 1)%nat.
    { symmetry. apply Nat.div_unique with (r := 1%nat); lia. }
    lia. }
  destruct (lookup_lt_is_Some_2 ac 0) as [a0 Ha0]; [lia |].
  rewrite (bind_Ok _ _ _ (getitem_Ok _ _ _ Ha0)).
  rewrite decide_True by (rewrite length_fmap; lia).
  set (sec := slice _ 2 _).
  assert (Ls : (0 < length sec)%nat).
  { unfold sec, slice. rewrite length_take, length_drop, !length_fmap. lia. }
  rewrite decide_True by exact Ls.
  apply np_max_nonempty. intros E. rewrite E in Ls. simpl in Ls. lia.
Qed.

Lemma extract_features_Ok (np_sqrt : Q → Q) (fakeprint : list Q) (extra : gmap string Q) :
  fakeprint ≠ [] → ∃ fv, AIDetector.extract_features np_sqrt fakeprint extra = Ok fv.
Proof.
  intros Hne. unfold AIDetector.extract_features.
  destruct (AIDetector.peak_regularity np_sqrt (AIDetector.peaks_above 0.3 fakeprint))
    as [[reg var] cv].
  destruct fakeprint as [|x0 xs]; [congruence |].
  destruct (np_max_nonempty (x0 :: xs) ltac:(discriminate)) as [mx ->].
  destruct (np_percentile_spec (x0 :: xs) 75 ltac:(discriminate) ltac:(lra) ltac:(lra))
    as (p75 & _ & _ & -> & _).
  destruct (np_percentile_spec (x0 :: xs) 90 ltac:(discriminate) ltac:(lra) ltac:(lra))
    as (p90 & _ & _ & -> & _).
  destruct (periodicity_of_Ok (x0 :: xs) (nan_to_num (np_mean (x0 :: xs)))) as [per Hper].
  simpl. simpl in Hper. rewrite Hper. simpl. eauto.
Qed.

(** [_compute_heuristic_prediction] raises ValueError on the empty
    fakeprint (from [np.max], in spite of the length guards on the peak
    densities) and returns a result on every other fakeprint. *)
Theorem heuristic_total_on_nonempty (np_sqrt : Q → Q) (Model : Type)
    (self : AIDetector.t Model) (fakeprint : list Q) (extra : gmap string Q) :
  (fakeprint = [] ↔
   AIDetector._compute_heuristic_prediction np_sqrt Model self fakeprint extra
   = Raise ValueError)
  ∧ (fakeprint ≠ [] ↔
     ∃ r, AIDetector._compute_heuristic_prediction np_sqrt Model self fakeprint extra = Ok r).
Proof.
  unfold AIDetector._compute_heuristic_prediction.
  destruct fakeprint as [|x0 xs].
  - unfold AIDetector.extract_features.
    destruct (AIDetector.peak_regularity np_sqrt (AIDetector.peaks_above 0.3 []))
      as [[reg var] cv].
    split; split; try reflexivity; try congruence. intros [r H]. discriminate.
  - destruct (extract_features_Ok np_sqrt (x0 :: xs) extra ltac:(discriminate)) as [fv ->].
    simpl. split; split; try discriminate; eauto.
Qed.

(** ** Ranges of the descriptors *)

Lemma extract_features_fields (np_sqrt : Q → Q) (x : list Q) (extra : gmap string Q)
    (fv : AIDetector.FeatureVector) :
  AIDetector.extract_features np_sqrt x extra = Ok fv →
  AIDetector.peak_count_high fv = length (AIDetector.peaks_above 0.5 x)
  ∧ AIDetector.peak_count_medium fv = length (AIDetector.peaks_above 0.3 x)
  ∧ AIDetector.peak_count_low fv = length (AIDetector.peaks_above 0.1 x)
  ∧ AIDetector.peak_density_high fv = AIDetector.density (AIDetector.peak_count_high fv) x
  ∧ AIDetector.peak_density_medium fv = AIDetector.density (AIDetector.peak_count_medium fv) x
  ∧ AIDetector.peak_density_low fv = AIDetector.density (AIDetector.peak_count_low fv) x
  ∧ np_max x = Ok (AIDetector.fakeprint_max fv)
  ∧ np_percentile x 75 = Ok (AIDetector.fakeprint_p75 fv)
  ∧ np_percentile x 90 = Ok (AIDetector.fakeprint_p90 fv).
Proof.
  unfold AIDetector.extract_features.
  destruct (AIDetector.peak_regularity np_sqrt (AIDetector.peaks_above 0.3 x))
    as [[reg var] cv].
  destruct (np_max x) as [mx|]; [| discriminate].
  destruct (np_percentile x 75) as [p75|]; [| discriminate].
  destruct (np_percentile x 90) as [p90|]; [| discriminate].
  destruct (AIDetector.periodicity_of x _) as [per|]; [| discriminate].
  intros [= <-]. repeat split.
Qed.

Lemma Qn_le (a b : nat) : (a ≤ b)%nat → Qn a <= Qn b.
Proof. intros H. unfold Qn. rewrite <- Zle_Qle. lia. Qed.

Lemma density_mono (c1 c2 : nat) (x : list Q) :
  (c1 ≤ c2)%nat → AIDetector.density c1 x <= AIDetector.density c2 x.
Proof.
  intros H. unfold AIDetector.density. case_decide as Hl; [| lra].
  apply Qdiv_le_mono; [apply Qn_pos, Hl | apply Qn_le, H].
Qed.

Lemma density_range (c : nat) (x : list Q) :
  (c ≤ length x)%nat → 0 <= AIDetector.density c x ∧ AIDetector.density c x <= 1.
Proof.
  intros H. unfold AIDetector.density. case_decide as Hl; [| lra].
  pose proof (Qn_pos _ Hl). pose proof (Qn_nonneg c). pose proof (Qn_le _ _ H).
  split; [apply Qle_shift_div_l | apply Qle_shift_div_r]; lra.
Qed.

(** The three peak sets are nested: the counts satisfy high <= medium <=
    low <= length of the fakeprint, and the densities satisfy
    0 <= high <= medium <= low <= 1. *)
Theorem peak_counts_nested (np_sqrt : Q → Q) (x : list Q) (extra : gmap string Q)
    (fv : AIDetector.FeatureVector) :
  AIDetector.extract_features np_sqrt x extra = Ok fv →
  (AIDetector.peak_count_high fv ≤ AIDetector.peak_count_medium fv)%nat
  ∧ (AIDetector.peak_count_medium fv ≤ AIDetector.peak_count_low fv)%nat
  ∧ (AIDetector.peak_count_low fv ≤ length x)%nat
  ∧ 0 <= AIDetector.peak_density_high fv
  ∧ AIDetector.peak_density_high fv <= AIDetector.peak_density_medium fv
  ∧ AIDetector.peak_density_medium fv <= AIDetector.peak_density_low fv
  ∧ AIDetector.peak_density_low fv <= 1.
Proof.
  intros H.
  destruct (extract_features_fields _ _ _ _ H) as (Hh & Hm & Hl & Dh & Dm & Dl & _).
  assert (H1 : (AIDetector.peak_count_high fv ≤ AIDetector.peak_count_medium fv)%nat)
    by (rewrite Hh, Hm; apply peaks_above_length_mono; lra).
  assert (H2 : (AIDetector.peak_count_medium fv ≤ AIDetector.peak_count_low fv)%nat)
    by (rewrite Hm, Hl; apply peaks_above_length_mono; lra).
  assert (H3 : (AIDetector.peak_count_low fv ≤ length x)%nat).
  { rewrite Hl. unfold AIDetector.peaks_above, np_where.
    etransitivity; [apply where_from_length_le |]. rewrite length_fmap. lia. }
  split; [exact H1 |]. split; [exact H2 |]. split; [exact H3 |].
  rewrite Dh, Dm, Dl.
  split; [apply density_range; lia |].
  split; [apply density_mono, H1 |].
  split; [apply density_mono, H2 | apply density_range, H3].
Qed.

Lemma peak_counts_nested_witness :
  ∃ fv, AIDetector.extract_features (λ q, q) sample_fakeprint ∅ = Ok fv
        ∧ (AIDetector.peak_count_high fv ≤ AIDetector.peak_count_medium fv)%nat
        ∧ AIDetector.peak_density_low fv <= 1.
Proof.
  destruct (AIDetector.extract_features (λ q, q) sample_fakeprint ∅) as [fv|e] eqn:E;
    [| vm_compute in E; discriminate].
  exists fv. split; [reflexivity |].
  pose proof (peak_counts_nested (λ q, q) sample_fakeprint ∅ fv E) as H. tauto.
Defined.





(** ** Ranges of the scoring rules *)




(** ** More regular peaks never lower the score *)

Lemma peak_count_points_linear (fv : AIDetector.FeatureVector) :
  ∃ c, 0 <= c ∧ ∀ r, AIDetector.peak_count_points (set_regularity fv r) == c * (1 + r).
Proof.
  unfold AIDetector.peak_count_points, set_regularity.
  cbn [AIDetector.peak_regularity_score AIDetector.peak_count_medium].
  set (n := AIDetector.peak_count_medium fv). clearbody n.
  destruct ((50 <=? n)%nat && (n <=? 150)%nat).
  - exists 20. split; [lra | intros; ring].
  - destruct (n <? 50)%nat.
    + exists (Qn n * 0.3). split; [pose proof (Qn_nonneg n); lra | intros; ring].
    + exists (20 - py_min 20 ((Qn n - 150) * 0.1)).
      split; [unfold py_min; q_cmp; lra | intros; ring].
Qed.

Lemma hf_adjustment_regularity_mono (fv : AIDetector.FeatureVector) (r1 r2 kb : Q) :
  r1 <= r2 →
  AIDetector.hf_adjustment_of (set_regularity fv r1) kb
  <= AIDetector.hf_adjustment_of (set_regularity fv r2) kb.
Proof.
  intros Hr. unfold AIDetector.hf_adjustment_of, set_regularity.
  cbn [AIDetector.high_freq_energy AIDetector.peak_regularity_score].
  destruct (Qeq_bool _ _ || Qltb _ _); [| lra].
  destruct (Qltb 10 kb); simpl; [lra |]. q_cmp; lra.
Qed.

Lemma combined_regularity_mono (fv : AIDetector.FeatureVector) (r1 r2 : Q) :
  r1 <= r2 →
  AIDetector.combined_indicator_of (set_regularity fv r1) = true →
  AIDetector.combined_indicator_of (set_regularity fv r2) = true.
Proof.
  intros Hr. unfold AIDetector.combined_indicator_of, set_regularity.
  cbn [AIDetector.high_freq_energy AIDetector.peak_regularity_score AIDetector.fakeprint_kurtosis].
  rewrite !andb_true_iff, !Qltb_lt. intros [H1 H2]. split; [exact H1 | lra].
Qed.

Lemma abundant_regularity_mono (fv : AIDetector.FeatureVector) (r1 r2 : Q) :
  r1 <= r2 →
  AIDetector.abundant_and_regular (set_regularity fv r1) = true →
  AIDetector.abundant_and_regular (set_regularity fv r2) = true.
Proof.
  intros Hr. unfold AIDetector.abundant_and_regular, set_regularity.
  cbn [AIDetector.peak_count_medium AIDetector.peak_regularity_score].
  rewrite !andb_true_iff, !Qltb_lt. intros [H1 H2]. split; [exact H1 | lra].
Qed.

Lemma raw_score_regularity_mono (fv : AIDetector.FeatureVector) (r1 r2 : Q) :
  r1 <= r2 →
  AIDetector.raw_score (set_regularity fv r1) <= AIDetector.raw_score (set_regularity fv r2).
Proof.
  intros Hr.
  destruct (peak_count_points_linear fv) as (c & Hc & Hpc).
  pose proof (Hpc r1) as P1. pose proof (Hpc r2) as P2.
  pose proof (hf_adjustment_regularity_mono fv r1 r2
                (AIDetector.kurtosis_bonus_of (set_regularity fv r1)) Hr) as Hhf.
  pose proof (combined_regularity_mono fv r1 r2 Hr) as Hcomb.
  pose proof (abundant_regularity_mono fv r1 r2 Hr) as Hab.
  unfold AIDetector.raw_score. cbv zeta.
  change (AIDetector.high_peak_points (set_regularity fv r2))
    with (AIDetector.high_peak_points (set_regularity fv r1)).
  change (AIDetector.mean_points (set_regularity fv r2))
    with (AIDetector.mean_points (set_regularity fv r1)).
  change (AIDetector.max_points (set_regularity fv r2))
    with (AIDetector.max_points (set_regularity fv r1)).
  change (AIDetector.p90_points (set_regularity fv r2))
    with (AIDetector.p90_points (set_regularity fv r1)).
  change (AIDetector.periodicity_points (set_regularity fv r2))
    with (AIDetector.periodicity_points (set_regularity fv r1)).
  change (AIDetector.kurtosis_bonus_of (set_regularity fv r2))
    with (AIDetector.kurtosis_bonus_of (set_regularity fv r1)).
  change (AIDetector.regularity_points (set_regularity fv r1)) with (r1 * 20).
  change (AIDetector.regularity_points (set_regularity fv r2)) with (r2 * 20).
  set (pc1 := AIDetector.peak_count_points (set_regularity fv r1)) in *.
  set (pc2 := AIDetector.peak_count_points (set_regularity fv r2)) in *.
  set (hp := AIDetector.high_peak_points _). set (mp := AIDetector.mean_points _).
  set (mx := AIDetector.max_points _). set (p9 := AIDetector.p90_points _).
  set (per := AIDetector.periodicity_points _).
  set (kb := AIDetector.kurtosis_bonus_of _) in *.
  set (hf1 := AIDetector.hf_adjustment_of (set_regularity fv r1) kb) in *.
  set (hf2 := AIDetector.hf_adjustment_of (set_regularity fv r2) kb) in *.
  clearbody pc1 pc2 hp mp mx p9 per kb hf1 hf2.
  assert (Hpc12 : pc1 <= pc2) by (rewrite P1, P2; nra).
  destruct (AIDetector.combined_indicator_of (set_regularity fv r1)) eqn:C1;
    [rewrite (Hcomb eq_refl) |
     destruct (AIDetector.combined_indicator_of (set_regularity fv r2))];
    (destruct (AIDetector.abundant_and_regular (set_regularity fv r1)) eqn:A1;
     [rewrite (Hab eq_refl) |
      destruct (AIDetector.abundant_and_regular (set_regularity fv r2))]);
    lra.
Qed.

(** With every other descriptor fixed, a higher regularity score never
    gives a lower final score. *)
Theorem score_regularity_mono (fv : AIDetector.FeatureVector) (r1 r2 : Q) :
  r1 <= r2 →
  AIDetector.score (AIDetector.details (AIDetector.heuristic_result (set_regularity fv r1)))
  <= AIDetector.score (AIDetector.details (AIDetector.heuristic_result (set_regularity fv r2))).
Proof.
  intros Hr. pose proof (raw_score_regularity_mono fv r1 r2 Hr) as H.
  unfold AIDetector.heuristic_result. cbn [AIDetector.score AIDetector.details].
  set (a := AIDetector.raw_score _) in *. set (b := AIDetector.raw_score _) in *.
  clearbody a b. unfold py_max, py_min. q_cmp; lra.
Qed.

Lemma score_regularity_mono_witness :
  AIDetector.score (AIDetector.details (AIDetector.heuristic_result
                                          (set_regularity sample_features 0.2)))
  <= AIDetector.score (AIDetector.details (AIDetector.heuristic_result
                                             (set_regularity sample_features 0.9))).
Proof. apply score_regularity_mono. lra. Defined.

(** ** The periodicity score lies strictly between -1 and 1 *)

Lemma np_sum_snoc (l : list Q) (v : Q) : np_sum (l ++ [v]) = np_sum l + v.
Proof. unfold np_sum. rewrite foldl_app. reflexivity. Qed.

Lemma sum_seq_S (f : nat → Q) (n : nat) :
  np_sum (f <$> seq 0 (S n)) = np_sum (f <$> seq 0 n) + f n.
Proof. rewrite seq_S, fmap_app. apply np_sum_snoc. Qed.

Lemma sum_seq_le (f g : nat → Q) (n : nat) :
  (∀ i, (i < n)%nat → f i <= g i) →
  np_sum (f <$> seq 0 n) <= np_sum (g <$> seq 0 n).
Proof.
  induction n as [|n IH]; intros H; [apply Qle_refl |].
  rewrite !sum_seq_S. specialize (IH (λ i Hi, H i (Nat.lt_lt_succ_r _ _ Hi))).
  specialize (H n (Nat.lt_succ_diag_r n)). lra.
Qed.

Lemma sum_seq_plus (f g : nat → Q) (n : nat) :
  np_sum ((λ i, f i + g i) <$> seq 0 n)
  == np_sum (f <$> seq 0 n) + np_sum (g <$> seq 0 n).
Proof.
  induction n as [|n IH]; [reflexivity |]. rewrite !sum_seq_S, IH. ring.
Qed.

Lemma sum_seq_scale (k : Q) (f : nat → Q) (n : nat) :
  np_sum ((λ i, k * f i) <$> seq 0 n) == k * np_sum (f <$> seq 0 n).
Proof.
  induction n as [|n IH]; [unfold np_sum; simpl; ring |]. rewrite !sum_seq_S, IH. ring.
Qed.

Lemma sum_seq_nonneg (f : nat → Q) (n : nat) :
  (∀ i, 0 <= f i) → 0 <= np_sum (f <$> seq 0 n).
Proof.
  intros H. induction n as [|n IH]; [apply Qle_refl |].
  rewrite sum_seq_S. specialize (H n). lra.
Qed.

Lemma sum_seq_shift (g : nat → Q) (j k : nat) :
  (∀ i, 0 <= g i) →
  np_sum ((λ i, g (i + j)%nat) <$> seq 0 k) <= np_sum (g <$> seq 0 (k + j)).
Proof.
  intros H. induction k as [|k IH].
  - apply (sum_seq_nonneg g _ H).
  - change (S k + j)%nat with (S (k + j)). rewrite !sum_seq_S. lra.
Qed.

Lemma sum_seq_zero_tail (g : nat → Q) (n j : nat) :
  (∀ i, (n ≤ i)%nat → g i == 0) →
  np_sum (g <$> seq 0 (n + j)) == np_sum (g <$> seq 0 n).
Proof.
  intros H. induction j as [|j IH]; [rewrite Nat.add_0_r; reflexivity |].
  replace (n + S j)%nat with (S (n + j)) by lia.
  rewrite sum_seq_S, IH, (H (n + j)%nat) by lia. ring.
Qed.

Lemma Qsquare_nonneg (z : Q) : 0 <= z * z.
Proof. nra. Qed.

Lemma square_at_nonneg (c : list Q) (n : nat) : 0 <= square_at c n.
Proof. unfold square_at. destruct (c !! n); [apply Qsquare_nonneg | lra]. Qed.

Lemma lag_product_bound (c : list Q) (j n : nat) :
  2 * lag_product c j n <= square_at c (n + j) + square_at c n
  ∧ - (square_at c (n + j) + square_at c n) <= 2 * lag_product c j n.
Proof.
  unfold lag_product, square_at.
  destruct (c !! (n + j)%nat) as [x|], (c !! n) as [y|]; split;
    try (pose proof (Qsquare_nonneg (x - y)); pose proof (Qsquare_nonneg (x + y)); lra);
    try (pose proof (Qsquare_nonneg x); lra);
    try (pose proof (Qsquare_nonneg y); lra); lra.
Qed.

Lemma autocorr_bound (c : list Q) (j : nat) :
  let r0 := np_sum (square_at c <$> seq 0 (length c)) in
  let rj := np_sum (lag_product c j <$> seq 0 (length c)) in
  0 <= r0 ∧ rj <= r0 ∧ - r0 <= rj.
Proof.
  cbv zeta.
  pose proof (sum_seq_nonneg (square_at c) (length c) (square_at_nonneg c)) as H0.
  assert (Hshift : np_sum ((λ n, square_at c (n + j)) <$> seq 0 (length c))
                   <= np_sum (square_at c <$> seq 0 (length c))).
  { eapply Qle_trans; [apply (sum_seq_shift (square_at c) j), square_at_nonneg |].
    rewrite sum_seq_zero_tail; [apply Qle_refl |].
    intros i Hi. unfold square_at. rewrite lookup_ge_None_2 by lia. reflexivity. }
  pose proof (sum_seq_plus (λ n, square_at c (n + j)) (square_at c) (length c)) as Hplus.
  pose proof (sum_seq_scale 2 (lag_product c j) (length c)) as H2.
  pose proof (sum_seq_scale (-1) (λ n, square_at c (n + j) + square_at c n) (length c)) as Hm.
  assert (Hup : np_sum ((λ n, 2 * lag_product c j n) <$> seq 0 (length c))
                <= np_sum ((λ n, square_at c (n + j) + square_at c n) <$> seq 0 (length c))).
  { apply sum_seq_le. intros i _. apply lag_product_bound. }
  assert (Hlo : np_sum ((λ n, -1 * (square_at c (n + j) + square_at c n)) <$> seq 0 (length c))
                <= np_sum ((λ n, 2 * lag_product c j n) <$> seq 0 (length c))).
  { apply sum_seq_le. intros i _. pose proof (lag_product_bound c j i). lra. }
  cbv beta in *.
  set (A := np_sum (square_at c <$> seq 0 (length c))) in *.
  set (B := np_sum (lag_product c j <$> seq 0 (length c))) in *.
  set (C := np_sum ((λ n, square_at c (n + j)) <$> seq 0 (length c))) in *.
  set (D := np_sum ((λ n, square_at c (n + j) + square_at c n) <$> seq 0 (length c))) in *.
  set (E := np_sum ((λ n, 2 * lag_product c j n) <$> seq 0 (length c))) in *.
  set (F := np_sum ((λ n, -1 * (square_at c (n + j) + square_at c n)) <$> seq 0 (length c))) in *.
  clearbody A B C D E F.
  split; [exact H0 | split; lra].
Qed.

Lemma autocorr_lookup (c : list Q) (j : nat) :
  (j < length c)%nat →
  drop (length (np_correlate_full c c) / 2) (np_correlate_full c c) !! j
  = Some (np_sum (lag_product c j <$> seq 0 (length c))).
Proof.
  intros Hj. rewrite np_correlate_full_length.
  assert (E : ((length c + length c - 1) / 2 = length c - 1)%nat).
  { symmetry. apply Nat.div_unique with (r := 1%nat); lia. }
  rewrite E, lookup_drop. unfold np_correlate_full.
  rewrite list_lookup_fmap, lookup_seq_lt by lia. simpl. f_equal. f_equal.
  apply Forall_fmap_ext, Forall_forall. intros n _.
  rewrite decide_True by lia. unfold lag_product.
  replace (n + (length c - 1 + j) - (length c - 1))%nat with (n + j)%nat by lia.
  reflexivity.
Qed.

Lemma lag_product_0 (c : list Q) :
  lag_product c 0 <$> seq 0 (length c) = square_at c <$> seq 0 (length c).
Proof.
  apply Forall_fmap_ext, Forall_forall. intros n _.
  unfold lag_product, square_at. rewrite Nat.add_0_r. destruct (c !! n); reflexivity.
Qed.

(** The periodicity score lies strictly between -1 and 1: after the
    normalisation by the lag-0 value plus 1e-10 no autocorrelation value
    reaches 1 in absolute value.  It can be negative. *)
Theorem periodicity_range (fakeprint : list Q) (m p : Q) :
  AIDetector.periodicity_of fakeprint m = Ok p → -1 < p ∧ p < 1.
Proof.
  unfold AIDetector.periodicity_of. case_decide as Hlen; [| intros [= <-]; split; lra].
  set (c := (λ v, v - m) <$> fakeprint).
  assert (Lc : length c = length fakeprint) by apply length_fmap.
  set (ac := drop (length (np_correlate_full c c) / 2) (np_correlate_full c c)).
  assert (Hac : ∀ j, (j < length c)%nat →
                ac !! j = Some (np_sum (lag_product c j <$> seq 0 (length c))))
    by (intros j Hj; apply autocorr_lookup, Hj).
  assert (La : ∀ j v, ac !! j = Some v → (j < length c)%nat).
  { intros j v Hv. apply lookup_lt_Some in Hv. unfold ac in Hv.
    rewrite length_drop, np_correlate_full_length in Hv.
    assert (E : ((length c + length c - 1) / 2 = length c - 1)%nat)
      by (symmetry; apply Nat.div_unique with (r := 1%nat); lia).
    lia. }
  rewrite (bind_Ok _ _ _ (getitem_Ok _ _ _ (Hac 0%nat ltac:(lia)))).
  rewrite lag_product_0.
  set (r0 := np_sum (square_at c <$> seq 0 (length c))).
  case_decide as H5; [| intros [= <-]; split; lra].
  case_decide as Hs; [| intros [= <-]; split; lra].
  intros Hp. pose proof (np_max_is_max _ _ Hp) as [(w & Hw & Hwp) _].
  unfold slice in Hw. apply subseteq_take, subseteq_drop in Hw.
  apply list_elem_of_fmap in Hw as (v & -> & Hv).
  apply list_elem_of_lookup in Hv as [j Hj].
  pose proof (La _ _ Hj) as Hjl. rewrite (Hac j Hjl) in Hj. injection Hj as <-.
  destruct (autocorr_bound c j) as (H0 & Hup & Hlo). fold r0 in H0, Hup, Hlo.
  set (rj := np_sum (lag_product c j <$> seq 0 (length c))) in *. clearbody rj r0.
  assert (Hd : 0 < r0 + eps10) by (unfold eps10; lra).
  rewrite <- Hwp. split.
  - apply Qlt_shift_div_l; [exact Hd | unfold eps10 in *; lra].
  - apply Qlt_shift_div_r; [exact Hd | unfold eps10 in *; lra].
Qed.

Lemma periodicity_range_witness :
  ∃ p, AIDetector.periodicity_of [0.1; 0.9; 0.1; 0.9; 0.1; 0.9; 0.1; 0.9; 0.1; 0.9; 0.1; 0.9]
         0.5 = Ok p ∧ -1 < p ∧ p < 1.
Proof.
  destruct (AIDetector.periodicity_of
              [0.1; 0.9; 0.1; 0.9; 0.1; 0.9; 0.1; 0.9; 0.1; 0.9; 0.1; 0.9] 0.5)
    as [p|e] eqn:E; [| vm_compute in E; discriminate].
  exists p. split; [reflexivity | exact (periodicity_range _ _ _ E)].
Defined.

(** ** The life cycle of the model *)

Section Lifecycle.

Context {Model bytes : Type}.
Variable pickle_load : bytes → outcome Model.
Variable pickle_dump : Model → bytes.


(** Saving and loading.  [save_model] on a detector without a model
    raises ValueError and writes nothing.  With a pickler whose load
    inverts its dump, a detector constructed from the file that
    [save_model] wrote is trained and holds the saved model, and
    [save_model] changes no other file. *)
Theorem save_load_round_trip (self : AIDetector.t Model) (fs : gmap string bytes)
    (path : string) :
  (∀ m, pickle_load (pickle_dump m) = Ok m) →
  path ≠ ""%string →
  let saved := AIDetector.save_model Model bytes pickle_dump self fs path in
  (AIDetector.model Model self = None → saved = (fs, Raise ValueError))
  ∧ (∀ m, AIDetector.model Model self = Some m →
       saved.2 = Ok ()
       ∧ AIDetector.__init__ Model bytes pickle_load saved.1 (Some path)
         = Ok (AIDetector.mk Model AudioAnalyzer.default (Some m) true)
       ∧ ∀ other, other ≠ path → saved.1 !! other = fs !! other).
Proof.
  intros Hrt Hp. unfold AIDetector.save_model. split.
  - intros ->. reflexivity.
  - intros m ->. cbn [fst snd]. split; [reflexivity | split].
    + unfold AIDetector.__init__, AIDetector.path_exists, AIDetector.load_model.
      rewrite lookup_insert_eq, Hrt.
      assert (Ht : AIDetector.truthy (Some path) = true)
        by (simpl; apply negb_true_iff, String.eqb_neq, Hp).
      rewrite Ht, bool_decide_eq_true_2 by eauto. reflexivity.
    + intros other Ho. apply lookup_insert_ne. congruence.
Qed.

End Lifecycle.

Lemma save_load_round_trip_witness :
  let self := AIDetector.mk bool AudioAnalyzer.default (Some true) true in
  let saved := AIDetector.save_model bool string toy_dump self ∅ "models/detector.pkl" in
  saved.2 = Ok ()
  ∧ AIDetector.__init__ bool string toy_load saved.1 (Some "models/detector.pkl"%string)
    = Ok (AIDetector.mk bool AudioAnalyzer.default (Some true) true).
Proof.
  intros self saved.
  assert (Hrt : ∀ m, toy_load (toy_dump m) = Ok m) by (intros []; reflexivity).
  assert (Hp : "models/detector.pkl"%string ≠ ""%string) by discriminate.
  destruct (save_load_round_trip toy_load toy_dump self ∅ "models/detector.pkl" Hrt Hp)
    as [_ H].
  destruct (H true eq_refl) as (H1 & H2 & _). split; [exact H1 | exact H2].
Defined.

(** ** The auxiliary descriptors of the analyzer *)

Lemma where_from_all_false (mask : list bool) (k : nat) :
  Forall (λ b, b = false) mask → where_from k mask = [].
Proof.
  intros H. revert k. induction H as [|b mask -> _ IH]; intros k; simpl; auto.
Qed.

Lemma fft_frequencies_le_nyquist (sr : Q) (n_fft : Z) :
  0 <= sr → (0 < n_fft)%Z →
  Forall (λ f, f <= sr / 2) (AudioAnalyzer.fft_frequencies sr n_fft).
Proof.
  intros Hsr Hn. unfold AudioAnalyzer.fft_frequencies.
  apply Forall_fmap, Forall_forall. intros k Hk. simpl.
  apply elem_of_seq in Hk.
  assert (Hk2 : (2 * Z.of_nat k <= n_fft)%Z).
  { pose proof (Z.mul_div_le n_fft 2 ltac:(lia)).
    assert (Z.of_nat k <= n_fft / 2)%Z; [| lia].
    assert (0 <= n_fft / 2)%Z by (apply Z.div_pos; lia). lia. }
  assert (Hq : 2 * Qn k <= inject_Z n_fft).
  { unfold Qn. change 2 with (inject_Z 2). rewrite <- inject_Z_mult.
    rewrite <- Zle_Qle. exact Hk2. }
  assert (Hnq : 0 < inject_Z n_fft).
  { change 0 with (inject_Z 0). rewrite <- Zlt_Qlt. exact Hn. }
  apply Qle_shift_div_r; [exact Hnq |].
  assert (E : sr / 2 * inject_Z n_fft == sr * inject_Z n_fft / 2) by (field).
  rewrite E. apply Qle_shift_div_l; [lra |].
  assert (Hp : 0 <= sr * (inject_Z n_fft - 2 * Qn k))
    by (apply Qmult_le_0_compat; lra).
  lra.
Qed.

Section DescriptorFacts.

Variable np_sqrt : Q → Q.
Variable audio : Type.
Variable spectral_centroid : audio → Q → outcome (list Q).
Variable spectral_rolloff : audio → Q → outcome (list Q).
Variable spectral_bandwidth : audio → Q → outcome (list Q).
Variable zero_crossing_rate : audio → outcome (list Q).
Variable stft_magnitude : audio → Z → list (list Q).

Lemma high_freq_energy_zero (self : AudioAnalyzer.t) (a : audio) :
  0 <= AudioAnalyzer.sr self → AudioAnalyzer.sr self <= 16000 →
  (0 < AudioAnalyzer.n_fft self)%Z →
  AudioAnalyzer.high_freq_energy audio stft_magnitude self a = Ok 0.0.
Proof.
  intros H0 H1 Hn. unfold AudioAnalyzer.high_freq_energy, np_where.
  rewrite where_from_all_false; [reflexivity |].
  apply Forall_fmap.
  eapply Forall_impl; [exact (fft_frequencies_le_nyquist _ _ H0 Hn) |].
  intros f Hf. cbv beta in Hf |- *. apply Qltb_ge.
  eapply Qle_trans; [exact Hf |]. apply Qle_shift_div_r; lra.
Qed.

(** With a sample rate of at most 16000 Hz (the default is 16000) no bin
    of the STFT lies above 8000 Hz, so the high-frequency energy that
    [extract_additional_features] reports is 0.0 for every audio signal,
    whatever its spectrum. *)
Theorem high_freq_energy_vanishes (self : AudioAnalyzer.t) (a : audio)
    (features : gmap string Q) :
  0 <= AudioAnalyzer.sr self → AudioAnalyzer.sr self <= 16000 →
  (0 < AudioAnalyzer.n_fft self)%Z →
  AudioAnalyzer.extract_additional_features np_sqrt audio spectral_centroid
    spectral_rolloff spectral_bandwidth zero_crossing_rate stft_magnitude self a
  = Ok features →
  features !! "high_freq_energy"%string = Some 0.0.
Proof.
  intros H0 H1 Hn. unfold AudioAnalyzer.extract_additional_features.
  rewrite (high_freq_energy_zero self a H0 H1 Hn).
  destruct (spectral_centroid a _); [| discriminate].
  destruct (spectral_rolloff a _); [| discriminate].
  destruct (spectral_bandwidth a _); [| discriminate].
  destruct (zero_crossing_rate a); [| discriminate].
  simpl. intros [= <-]. apply lookup_insert_eq.
Qed.

End DescriptorFacts.

Lemma high_freq_energy_vanishes_witness :
  ∃ features,
    AudioAnalyzer.extract_additional_features (λ q, q) (list Q) (λ a _, Ok a) (λ a _, Ok a)
      (λ a _, Ok a) (λ a, Ok a) (λ a _, [a; a; a; a; a])
      (AudioAnalyzer.mk 16000 8 5000 16000) [0.5; 0.25] = Ok features
    ∧ features !! "high_freq_energy"%string = Some 0.0.
Proof.
  destruct (AudioAnalyzer.extract_additional_features (λ q, q) (list Q) (λ a _, Ok a)
              (λ a _, Ok a) (λ a _, Ok a) (λ a, Ok a) (λ a _, [a; a; a; a; a])
              (AudioAnalyzer.mk 16000 8 5000 16000) [0.5; 0.25]) as [features|e] eqn:E.
  - exists features. split; [reflexivity |].
    refine (high_freq_energy_vanishes _ _ _ _ _ _ _ _ _ _ _ _ _ E);
      [vm_compute; discriminate | vm_compute; discriminate | simpl; lia].
  - exfalso. revert E. unfold AudioAnalyzer.extract_additional_features.
    rewrite high_freq_energy_zero;
      [| vm_compute; discriminate | vm_compute; discriminate | simpl; lia].
    apply Ok_neq_Raise.
Defined.

(** ** Metadata *)

Lemma argmax_from_spec (l p : list Q) (best : nat) (bv : Q) :
  p !! best = Some bv →
  (∀ j v, p !! j = Some v → v <= bv) →
  (∀ j v, (j < best)%nat → p !! j = Some v → v < bv) →
  first_max (p ++ l) (argmax_from best bv (length p) l).
Proof.
  revert p best bv. induction l as [|v l IH]; intros p best bv Hb Hle Hlt; simpl.
  - rewrite app_nil_r. exists bv. auto.
  - assert (Hlen : length (p ++ [v]) = S (length p))
      by (rewrite length_app; simpl; lia).
    replace (p ++ v :: l) with ((p ++ [v]) ++ l) by (rewrite <- app_assoc; reflexivity).
    rewrite <- Hlen.
    destruct (Qltb bv v) eqn:Hc.
    + apply Qltb_lt in Hc. apply IH.
      * apply list_lookup_middle. reflexivity.
      * intros j w Hj. apply lookup_app_Some in Hj as [Hj | [_ Hj]].
        -- apply Qlt_le_weak. eapply Qle_lt_trans; [eauto | exact Hc].
        -- apply list_lookup_singleton_Some in Hj as [_ <-]. apply Qle_refl.
      * intros j w Hjl Hj.
        rewrite lookup_app_l in Hj by lia.
        eapply Qle_lt_trans; [eauto | exact Hc].
    + apply Qltb_ge in Hc. apply IH.
      * apply lookup_app_l_Some. exact Hb.
      * intros j w Hj. apply lookup_app_Some in Hj as [Hj | [_ Hj]]; [eauto |].
        apply list_lookup_singleton_Some in Hj as [_ <-]. exact Hc.
      * intros j w Hjl Hj.
        assert (best < length p)%nat by (eapply lookup_lt_Some; eauto).
        rewrite lookup_app_l in Hj by lia. eauto.
Qed.

Lemma np_argmax_spec (a : list Q) :
  a ≠ [] → ∃ r, np_argmax a = Ok r ∧ first_max a r.
Proof.
  destruct a as [|v l]; [congruence | intros _].
  exists (argmax_from 0 v 1 l). split; [reflexivity |].
  apply (argmax_from_spec l [v] 0 v).
  - reflexivity.
  - intros j w Hj. apply list_lookup_singleton_Some in Hj as [_ <-]. apply Qle_refl.
  - intros j w Hj. lia.
Qed.



Lemma np_clip_unit (v : Q) : 0 <= np_clip 0.0 1.0 v ∧ np_clip 0.0 1.0 v <= 1.
Proof. unfold np_clip. q_minmax; lra. Qed.

Section MetadataFacts.

Variable np_sqrt : Q → Q.
Variable audio : Type.
Variable librosa_load : string → option Q → outcome (audio * Q).
Variable get_duration : audio → Q → Q.
Variable getsize : string → outcome Z.
Variable tempo_array : Type.
Variable beat_track : audio → Q → outcome (tempo_array * list nat).
Variable float_of_tempo : tempo_array → outcome Q.
Variable chroma_cqt : audio → Q → outcome (list (list Q)).
Variable frames_to_time : list nat → Q → list Q.
Variable spectral_centroid : audio → Q → outcome (list Q).
Variable rms : audio → outcome (list Q).
Variable spectral_rolloff : audio → Q → outcome (list Q).

Local Abbreviation extract_metadata :=
  (AIDetector._extract_audio_metadata np_sqrt audio librosa_load get_duration getsize
     tempo_array beat_track float_of_tempo chroma_cqt frames_to_time spectral_centroid rms
     spectral_rolloff).
Local Abbreviation key_of := (AIDetector.key_of audio chroma_cqt).

Lemma metadata_loaded (path : string) (y : audio) (sr : Q) (n : Z) :
  librosa_load path None = Ok (y, sr) → getsize path = Ok n →
  extract_metadata path
  = {| AIDetector.duration := Some (get_duration y sr);
       AIDetector.quality := Some (AIDetector.quality_of n (get_duration y sr));
       AIDetector.bpm :=
         attempt (beat_track y sr) ≫= (λ '(tempo, _), attempt (float_of_tempo tempo));
       AIDetector.key := attempt (key_of y sr);
       AIDetector.danceability :=
         AIDetector.danceability_of np_sqrt audio frames_to_time spectral_centroid y sr
           (snd <$> attempt (beat_track y sr));
       AIDetector.energy := AIDetector.energy_of np_sqrt audio rms spectral_rolloff y sr |}.
Proof.
  intros Hl Hs. unfold AIDetector._extract_audio_metadata. rewrite Hl. simpl.
  rewrite Hs. reflexivity.
Qed.

Lemma metadata_cases (path : string) :
  extract_metadata path = AIDetector.no_metadata
  ∨ ∃ y sr n, librosa_load path None = Ok (y, sr) ∧ getsize path = Ok n.
Proof.
  unfold AIDetector._extract_audio_metadata.
  destruct (librosa_load path None) as [[y sr]|e]; simpl; [| left; reflexivity].
  destruct (getsize path) as [n|e]; simpl; [| left; reflexivity].
  right. eauto.
Qed.

(** Failures inside [_extract_audio_metadata] never escape and stay local.
    When the file cannot be loaded or its size cannot be read, all six
    fields are None.  Otherwise duration and quality are always present,
    whatever happens in the four analyses; the tempo is present exactly
    when beat tracking succeeds and its tempo converts to a float;
    danceability is present exactly when beat tracking and the spectral
    centroid both succeed, so a failed beat tracker also removes the
    danceability while a tempo that does not convert removes the tempo
    only; energy is present exactly when the RMS and the roll-off both
    succeed. *)
Theorem metadata_failure_isolation (path : string) :
  let m := extract_metadata path in
  (raises (librosa_load path None) ∨ raises (getsize path) → m = AIDetector.no_metadata)
  ∧ (∀ y sr n, librosa_load path None = Ok (y, sr) → getsize path = Ok n →
       AIDetector.duration m = Some (get_duration y sr)
       ∧ AIDetector.quality m = Some (AIDetector.quality_of n (get_duration y sr))
       ∧ (is_Some (AIDetector.bpm m)
          ↔ ∃ tempo beats v, beat_track y sr = Ok (tempo, beats)
                             ∧ float_of_tempo tempo = Ok v)
       ∧ (is_Some (AIDetector.danceability m)
          ↔ (∃ r, beat_track y sr = Ok r) ∧ ∃ c, spectral_centroid y sr = Ok c)
       ∧ (is_Some (AIDetector.key m) ↔ ∃ k, key_of y sr = Ok k)
       ∧ (is_Some (AIDetector.energy m)
          ↔ (∃ r, rms y = Ok r) ∧ ∃ r, spectral_rolloff y sr = Ok r)).
Proof.
  intros m. split.
  - unfold m, AIDetector._extract_audio_metadata.
    intros [[e He] | [e He]].
    + rewrite He. reflexivity.
    + rewrite He. destruct (librosa_load path None) as [[y sr]|e']; reflexivity.
  - intros y sr n Hl Hs. unfold m. rewrite (metadata_loaded path y sr n Hl Hs).
    cbn [AIDetector.duration AIDetector.quality AIDetector.bpm AIDetector.danceability
         AIDetector.key AIDetector.energy].
    split; [reflexivity | split; [reflexivity |]].
    split; [| split; [| split]].
    + destruct (beat_track y sr) as [[tempo beats]|e]; simpl.
      * destruct (float_of_tempo tempo) as [v|e] eqn:Hv; simpl.
        -- split; [intros _; exists tempo, beats, v; auto | eauto].
        -- split; [intros [? ?]; discriminate |].
          intros (t & b & v & [= <- <-] & Hv'). congruence.
      * split; [intros [? ?]; discriminate | intros (? & ? & ? & ? & _); discriminate].
    + unfold AIDetector.danceability_of.
      destruct (beat_track y sr) as [[tempo beats]|e]; simpl.
      * destruct (spectral_centroid y sr) as [c|e]; simpl.
        -- split; eauto.
        -- split; [intros [? ?]; discriminate | intros [_ [? ?]]; discriminate].
      * split; [intros [? ?]; discriminate | intros [[? ?] _]; discriminate].
    + destruct (key_of y sr) as [k|e]; simpl.
      * split; eauto.
      * split; [intros [? ?]; discriminate | intros [? ?]; discriminate].
    + unfold AIDetector.energy_of.
      destruct (rms y) as [r|e]; simpl.
      * destruct (spectral_rolloff y sr) as [r'|e]; simpl.
        -- split; eauto.
        -- split; [intros [? ?]; discriminate | intros [_ [? ?]]; discriminate].
      * split; [intros [? ?]; discriminate | intros [[? ?] _]; discriminate].
Qed.

(** Every value that [_extract_audio_metadata] reports is within its
    documented range: danceability and energy lie in [0, 1], the quality is
    one of the four labels and the key is one of the twelve pitch classes. *)
Theorem metadata_ranges (path : string) :
  let m := extract_metadata path in
  (∀ d, AIDetector.danceability m = Some d → 0 <= d ∧ d <= 1)
  ∧ (∀ e, AIDetector.energy m = Some e → 0 <= e ∧ e <= 1)
  ∧ (∀ q, AIDetector.quality m = Some q
          → q ∈ ["Lossless"; "High"; "Medium"; "Low"]%string)
  ∧ (∀ k, AIDetector.key m = Some k → k ∈ AIDetector.keys).
Proof.
  intros m. unfold m.
  destruct (metadata_cases path) as [-> | (y & sr & n & Hl & Hs)].
  - repeat split; discriminate.
  - rewrite (metadata_loaded path y sr n Hl Hs).
    cbn [AIDetector.duration AIDetector.quality AIDetector.bpm AIDetector.danceability
         AIDetector.key AIDetector.energy].
    split; [| split; [| split]].
    + intros d. unfold AIDetector.danceability_of.
      destruct (snd <$> attempt (beat_track y sr)) as [beats|]; [| discriminate].
      destruct (spectral_centroid y sr) as [c|e]; simpl; [| discriminate].
      intros [= <-]. apply np_clip_unit.
    + intros e. unfold AIDetector.energy_of.
      destruct (rms y) as [r|e']; simpl; [| discriminate].
      destruct (spectral_rolloff y sr) as [r'|e']; simpl; [| discriminate].
      intros [= <-]. apply np_clip_unit.
    + intros q [= <-]. unfold AIDetector.quality_of.
      destruct (Qle_bool 320 _); [| destruct (Qle_bool 192 _); [| destruct (Qle_bool 128 _)]];
        set_solver.
    + intros k. unfold AIDetector.key_of.
      destruct (chroma_cqt y sr) as [rows|e]; simpl; [| discriminate].
      destruct (np_argmax (mean_of <$> rows)) as [i|e]; simpl; [| discriminate].
      unfold getitem. destruct (AIDetector.keys !! i) as [k'|] eqn:Hk; simpl; [| discriminate].
      intros [= <-]. eapply list_elem_of_lookup_2. exact Hk.
Qed.

(** Key detection: the key is the pitch class of the first chroma row
    whose mean over time is the largest.  A chromagram without rows gives
    no key (ValueError, caught), and so does one whose strongest row is
    beyond the twelfth (IndexError, caught). *)
Theorem key_detection (y : audio) (sr : Q) (rows : list (list Q)) :
  chroma_cqt y sr = Ok rows →
  (rows = [] → key_of y sr = Raise ValueError)
  ∧ (rows ≠ [] →
     ∃ i, first_max (mean_of <$> rows) i
          ∧ (i < length rows)%nat
          ∧ key_of y sr = getitem AIDetector.keys i
          ∧ ((i < 12)%nat ↔ ∃ k, key_of y sr = Ok k)
          ∧ ((12 ≤ i)%nat ↔ key_of y sr = Raise IndexError)).
Proof.
  intros Hc. unfold AIDetector.key_of. rewrite Hc. simpl. split.
  - intros ->. reflexivity.
  - intros Hne.
    destruct (np_argmax_spec (mean_of <$> rows)) as (i & Hi & Hmax).
    { destruct rows; [congruence | discriminate]. }
    exists i. rewrite Hi. simpl. split; [exact Hmax |]. split.
    { destruct Hmax as (rv & Hrv & _). apply lookup_lt_Some in Hrv.
      rewrite length_fmap in Hrv. exact Hrv. }
    split; [reflexivity |]. unfold getitem.
    destruct (AIDetector.keys !! i) as [k|] eqn:Hk.
    + apply lookup_lt_Some in Hk as Hlt. simpl in Hlt.
      split; split; try discriminate; eauto; lia.
    + apply lookup_ge_None in Hk. simpl in Hk.
      split; split; try reflexivity; try lia. intros [k Hk']. discriminate.
Qed.

End MetadataFacts.

Lemma key_detection_witness :
  ∃ i, first_max (mean_of <$> [[0.1; 0.2]; [0.9; 0.8]; [0.3; 0.3]]) i
       ∧ AIDetector.key_of (list (list Q)) (λ y _, Ok y) [[0.1; 0.2]; [0.9; 0.8]; [0.3; 0.3]] 44100
         = getitem AIDetector.keys i.
Proof.
  destruct (key_detection (list (list Q)) (λ y _, Ok y)
              [[0.1; 0.2]; [0.9; 0.8]; [0.3; 0.3]] 44100 _ eq_refl) as [_ H].
  destruct (H ltac:(discriminate)) as (i & Hmax & _ & Hk & _).
  exists i. split; [exact Hmax | exact Hk].
Defined.

(** ** predict *)

Section PredictFacts.

Variable np_sqrt : Q → Q.
Variable Model : Type.
Variable audio : Type.
Variable librosa_load : string → option Q → outcome (audio * Q).
Variable get_duration : audio → Q → Q.
Variable getsize : string → outcome Z.
Variable tempo_array : Type.
Variable beat_track : audio → Q → outcome (tempo_array * list nat).
Variable float_of_tempo : tempo_array → outcome Q.
Variable chroma_cqt : audio → Q → outcome (list (list Q)).
Variable frames_to_time : list nat → Q → list Q.
Variable spectral_centroid : audio → Q → outcome (list Q).
Variable rms : audio → outcome (list Q).
Variable spectral_rolloff : audio → Q → outcome (list Q).
Variable interp1d : list Q → list Q → Q → Q.
Variable compute_spectrogram : audio → list (list Q).
Variable spectral_bandwidth : audio → Q → outcome (list Q).
Variable zero_crossing_rate : audio → outcome (list Q).
Variable stft_magnitude : audio → Z → list (list Q).
Variable model_predict : Model → list Q → Z.
Variable model_predict_proba : Model → list Q → Q * Q.

Local Abbreviation predict :=
  (AIDetector.predict np_sqrt Model audio librosa_load get_duration getsize tempo_array
     beat_track float_of_tempo chroma_cqt frames_to_time spectral_centroid rms
     spectral_rolloff interp1d
     compute_spectrogram spectral_bandwidth zero_crossing_rate stft_magnitude
     model_predict model_predict_proba).
Local Abbreviation extract_metadata :=
  (AIDetector._extract_audio_metadata np_sqrt audio librosa_load get_duration getsize
     tempo_array beat_track float_of_tempo chroma_cqt frames_to_time spectral_centroid rms
     spectral_rolloff).
Local Abbreviation extract_additional_features :=
  (AudioAnalyzer.extract_additional_features np_sqrt audio spectral_centroid
     spectral_rolloff spectral_bandwidth zero_crossing_rate stft_magnitude).
Local Abbreviation compute_fakeprint :=
  (AudioAnalyzer.compute_fakeprint interp1d audio compute_spectrogram).
Local Abbreviation band self a :=
  (AudioAnalyzer.band_idx self
     (np_linspace 0 (AudioAnalyzer.sr self / 2) (length (compute_spectrogram a)))).


(** In heuristic mode with an analyzer whose sample rate is at most
    16000 Hz (every detector is constructed with 16000), the
    high-frequency energy that enters the score is always 0.0: the
    adjustment for it, which could have been -3, 0, 2, 3 or 10 points, is 10
    when the kurtosis bonus exceeds 10 or the regularity exceeds 0.5 and 3
    otherwise, and the reported ratio is 0. *)
Theorem predict_high_band_is_silent (self : AIDetector.t Model) (path : string)
    (p : AIDetector.Prediction) :
  AIDetector.is_trained Model self = false →
  0 <= AudioAnalyzer.sr (AIDetector.analyzer Model self) →
  AudioAnalyzer.sr (AIDetector.analyzer Model self) <= 16000 →
  (0 < AudioAnalyzer.n_fft (AIDetector.analyzer Model self))%Z →
  predict self path = Ok p →
  ∃ d, AIDetector.verdict_details p = Some d
       ∧ AIDetector.high_freq_energy (AIDetector.features d) = 0.0
       ∧ AIDetector.high_freq_ratio (AIDetector.features d) == 0
       ∧ AIDetector.hf_adjustment d
         = (if Qltb 10 (AIDetector.kurtosis_bonus d)
               || Qltb 0.5 (AIDetector.peak_regularity_score (AIDetector.features d))
            then 10 else 3)
       ∧ (AIDetector.combined_ia_indicator d = true
          ↔ 5 < AIDetector.fakeprint_kurtosis (AIDetector.features d)
            ∧ AIDetector.fakeprint_kurtosis (AIDetector.features d) < 10
            ∧ 0.3 < AIDetector.peak_regularity_score (AIDetector.features d)).
Proof.
  intros Ht H0 H1 Hn. unfold AIDetector.predict, AudioAnalyzer.load_audio,
    AIDetector._predict_heuristic_with_audio. rewrite Ht. simpl.
  destruct (librosa_load path _) as [[a r]|e]; simpl; [| discriminate].
  destruct (compute_fakeprint _ a) as [fp|e]; simpl; [| discriminate].
  destruct (extract_additional_features _ a) as [extra|e] eqn:He; simpl; [| discriminate].
  pose proof (high_freq_energy_vanishes _ _ _ _ _ _ _ _ _ _ H0 H1 Hn He) as Hhf.
  unfold AIDetector._compute_heuristic_prediction.
  destruct (AIDetector.extract_features np_sqrt fp extra) as [fv|e] eqn:Hfv; simpl;
    [| discriminate].
  intros [= <-]. eexists. split; [reflexivity |].
  assert (Hz : AIDetector.high_freq_energy fv = 0.0).
  { destruct (extract_features_inv _ _ _ _ Hfv) as (_ & _ & _ & _ & _ & _ & ->).
    unfold AIDetector.get_high_freq_energy. rewrite Hhf. reflexivity. }
  assert (Hr : AIDetector.high_freq_ratio fv == 0).
  { revert Hfv Hz. unfold AIDetector.extract_features.
    destruct (AIDetector.peak_regularity _ _) as [[reg var] cv].
    destruct (np_max fp); [| discriminate]. simpl.
    destruct (np_percentile fp 75); [| discriminate]. simpl.
    destruct (np_percentile fp 90); [| discriminate]. simpl.
    destruct (AIDetector.periodicity_of fp _); [| discriminate]. simpl.
    intros [= <-]. simpl. intros ->. unfold Qdiv. ring. }
  unfold AIDetector.heuristic_result.
  cbn [AIDetector.details AIDetector.features AIDetector.hf_adjustment
       AIDetector.kurtosis_bonus AIDetector.combined_ia_indicator].
  split; [exact Hz | split; [exact Hr | split]].
  - unfold AIDetector.hf_adjustment_of. rewrite Hz. reflexivity.
  - unfold AIDetector.combined_indicator_of. rewrite Hz.
    rewrite !andb_true_iff, !Qltb_lt. split.
    + intros [[[A B] _] C]. repeat split; lra.
    + intros (A & B & C). repeat split; lra.
Qed.

(** In trained mode the result is read off the model: the verdict is the
    predicted label, and with probabilities that are non-negative and sum
    to one the confidence is the larger of the two, so it lies between 0.5
    and 1, and the two percentages sum to 100. *)
Theorem predict_trained_confidence (self : AIDetector.t Model) (m : Model) (path : string)
    (p : AIDetector.Prediction) :
  AIDetector.is_trained Model self = true →
  AIDetector.model Model self = Some m →
  predict self path = Ok p →
  ∃ a r fp, librosa_load path (Some (AudioAnalyzer.sr (AIDetector.analyzer Model self)))
            = Ok (a, r)
    ∧ compute_fakeprint (AIDetector.analyzer Model self) a = Ok fp
    ∧ (AIDetector.verdict p = true ↔ model_predict m fp = 1%Z)
    ∧ AIDetector.verdict_ai_probability p = (model_predict_proba m fp).2 * 100
    ∧ AIDetector.verdict_human_probability p = (model_predict_proba m fp).1 * 100
    ∧ (0 <= (model_predict_proba m fp).1 → 0 <= (model_predict_proba m fp).2 →
       (model_predict_proba m fp).1 + (model_predict_proba m fp).2 == 1 →
       0.5 <= AIDetector.verdict_confidence p ∧ AIDetector.verdict_confidence p <= 1
       ∧ AIDetector.verdict_ai_probability p + AIDetector.verdict_human_probability p == 100
       ∧ AIDetector.verdict_ai_probability p <= 100 * AIDetector.verdict_confidence p
       ∧ AIDetector.verdict_human_probability p <= 100 * AIDetector.verdict_confidence p).
Proof.
  intros Ht Hm. unfold AIDetector.predict, AudioAnalyzer.analyze_audio_file,
    AudioAnalyzer.load_audio. rewrite Ht, Hm. simpl.
  destruct (librosa_load path _) as [[a r]|e]; simpl; [| discriminate].
  destruct (compute_fakeprint _ a) as [fp|e] eqn:Hfp; simpl; [| discriminate].
  intros [= <-]. exists a, r, fp. simpl.
  split; [reflexivity | split; [exact Hfp | split; [apply Z.eqb_eq | ]]].
  split; [reflexivity | split; [reflexivity |]].
  destruct (model_predict_proba m fp) as [p0 p1]. simpl. intros A B C.
  unfold py_max. q_cmp; repeat split; lra.
Qed.

End PredictFacts.


Lemma predict_high_band_is_silent_witness :
  ∃ p d, toy_predict (AIDetector.mk bool coarse_analyzer None false) "silence.wav"
         = Ok p
         ∧ AIDetector.verdict_details p = Some d
         ∧ AIDetector.high_freq_energy (AIDetector.features d) = 0.0.
Proof.
  generalize (predict_high_band_is_silent (λ q, q) bool (list (list Q)) toy_librosa_load
    (λ _ _, 2) (λ _, Ok 100000%Z) Q (λ _ _, Raise ValueError) (λ t, Ok t)
    (λ y _, Ok (take 12 y))
    (λ beats _, Qn <$> beats) (λ _ _, Ok [1000]) (λ _, Ok [0.1]) (λ _ _, Ok [2000])
    (λ _ _ _, -100) (λ y, y) (λ _ _, Ok [500]) (λ _, Ok [0.05]) (λ y _, y)
    (λ m _, if m then 1%Z else 0%Z) (λ m _, if m then (0.25, 0.75) else (0.75, 0.25))
    (AIDetector.mk bool coarse_analyzer None false) "silence.wav").
  vm_compute. intros H.
  destruct (H _ eq_refl ltac:(discriminate) ltac:(discriminate) eq_refl eq_refl)
    as (d & Hd & Hz & _).
  eexists _, d. split; [reflexivity | split; [exact Hd | exact Hz]].
Defined.

Lemma predict_trained_confidence_witness :
  ∃ p, toy_predict (AIDetector.mk bool coarse_analyzer (Some true) true) "silence.wav"
       = Ok p
       ∧ AIDetector.verdict p = true
       ∧ 0.5 <= AIDetector.verdict_confidence p ∧ AIDetector.verdict_confidence p <= 1.
Proof.
  generalize (predict_trained_confidence (λ q, q) bool (list (list Q)) toy_librosa_load
    (λ _ _, 2) (λ _, Ok 100000%Z) Q (λ _ _, Raise ValueError) (λ t, Ok t)
    (λ y _, Ok (take 12 y))
    (λ beats _, Qn <$> beats) (λ _ _, Ok [1000]) (λ _, Ok [0.1]) (λ _ _, Ok [2000])
    (λ _ _ _, -100) (λ y, y) (λ _ _, Ok [500]) (λ _, Ok [0.05]) (λ y _, y)
    (λ m _, if m then 1%Z else 0%Z) (λ m _, if m then (0.25, 0.75) else (0.75, 0.25))
    (AIDetector.mk bool coarse_analyzer (Some true) true) true "silence.wav").
  vm_compute. intros H.
  destruct (H _ eq_refl eq_refl eq_refl) as (a & r & fp & _ & _ & Hv & _ & _ & Hc).
  destruct Hc as (A & B & _); [discriminate | discriminate | reflexivity |].
  eexists. split; [reflexivity |]. split; [apply Hv; reflexivity |].
  split; [exact A | exact B].
Defined.

(** ** Uploads *)

Lemma ext_after_last_dot_spec (s : string) :
  match App.ext_after_last_dot s with
  | Some e => dotless e ∧ ∃ stem, s = stem +:+ String dot e
  | None => dotless s
  end.
Proof.
  induction s as [|c s IH]; simpl.
  - unfold dotless. simpl. apply not_elem_of_nil.
  - destruct (App.ext_after_last_dot s) as [e|].
    + destruct IH as [He [stem ->]]. split; [exact He |].
      exists (String c stem). reflexivity.
    + destruct (Ascii.eqb c (Ascii.ascii_of_nat 46)) eqn:Hc.
      * apply Ascii.eqb_eq in Hc. subst c. split; [exact IH |].
        exists ""%string. reflexivity.
      * apply Ascii.eqb_neq in Hc. unfold dotless in *. simpl.
        rewrite not_elem_of_cons. split; [| exact IH].
        intros E. apply Hc. symmetry. exact E.
Qed.

Lemma ext_after_last_dot_append (stem e : string) :
  dotless e → App.ext_after_last_dot (stem +:+ String dot e) = Some e.
Proof.
  intros He.
  assert (H0 : App.ext_after_last_dot e = None).
  { pose proof (ext_after_last_dot_spec e) as H.
    destruct (App.ext_after_last_dot e) as [e'|]; [| reflexivity].
    destruct H as [_ [st ->]]. exfalso. apply He.
    clear. induction st as [|c st IH]; simpl; [apply list_elem_of_here |].
    apply list_elem_of_further, IH. }
  induction stem as [|c stem IH]; simpl.
  - rewrite H0. reflexivity.
  - rewrite IH. reflexivity.
Qed.

(** [allowed_file] accepts exactly the names of the form
    [stem.ext] in which [ext] contains no further dot and is, once
    lower-cased, one of the allowed extensions: only what follows the last
    dot counts, the stem may be empty, and a name without a dot is never
    accepted. *)
Theorem allowed_file_spec (ALLOWED_EXTENSIONS : list string) (filename : string) :
  (App.allowed_file ALLOWED_EXTENSIONS filename = true
   ↔ ∃ stem ext, filename = stem +:+ String dot ext ∧ dotless ext
                 ∧ App.lower ext ∈ ALLOWED_EXTENSIONS)
  ∧ (dotless filename → App.allowed_file ALLOWED_EXTENSIONS filename = false).
Proof.
  unfold App.allowed_file. split; [split |].
  - pose proof (ext_after_last_dot_spec filename) as H.
    destruct (App.ext_after_last_dot filename) as [e|]; [| discriminate].
    destruct H as [He [stem ->]]. intros Hin. apply bool_decide_eq_true in Hin.
    exists stem, e. auto.
  - intros (stem & ext & -> & He & Hin).
    rewrite (ext_after_last_dot_append stem ext He). apply bool_decide_eq_true. exact Hin.
  - intros Hd. pose proof (ext_after_last_dot_spec filename) as H.
    destruct (App.ext_after_last_dot filename) as [e|]; [| reflexivity].
    destruct H as [_ [stem ->]]. exfalso. apply Hd.
    clear. induction stem as [|c st IH]; simpl; [apply list_elem_of_here |].
    apply list_elem_of_further, IH.
Qed.

Section UploadFacts.

Context {bytes prediction : Type}.
Variable ALLOWED_EXTENSIONS : list string.
Variable secure_filename : string → string.
Variable upload_path : string → string.
Variable analyse : bytes → outcome prediction.

Local Abbreviation batch_step :=
  (App.batch_step bytes ALLOWED_EXTENSIONS secure_filename upload_path prediction analyse).
Local Abbreviation batch_analyze :=
  (App.batch_analyze bytes ALLOWED_EXTENSIONS secure_filename upload_path prediction analyse).
Local Abbreviation analyze_audio :=
  (App.analyze_audio bytes ALLOWED_EXTENSIONS secure_filename upload_path prediction analyse).
Local Abbreviation eligible := (App.eligible bytes ALLOWED_EXTENSIONS).
Local Abbreviation temp_path file := (upload_path (secure_filename (App.filename file))).

Lemma batch_step_folder (fs : gmap string bytes) (results : list (App.entry prediction))
    (file : App.FileStorage bytes) :
  (batch_step (fs, results) file).1
  = if eligible file then delete (temp_path file) fs else fs.
Proof.
  unfold App.batch_step, App.eligible.
  destruct (_ || _); simpl; [reflexivity |].
  apply map_eq. intros k. destruct (decide (k = temp_path file)) as [-> | Hk].
  - rewrite !lookup_delete_eq. reflexivity.
  - rewrite !lookup_delete_ne, lookup_insert_ne by congruence. reflexivity.
Qed.

Lemma batch_loop_folder (files : list (App.FileStorage bytes)) (fs : gmap string bytes)
    (results : list (App.entry prediction)) (path : string) :
  (foldl batch_step (fs, results) files).1 !! path
  = if decide (path ∈ (λ file, temp_path file) <$> List.filter eligible files)
    then None else fs !! path.
Proof.
  revert fs results. induction files as [|file files IH]; intros fs results.
  - change (fs !! path = if decide (path ∈ @nil string) then None else fs !! path).
    rewrite decide_False by apply not_elem_of_nil. reflexivity.
  - change (foldl batch_step (fs, results) (file :: files))
      with (foldl batch_step (batch_step (fs, results) file) files).
    destruct (batch_step (fs, results) file) as [fs1 results1] eqn:E.
    rewrite IH. pose proof (batch_step_folder fs results file) as Hf.
    rewrite E in Hf. simpl in Hf. subst fs1. simpl.
    destruct (eligible file); simpl.
    + repeat case_decide; try reflexivity.
      * exfalso. match goal with H : ¬ _ |- _ => apply H end.
        apply list_elem_of_further. assumption.
      * apply lookup_delete_None.
        match goal with H : _ ∈ _ :: _ |- _ => apply elem_of_cons in H as [-> | H] end;
          [left; reflexivity | contradiction].
      * apply lookup_delete_ne. intros <-.
        match goal with H : ¬ _ |- _ => apply H end. apply list_elem_of_here.
    + reflexivity.
Qed.

(** The upload folder after a batch: the temporary path of every file that
    was analysed is absent afterwards, whether the analysis succeeded or
    failed, and even when a file of that name was in the folder before;
    every other path holds what it held.  A non-empty batch none of whose
    files is eligible is answered 200 with an empty result list, and
    writes nothing. *)
Theorem batch_upload_folder (fs : gmap string bytes) (files : list (App.FileStorage bytes)) :
  (∀ path,
     (batch_analyze fs files).1 !! path
     = if decide (path ∈ (λ file, temp_path file) <$> List.filter eligible files)
       then None else fs !! path)
  ∧ (files ≠ [] → Forall (λ file, eligible file = false) files →
     batch_analyze fs files = (fs, App.Json200 0 [])).
Proof.
  split.
  - intros path. unfold App.batch_analyze. destruct files as [|f files'].
    + change (fs !! path = if decide (path ∈ @nil string) then None else fs !! path).
      rewrite decide_False by apply not_elem_of_nil. reflexivity.
    + rewrite <- (batch_loop_folder (f :: files') fs [] path).
      destruct (foldl _ _ _). reflexivity.
  - intros Hne Hall. unfold App.batch_analyze. destruct files as [|f files']; [congruence |].
    assert (H : ∀ l fs0 (rs : list (App.entry prediction)),
              Forall (λ file, eligible file = false) l →
              foldl batch_step (fs0, rs) l = (fs0, rs)).
    { induction l as [|x l IH]; intros fs0 rs Hl; [reflexivity |].
      inversion Hl as [|? ? Hx Hl']; subst.
      change (foldl batch_step (fs0, rs) (x :: l))
        with (foldl batch_step (batch_step (fs0, rs) x) l).
      assert (E : batch_step (fs0, rs) x = (fs0, rs)).
      { unfold App.batch_step. unfold App.eligible in Hx.
        apply negb_false_iff in Hx. rewrite Hx. reflexivity. }
      rewrite E. apply IH, Hl'. }
    rewrite (H _ _ _ Hall). reflexivity.
Qed.

(** [/api/analyze] on the first uploaded file.  A request without a file,
    with an empty name or with a name that is not allowed is answered 400
    and nothing is written.  Otherwise the answer is 200 with the result
    when the analysis of the uploaded bytes returns and 500 with the
    message of the exception when it raises; in both cases the temporary
    file is gone afterwards and no other path is touched. *)
Theorem analyze_audio_contract (fs : gmap string bytes)
    (files : list (App.FileStorage bytes)) :
  match files with
  | [] => ∃ err, analyze_audio fs files = (fs, App.Reply400 err)
  | file :: _ =>
      if eligible file then
        analyze_audio fs files
        = (delete (temp_path file) fs,
           match analyse (App.content file) with
           | Ok result => App.Reply200 (secure_filename (App.filename file)) result
           | Raise e => App.Reply500 (App.str_exn e)
           end)
      else ∃ err, analyze_audio fs files = (fs, App.Reply400 err)
  end.
Proof.
  unfold App.analyze_audio, App.eligible. destruct files as [|file files']; [eauto |].
  destruct (String.eqb (App.filename file) ""); simpl; [eauto |].
  destruct (App.allowed_file ALLOWED_EXTENSIONS (App.filename file)); simpl; [| eauto].
  unfold App.predict. rewrite lookup_insert_eq.
  assert (E : delete (temp_path file) (<[temp_path file := App.content file]> fs)
              = delete (temp_path file) fs).
  { apply map_eq. intros k. destruct (decide (k = temp_path file)) as [-> | Hk].
    - rewrite !lookup_delete_eq. reflexivity.
    - rewrite !lookup_delete_ne, lookup_insert_ne by congruence. reflexivity. }
  rewrite E. destruct (analyse (App.content file)); reflexivity.
Qed.

(** The two endpoints on a request with a single file.  For an eligible
    file they leave the same upload folder and agree on the outcome: 200
    with the result against one success entry, 500 against one error entry
    with the same message.  For a file that is not eligible they differ:
    the single endpoint answers 400, the batch endpoint 200 with no
    result. *)
Theorem single_and_batch_agree (fs : gmap string bytes) (file : App.FileStorage bytes) :
  let name := secure_filename (App.filename file) in
  (eligible file = true →
     (analyze_audio fs [file]).1 = (batch_analyze fs [file]).1
     ∧ (∀ result, (analyze_audio fs [file]).2 = App.Reply200 name result
                  ↔ (batch_analyze fs [file]).2 = App.Json200 1 [App.Success name result])
     ∧ (∀ msg, (analyze_audio fs [file]).2 = App.Reply500 msg
               ↔ (batch_analyze fs [file]).2 = App.Json200 1 [App.Error name msg]))
  ∧ (eligible file = false →
     (∃ err, analyze_audio fs [file] = (fs, App.Reply400 err))
     ∧ batch_analyze fs [file] = (fs, App.Json200 0 [])).
Proof.
  intros name. unfold App.analyze_audio, App.batch_analyze, App.eligible. simpl.
  unfold App.batch_step, App.predict.
  destruct (String.eqb (App.filename file) "") eqn:E1; simpl.
  { split; [discriminate | intros _; split; [eauto | reflexivity]]. }
  destruct (App.allowed_file ALLOWED_EXTENSIONS (App.filename file)) eqn:E2; simpl.
  2: { split; [discriminate | intros _; split; [eauto | reflexivity]]. }
  split; [intros _ | discriminate].
  rewrite lookup_insert_eq. fold name.
  destruct (analyse (App.content file)) as [r|e]; simpl.
  - split; [reflexivity |]. split.
    + intros result. split; intros [= <-]; reflexivity.
    + intros msg. split; discriminate.
  - split; [reflexivity |]. split.
    + intros result. split; discriminate.
    + intros msg. split; intros [= <-]; reflexivity.
Qed.

End UploadFacts.
